(** * Verification of the provisioning tool (automagic.py)

    A shallow embedding of the registry/query engine, the device queue,
    the firmware update flow, the JSON file reader, the credential push and
    the DD-WRT role switch of [src/provisioning-tool/automagic.py], followed
    by the properties proved about them.

    Conventions of the embedding:
    - values read by [json.load] are [pyval]s; JSON numbers are modelled at
      integer values (floating point is outside the model), and
      [time.time()] is an integer clock reading;
    - a Python [dict] is an association list in insertion order with
      Python's assignment semantics ([dict_set] keeps the position of an
      existing key, appends a new one);
    - an exception is a [Raise] result; [sys.exit()] is the exception
      [SystemExit], as in Python;
    - the network, the telnet session and the clock are explicit oracles. *)

From Stdlib Require Import ZArith Ascii String DecimalString DecimalNat Lia.
From stdpp Require Import base list strings gmap sets.

(* ================================================================== *)
(** * Part I: the embedding                                            *)
(* ================================================================== *)

(** ** Exceptions *)

Inductive exn : Type :=
| TypeError
| KeyError
| IndexError
| NameError
| JSONDecodeError
| CommandError      (* the [Exception] raised by [ddwrt_get_single_line_result] *)
| SystemExit.

Inductive res (A : Type) : Type :=
| Ok (a : A)
| Raise (e : exn).
Arguments Ok {A} a.
Arguments Raise {A} e.

Definition res_bind {A B : Type} (r : res A) (k : A -> res B) : res B :=
  match r with
  | Ok a => k a
  | Raise e => Raise e
  end.

Notation "'let?' x := r 'in' k" := (res_bind r (fun x => k))
  (at level 10, x pattern, r at level 100, k at level 200).

(** ** Python values *)

Unset Elimination Schemes.
Inductive pyval : Type :=
| PNone
| PBool (b : bool)
| PInt (n : Z)
| PStr (s : string)
| PList (items : list pyval)
| PDict (fields : list (string * pyval)).
Set Elimination Schemes.

(** Induction over values, through the lists they are nested in. *)
Section pyval_induction.
Variable P : pyval -> Prop.
Hypothesis HNone : P PNone.
Hypothesis HBool : forall b, P (PBool b).
Hypothesis HInt : forall n, P (PInt n).
Hypothesis HStr : forall s, P (PStr s).
Hypothesis HList : forall items, Forall P items -> P (PList items).
Hypothesis HDict : forall fields, Forall (fun kv => P kv.2) fields -> P (PDict fields).

Fixpoint pyval_ind (v : pyval) : P v :=
  match v with
  | PNone => HNone
  | PBool b => HBool b
  | PInt n => HInt n
  | PStr s => HStr s
  | PList items =>
      HList items
        ((fix go (l : list pyval) : Forall P l :=
            match l with
            | [] => Forall_nil_2 P
            | x :: l' => Forall_cons_2 P x l' (pyval_ind x) (go l')
            end) items)
  | PDict fields =>
      HDict fields
        ((fix go (l : list (string * pyval)) : Forall (fun kv => P kv.2) l :=
            match l with
            | [] => Forall_nil_2 _
            | kv :: l' => Forall_cons_2 (fun kv => P kv.2) kv l' (pyval_ind kv.2) (go l')
            end) fields)
  end.
End pyval_induction.

(** Python's truth value of an object ([if x], [not x]). *)
Definition truthy (v : pyval) : bool :=
  match v with
  | PNone => false
  | PBool b => b
  | PInt n => negb (n =? 0)%Z
  | PStr s => negb (String.eqb s "")
  | PList l => match l with [] => false | _ => true end
  | PDict f => match f with [] => false | _ => true end
  end.

(** Truth value of an optional command-line string ([None] or [str]). *)
Definition given (o : option string) : bool :=
  match o with
  | Some s => negb (String.eqb s "")
  | None => false
  end.

(** ** Dictionaries in insertion order *)

Section dict.
Context {K V : Type} (eqb : K -> K -> bool).

Fixpoint dict_get (k : K) (d : list (K * V)) : option V :=
  match d with
  | [] => None
  | (k', v) :: rest => if eqb k' k then Some v else dict_get k rest
  end.

Definition dict_in (k : K) (d : list (K * V)) : bool :=
  match dict_get k d with Some _ => true | None => false end.

(** [d[k] = v] *)
Fixpoint dict_set (k : K) (v : V) (d : list (K * V)) : list (K * V) :=
  match d with
  | [] => [(k, v)]
  | (k', v') :: rest =>
      if eqb k' k then (k', v) :: rest else (k', v') :: dict_set k v rest
  end.

(** [d.update(other)] *)
Definition dict_update (d other : list (K * V)) : list (K * V) :=
  fold_left (fun acc kv => dict_set (fst kv) (snd kv) acc) other d.

(** [del d[k]] for a present key *)
Fixpoint dict_del (k : K) (d : list (K * V)) : list (K * V) :=
  match d with
  | [] => []
  | (k', v') :: rest => if eqb k' k then rest else (k', v') :: dict_del k rest
  end.
End dict.

Abbreviation sget := (dict_get String.eqb).
Abbreviation sin := (dict_in String.eqb).
Abbreviation sset := (dict_set String.eqb).
Abbreviation supdate := (dict_update String.eqb).

(** ** Strings: [str()], [repr()], [split], [join], [endswith], [in] *)

Definition dot : ascii := "."%char.
Definition comma : ascii := ","%char.
Definition newline : ascii := ascii_of_nat 10.
Definition squote : ascii := ascii_of_nat 39.
Definition dquote : ascii := ascii_of_nat 34.
Definition backslash : ascii := ascii_of_nat 92.

(** [str(i)] for a non-negative index and [str(n)] for an integer. *)
Definition str_nat (i : nat) : string := NilZero.string_of_uint (Nat.to_uint i).
Definition str_Z (n : Z) : string := NilZero.string_of_int (Z.to_int n).

Fixpoint mem_char (c : ascii) (s : string) : bool :=
  match s with
  | EmptyString => false
  | String c' s' => Ascii.eqb c' c || mem_char c s'
  end.

Fixpoint is_prefix (p s : string) : bool :=
  match p, s with
  | EmptyString, _ => true
  | String a p', String b s' => Ascii.eqb a b && is_prefix p' s'
  | String _ _, EmptyString => false
  end.

(** [sub in s] on strings *)
Fixpoint is_substring (sub s : string) : bool :=
  is_prefix sub s ||
  match s with
  | EmptyString => false
  | String _ s' => is_substring sub s'
  end.

(** [s.endswith(suffix)] *)
Fixpoint ends_with (s suffix : string) : bool :=
  String.eqb s suffix ||
  match s with
  | EmptyString => false
  | String _ s' => ends_with s' suffix
  end.

(** [s.split(c)] for a one-character separator: never the empty list. *)
Fixpoint split_on (c : ascii) (s : string) : list string :=
  match s with
  | EmptyString => [EmptyString]
  | String a s' =>
      if Ascii.eqb a c then EmptyString :: split_on c s'
      else match split_on c s' with
           | [] => [String a EmptyString]
           | w :: ws => String a w :: ws
           end
  end.

(** [sep.join(l)] *)
Fixpoint join (sep : string) (l : list string) : string :=
  match l with
  | [] => EmptyString
  | [x] => x
  | x :: rest => x +:+ sep +:+ join sep rest
  end.

Definition hex_digit (n : nat) : ascii :=
  if (n <? 10)%nat then ascii_of_nat (48 + n) else ascii_of_nat (87 + n).

(** One character of [repr(str)] inside quotes [q] (Python 3).  A
    character is a code point below 256; those that are not printable are
    written [\xhh]: the control characters below 32, and 127 to 160 and 173
    (the C1 controls, the no-break space and the soft hyphen). *)
Definition repr_char (q c : ascii) : string :=
  let n := nat_of_ascii c in
  if Ascii.eqb c backslash then String backslash (String backslash EmptyString)
  else if Ascii.eqb c q then String backslash (String q EmptyString)
  else if (n =? 9)%nat then String backslash "t"
  else if (n =? 10)%nat then String backslash "n"
  else if (n =? 13)%nat then String backslash "r"
  else if ((n <? 32) || ((126 <? n) && (n <? 161)) || (n =? 173))%nat then
    String backslash (String "x" (String (hex_digit (n / 16)) (String (hex_digit (n mod 16)) EmptyString)))
  else String c EmptyString.

Fixpoint repr_chars (q : ascii) (s : string) : string :=
  match s with
  | EmptyString => EmptyString
  | String c s' => repr_char q c +:+ repr_chars q s'
  end.

Definition repr_str (s : string) : string :=
  let q := if mem_char squote s && negb (mem_char dquote s) then dquote else squote in
  String q (repr_chars q s +:+ String q EmptyString).

Fixpoint py_repr (v : pyval) : string :=
  match v with
  | PNone => "None"
  | PBool true => "True"
  | PBool false => "False"
  | PInt n => str_Z n
  | PStr s => repr_str s
  | PList l => "[" +:+ join ", " (map py_repr l) +:+ "]"
  | PDict f =>
      "{" +:+ join ", " (map (fun kv => repr_str (fst kv) +:+ ": " +:+ py_repr (snd kv)) f) +:+ "}"
  end.

(** [str(v)] *)
Definition py_str (v : pyval) : string :=
  match v with
  | PStr s => s
  | _ => py_repr v
  end.

(** ** Dynamic operations that may raise *)

(** [key in c] for a string [key] *)
Definition py_in (key : string) (c : pyval) : res bool :=
  match c with
  | PDict f => Ok (sin key f)
  | PList l =>
      Ok (existsb (fun e => match e with PStr s => String.eqb s key | _ => false end) l)
  | PStr s => Ok (is_substring key s)
  | _ => Raise TypeError
  end.

(** [c[key]] for a string [key] *)
Definition py_getitem (c : pyval) (key : string) : res pyval :=
  match c with
  | PDict f => match sget key f with Some v => Ok v | None => Raise KeyError end
  | _ => Raise TypeError
  end.

(** [c[key] = v] for a string [key] *)
Definition py_setitem (c : pyval) (key : string) (v : pyval) : res pyval :=
  match c with
  | PDict f => Ok (PDict (sset key v f))
  | _ => Raise TypeError
  end.

(** Values usable as dictionary keys, and equality of such keys
    ([True == 1] and [False == 0] in Python). *)
Definition hashable (v : pyval) : bool :=
  match v with
  | PList _ | PDict _ => false
  | _ => true
  end.

Definition key_eqb (a b : pyval) : bool :=
  match a, b with
  | PNone, PNone => true
  | PBool x, PBool y => Bool.eqb x y
  | PInt x, PInt y => (x =? y)%Z
  | PBool x, PInt y | PInt y, PBool x => (y =? (if x then 1 else 0))%Z
  | PStr x, PStr y => String.eqb x y
  | _, _ => false
  end.

(** ** The two regular-expression substitutions of [flatten] *)

Definition is_digit (c : ascii) : bool :=
  let n := nat_of_ascii c in ((48 <=? n) && (n <=? 57))%nat.

(** [re.sub('\.[0-9]+\.', '.[n].', s)]: leftmost, non-overlapping matches.
    [pending = Some ds] means that a dot followed by the digits [ds] has been
    read and not yet written. *)
Fixpoint sub_index (pending : option string) (s : string) : string :=
  match s with
  | EmptyString =>
      match pending with
      | None => EmptyString
      | Some ds => String dot ds
      end
  | String c rest =>
      match pending with
      | None =>
          if Ascii.eqb c dot then sub_index (Some EmptyString) rest
          else String c (sub_index None rest)
      | Some ds =>
          if is_digit c then sub_index (Some (ds +:+ String c EmptyString)) rest
          else if Ascii.eqb c dot then
            match ds with
            | EmptyString => String dot (sub_index (Some EmptyString) rest)
            | _ => ".[n]." +:+ sub_index None rest
            end
          else String dot (ds +:+ String c (sub_index None rest))
      end
  end.

Definition re_sub_index (s : string) : string := sub_index None s.

(** [re.sub('\.$', '', s)]: [$] matches at the end of the string and before
    a newline that ends it. *)
Fixpoint re_sub_enddot (s : string) : string :=
  match s with
  | EmptyString => EmptyString
  | String c rest =>
      if Ascii.eqb c dot &&
         (String.eqb rest EmptyString || String.eqb rest (String newline EmptyString))
      then rest
      else String c (re_sub_enddot rest)
  end.

(** ** Query/db functions: [flatten] *)

(** The flat map of a record, and its coverage guide: path -> device type ->
    canonical path. *)
Definition flat : Type := list (string * string).
Definition coverage : Type := list (pyval * string).
Definition guide_t : Type := list (string * coverage).

(** [if k not in g: g[k] = { }] followed by [g[k][devtype] = pk] *)
Definition guide_put (k : string) (devtype : pyval) (pk : string) (g : guide_t)
  : res guide_t :=
  if hashable devtype
  then Ok (sset k (dict_set key_eqb devtype pk (default [] (sget k g))) g)
  else Raise TypeError.

(** [deep_update(d, u)] on guides: every value of [u] is a mapping, whose
    own values are strings. *)
Definition deep_update (d u : guide_t) : guide_t :=
  fold_left
    (fun acc kv =>
       sset (fst kv) (dict_update key_eqb (default [] (sget (fst kv) acc)) (snd kv)) acc)
    u d.

(** [d['settings']['device']['type'] if 'settings' in d and 'device' in
    d['settings'] and 'type' in d['settings']['device'] else None] *)
Definition get_devtype (d : list (string * pyval)) : res pyval :=
  match sget "settings" d with
  | None => Ok PNone
  | Some settings =>
      let? has_device := py_in "device" settings in
      if has_device : bool then
        let? device := py_getitem settings "device" in
        let? has_type := py_in "type" device in
        if has_type : bool then py_getitem device "type" else Ok PNone
      else Ok PNone
  end.

(** The branch of [flatten] for a value that is not a dictionary. *)
Definition flatten_leaf (d : pyval) (prefix : string) (devtype : pyval)
  : res (flat * guide_t) :=
  let pk := re_sub_enddot (re_sub_index prefix) in
  let prefix := re_sub_enddot prefix in
  let? guide := guide_put prefix devtype pk [] in
  Ok ([(prefix, py_str d)], guide).

(** The [else] branch of the loop body: [d[k]] is neither a dictionary nor
    a list. *)
Definition flatten_scalar (k : string) (v : pyval) (prefix : string) (devtype : pyval)
  : res (flat * guide_t) :=
  let new_data := sset (prefix +:+ k) (py_str v) (sset k (py_str v) []) in
  let pk := re_sub_index (prefix +:+ k) in
  let? new_guide := guide_put k devtype pk [] in
  let? new_guide := guide_put (prefix +:+ k) devtype pk new_guide in
  Ok (new_data, new_guide).

Section flatten_loops.
(** The recursive call. *)
Variable self : pyval -> string -> pyval -> res (flat * guide_t).

(** [for i in range(len(d[k]))]: [pk] is [prefix + k + '.']. *)
Fixpoint flatten_items (pk : string) (devtype : pyval) (items : list pyval) (i : nat)
    (new_data : flat) (new_guide : guide_t) : res (flat * guide_t) :=
  match items with
  | [] => Ok (new_data, new_guide)
  | x :: rest =>
      let? tmp := self x (pk +:+ str_nat i +:+ ".") devtype in
      flatten_items pk devtype rest (S i)
        (supdate new_data (fst tmp)) (supdate new_guide (snd tmp))
  end.

(** What one key [k] of the dictionary contributes. *)
Definition flatten_field (prefix : string) (devtype : pyval) (k : string) (v : pyval)
  : res (flat * guide_t) :=
  match v with
  | PDict _ => self v (prefix +:+ k +:+ ".") devtype
  | PList items => flatten_items (prefix +:+ k +:+ ".") devtype items 0 [] []
  | _ => flatten_scalar k v prefix devtype
  end.

(** [for k in d] *)
Fixpoint flatten_fields (prefix : string) (devtype : pyval)
    (fields : list (string * pyval)) (result : flat) (guide : guide_t)
  : res (flat * guide_t) :=
  match fields with
  | [] => Ok (result, guide)
  | (k, v) :: rest =>
      let? new := flatten_field prefix devtype k v in
      flatten_fields prefix devtype rest
        (supdate (fst new) result)        (* first/original key has priority *)
        (deep_update (snd new) guide)
  end.
End flatten_loops.

Fixpoint flatten (d : pyval) (prefix : string) (devtype : pyval) {struct d}
  : res (flat * guide_t) :=
  match d with
  | PDict fields =>
      let? devtype := (if truthy devtype then Ok devtype else get_devtype fields) in
      flatten_fields flatten prefix devtype fields [] []
  | _ => flatten_leaf d prefix devtype
  end.

(** ** Query/db functions: [match_rec] *)

(** [for q in query_conditions: if q[0] not in rec or rec[q[0]] != q[1]:
    return False]; each condition is the list [x.split('=')]. *)
Fixpoint check_conditions (rec : flat) (query_conditions : list (list string)) : res bool :=
  match query_conditions with
  | [] => Ok true
  | q :: rest =>
      match q with
      | [] => Raise IndexError
      | name :: q_tail =>
          match sget name rec with
          | None => Ok false
          | Some v =>
              match q_tail with
              | [] => Raise IndexError
              | value :: _ =>
                  if String.eqb v value then check_conditions rec rest else Ok false
              end
          end
      end
  end.

Definition in_list (x : string) (l : list string) : bool :=
  existsb (String.eqb x) l.

Definition match_rec (rec : flat) (query_conditions : list (list string))
    (match_tag group restore_device : option string) (access : string) : res bool :=
  let? conds := check_conditions rec query_conditions in
  if negb conds then Ok false
  else if given match_tag &&
          match sget "Tags" rec with
          | None => true
          | Some tags => negb (in_list (default EmptyString match_tag) (split_on comma tags))
          end
  then Ok false
  else if given group &&
          match sget "Group" rec with
          | None => true
          | Some g => negb (String.eqb g (default EmptyString group))
          end
  then Ok false
  else
    let? wrong_device :=
      (if given restore_device &&
          negb (String.eqb (default EmptyString restore_device) "ALL")
       then match sget "ID" rec with
            | None => Raise KeyError
            | Some id => Ok (negb (String.eqb (default EmptyString restore_device) id))
            end
       else Ok false) in
    if wrong_device : bool then Ok false
    else if negb (String.eqb access "ALL") then
      let presumed := match sget "Access" rec with None => "Continuous" | Some a => a end in
      if negb (String.eqb presumed access) then Ok false else Ok true
    else Ok true.

(** ** Operations: [query] *)

(** The loop of [query] over [device_db] that builds [guide] and [tmp]. *)
Fixpoint query_flatten_db (device_db : list (string * pyval)) (guide : guide_t)
    (tmp : list flat) : res (guide_t * list flat) :=
  match device_db with
  | [] => Ok (guide, tmp)
  | (d, rec) :: rest =>
      if String.eqb d "Format" then query_flatten_db rest guide tmp
      else
        let? new := flatten rec EmptyString PNone in
        query_flatten_db rest (supdate guide (snd new)) (tmp ++ [fst new])
  end.

(** [for g in guide: if g.endswith( "." + q ): column_map[ q ] = g] *)
Definition map_column (guide : guide_t) (q : string) (column_map : list (string * string))
  : list (string * string) :=
  fold_left
    (fun cm g => if ends_with (fst g) ("." +:+ q) then sset q (fst g) cm else cm)
    guide column_map.

Definition build_column_map (guide : guide_t) (query_columns : list string)
  : list (string * string) :=
  fold_left
    (fun cm q => if negb (sin q guide) then map_column guide q cm else cm)
    query_columns [].

(** [[ column_map[ q ] if q in column_map else q for q in query_columns ]] *)
Definition resolve_columns (guide : guide_t) (query_columns : list string) : list string :=
  let column_map := build_column_map guide query_columns in
  map (fun q => match sget q column_map with Some g => g | None => q end) query_columns.

(** The tag edit applied to a matched record.  [set_iter] is the order in
    which Python iterates over a [set] of strings, which the language leaves
    unspecified. *)
Definition old_tags_of (data : flat) : list string :=
  match sget "Tags" data with
  | Some tags => if String.eqb tags EmptyString then [] else split_on comma tags
  | None => []
  end.

Definition edit_tags (set_iter : gset string -> list string)
    (set_tag delete_tag : option string) (data : flat) : flat :=
  let old_tags := old_tags_of data in
  let data :=
    match set_tag with
    | Some t =>
        if given set_tag
        then sset "Tags" (join "," (set_iter (list_to_set old_tags ∪ {[ t ]}))) data
        else data
    | None => data
    end in
  match delete_tag with
  | Some t =>
      if given delete_tag
      then sset "Tags" (join "," (set_iter (list_to_set old_tags ∖ {[ t ]}))) data
      else data
  | None => data
  end.

(** [if args.set_tag or args.delete_tag: ... device_db[ data[ 'ID' ] ][ 'Tags' ] =
    data[ 'Tags' ]] for a record that [match_rec] selected. *)
Definition query_retag (set_iter : gset string -> list string)
    (set_tag delete_tag : option string) (data : flat) (device_db : list (string * pyval))
  : res (flat * list (string * pyval)) :=
  if given set_tag || given delete_tag then
    let data := edit_tags set_iter set_tag delete_tag data in
    match sget "ID" data with
    | None => Raise KeyError
    | Some id =>
        match sget id device_db, sget "Tags" data with
        | Some rec, Some tags =>
            let? rec := py_setitem rec "Tags" (PStr tags) in
            Ok (data, sset id rec device_db)
        | _, _ => Raise KeyError
        end
    end
  else Ok (data, device_db).

(** ** The device queue: [read_device_queue] *)

(** ['ConfigStatus' in rec and 'CompletedTime' in rec['ConfigStatus']] *)
Definition is_completed (rec : pyval) : res bool :=
  let? has_status := py_in "ConfigStatus" rec in
  if has_status : bool then
    let? status := py_getitem rec "ConfigStatus" in
    py_in "CompletedTime" status
  else Ok false.

Definition py_eq_str (v : pyval) (s : string) : bool :=
  match v with
  | PStr s' => String.eqb s' s
  | _ => false
  end.

(** The two [continue] tests of the provision-list branch: [Ok true] when
    the entry is skipped. *)
Definition queue_skips (group ssid : option string) (rec : pyval) : res bool :=
  let? has_input := py_in "ConfigInput" rec in
  if negb has_input then Ok true
  else
    let? cfg := py_getitem rec "ConfigInput" in
    let? completed := is_completed rec in
    if completed : bool then Ok true
    else
      let? other_group :=
        (if given group then
           let? has_group := py_in "Group" cfg in
           if negb has_group then Ok true
           else let? g := py_getitem cfg "Group" in
                Ok (negb (py_eq_str g (default EmptyString group)))
         else Ok false) in
      if other_group : bool then Ok true
      else if given ssid then
        let? s := py_getitem cfg "SSID" in
        Ok (negb (py_eq_str s (default EmptyString ssid)))
      else Ok false.

(** [if 'ConfigStatus' not in rec: rec[ 'ConfigStatus' ] = { }] and
    [rec[ 'ConfigStatus' ][ 'InProgressTime' ] = time.time()] *)
Definition mark_in_progress (now : Z) (rec : pyval) : res pyval :=
  let? has_status := py_in "ConfigStatus" rec in
  let? rec := (if has_status : bool then Ok rec else py_setitem rec "ConfigStatus" (PDict [])) in
  let? status := py_getitem rec "ConfigStatus" in
  let? status := py_setitem status "InProgressTime" (PInt now) in
  py_setitem rec "ConfigStatus" status.

(** What the caller's loop body does with the record it was handed: the
    record after the body (the body mutates the very object that sits in the
    queue), and whether the [for] loop goes on. *)
Inductive control : Type :=
| NextEntry                  (* the body ran to its end *)
| LeaveLoop.                 (* break, return, sys.exit, exception or interrupt *)

Definition consumer : Type := nat -> pyval -> pyval * control.

Inductive pass_end : Type :=
| Exhausted                  (* the generator ran off the end of the queue *)
| Left                       (* the caller left the loop *)
| Raised (e : exn).          (* the generator raised *)

Record pass_state : Type := {
  queue_after : list pyval;
  yielded : list (nat * pyval);     (* position and record of every [yield] *)
  ended : pass_end
}.

(** [for rec in read_device_queue( device_queue, args, ssid ): body] for
    [args.operation == 'provision-list'], from position [i] on; [todo]
    bounds the entries left. *)
Fixpoint provision_list_from (clock : nat -> Z) (body : consumer)
    (group ssid : option string) (todo i : nat) (queue : list pyval)
    (log : list (nat * pyval)) : pass_state :=
  match todo with
  | O => {| queue_after := queue; yielded := log; ended := Exhausted |}
  | S todo' =>
      match queue !! i with
      | None => {| queue_after := queue; yielded := log; ended := Exhausted |}
      | Some rec =>
          match queue_skips group ssid rec with
          | Raise e => {| queue_after := queue; yielded := log; ended := Raised e |}
          | Ok true => provision_list_from clock body group ssid todo' (S i) queue log
          | Ok false =>
              match mark_in_progress (clock (length log)) rec with
              | Raise e => {| queue_after := queue; yielded := log; ended := Raised e |}
              | Ok rec =>
                  let log := log ++ [(i, rec)] in
                  let (rec', ctl) := body i rec in
                  let queue := <[ i := rec' ]> queue in
                  match ctl with
                  | NextEntry =>
                      provision_list_from clock body group ssid todo' (S i) queue log
                  | LeaveLoop =>
                      {| queue_after := queue; yielded := log; ended := Left |}
                  end
              end
          end
      end
  end.

Definition read_device_queue (clock : nat -> Z) (body : consumer)
    (group ssid : option string) (device_queue : list pyval) : pass_state :=
  provision_list_from clock body group ssid (length device_queue) 0 device_queue [].

(** One run of the tool after another over the same queue: each run has its
    own clock, caller and filters. *)
Record run : Type := {
  run_clock : nat -> Z;
  run_body : consumer;
  run_group : option string;
  run_ssid : option string
}.

Fixpoint restart_runs (runs : list run) (device_queue : list pyval)
  : list pyval * list (list (nat * pyval)) :=
  match runs with
  | [] => (device_queue, [])
  | r :: rest =>
      let st := read_device_queue (run_clock r) (run_body r) (run_group r) (run_ssid r)
                  device_queue in
      let (q, logs) := restart_runs rest (queue_after st) in
      (q, yielded st :: logs)
  end.

(** ** Operations: [flash_device] *)

(** What the device answers on its [/ota] endpoint. *)
Record ota_info : Type := {
  ota_status : string;
  ota_old_version : string
}.

(** Resolution of the symbolic version [LATEST]. *)
Inductive latest_lookup : Type :=
| LatestNoSettings                (* the settings could not be read *)
| LatestRaises (e : exn)          (* a lookup in the settings or the manifest raised *)
| LatestIs (version : string).

(** The collaborators of one call of [flash_device]. *)
Record ota_env : Type := {
  first_info : option ota_info;       (* [get_url] of [/ota] before flashing *)
  latest : latest_lookup;
  flash_sent : bool;                  (* [get_url] of the ota url returned contents *)
  ota_clock : nat -> Z;               (* the k-th call of [time.time()] *)
  ota_poll : nat -> option ota_info   (* [get_url] of [/ota] on pass k *)
}.

(** Every way [flash_device] ends, by the message it prints. *)
Inductive ota_outcome : Type :=
| NoCurrentVersion                    (* Could not get current firmware version *)
| NoSettings                          (* Could not get settings for device *)
| AlreadyUpToDate                     (* Device is already up-to-date *)
| AlreadyUpdating                     (* Error: Device already shows updating *)
| NotFlashed                          (* Could not flash firmware (or dry run) *)
| NotVerified                         (* ota_timeout == 0 *)
| PollUnanswered                      (* [get_url] failed during the wait *)
| Updated (from to : string)          (* Success. Device updated from .. to .. *)
| UnexpectedBuild (version : string)  (* still has unexpected build, not matching manifest *)
| NeverUpdating                       (* has never shown status updating *)
| StillHas (version : string).        (* possible OTA failure: still has .. *)

(** The value [flash_device] returns. *)
Definition ota_success (o : ota_outcome) : bool :=
  match o with
  | AlreadyUpToDate | NotVerified | Updated _ _ => true
  | _ => false
  end.

Definition version_is (new_version : option string) (v : string) : bool :=
  match new_version with
  | Some n => String.eqb v n
  | None => false
  end.

(** The statement after the [while] loop; [new_result] is unbound when the
    loop body never ran. *)
Definition ota_after_loop (new_result : option ota_info) : res ota_outcome :=
  match new_result with
  | Some r => Ok (StillHas (ota_old_version r))
  | None => Raise NameError
  end.

(** [while time.time( ) < start_time + ota_timeout]; [None] when [fuel]
    iterations did not end the loop. *)
Fixpoint ota_wait (fuel : nat) (env : ota_env) (deadline : Z) (new_version : option string)
    (result : ota_info) (passes : nat) (seen_updating : bool)
    (new_result : option ota_info) : option (res ota_outcome) :=
  match fuel with
  | O => None
  | S fuel' =>
      if (ota_clock env (S passes) <? deadline)%Z then
        let passes := S passes in
        match ota_poll env passes with
        | None => Some (Ok PollUnanswered)
        | Some nr =>
            if String.eqb (ota_status nr) "updating" then
              ota_wait fuel' env deadline new_version result passes true (Some nr)
            else if seen_updating then
              if negb (given new_version)
                 || negb (String.eqb (ota_old_version result) (ota_old_version nr))
              then
                if negb (given new_version) || version_is new_version (ota_old_version nr)
                then Some (Ok (Updated (ota_old_version result) (ota_old_version nr)))
                else Some (Ok (UnexpectedBuild (ota_old_version nr)))
              else Some (ota_after_loop (Some nr))
            else if (10 <? passes)%nat then Some (Ok NeverUpdating)
            else ota_wait fuel' env deadline new_version result passes false (Some nr)
        end
      else Some (ota_after_loop new_result)
  end.

(** [new_version] after the resolution of [LATEST]: [Ok None] when the
    settings could not be read. *)
Definition target_version (env : ota_env) (ota : string) (new_version : option string)
  : res (option (option string)) :=
  if negb (given new_version) && String.eqb ota "LATEST" then
    match latest env with
    | LatestNoSettings => Ok None
    | LatestRaises e => Raise e
    | LatestIs v => Ok (Some (Some v))
    end
  else Ok (Some new_version).

Definition flash_device (fuel : nat) (env : ota_env) (ota : string) (ota_timeout : Z)
    (new_version : option string) (dry_run : bool) : option (res ota_outcome) :=
  match first_info env with
  | None => Some (Ok NoCurrentVersion)
  | Some result =>
      match target_version env ota new_version with
      | Raise e => Some (Raise e)
      | Ok None => Some (Ok NoSettings)
      | Ok (Some new_version) =>
          if version_is new_version (ota_old_version result) then Some (Ok AlreadyUpToDate)
          else if String.eqb (ota_status result) "updating" then Some (Ok AlreadyUpdating)
          else if negb dry_run && flash_sent env then
            match new_version with
            | None => Some (Raise TypeError)   (* ["New version: " + new_version] *)
            | Some _ =>
                if (ota_timeout =? 0)%Z then Some (Ok NotVerified)
                else
                  ota_wait fuel env (ota_clock env 0 + ota_timeout)%Z new_version result
                    0 false None
            end
          else Some (Ok NotFlashed)
      end
  end.

(** ** JSON utilities: [read_json_file] *)

Inductive file_content : Type :=
| Unreadable                 (* [open] raises IOError *)
| NotJson                    (* [json.load] raises *)
| Json (v : pyval).

(** The argument [empty]: [{ }], [[ ]] or ['fail']. *)
Inductive empty_arg : Type :=
| EmptyDict
| EmptyList
| EmptyFail.

Definition empty_value (e : empty_arg) : pyval :=
  match e with
  | EmptyDict => PDict []
  | EmptyList => PList []
  | EmptyFail => PStr "fail"
  end.

(** The argument [validate]: [False], [True] or a list of keys. *)
Inductive validate_arg : Type :=
| ValidateFalse
| ValidateTrue
| ValidateKeys (keys : list string).

Definition validate_truthy (v : validate_arg) : bool :=
  match v with
  | ValidateFalse => false
  | ValidateTrue => true
  | ValidateKeys keys => match keys with [] => false | _ => true end
  end.

(** [type( a ) == type( b )] *)
Definition same_type (a b : pyval) : bool :=
  match a, b with
  | PNone, PNone | PBool _, PBool _ | PInt _, PInt _ | PStr _, PStr _
  | PList _, PList _ | PDict _, PDict _ => true
  | _, _ => false
  end.

Inductive read_outcome : Type :=
| Returned (v : pyval)       (* [return result] or [return empty] *)
| ExitCorrupt                (* was not written by this program, or is corrupt; sys.exit() *)
| ExitUnreadable             (* [empty == 'fail']: the IOError is printed; sys.exit() *)
| Uncaught (e : exn).

(** [for v in validate: if v in result[0]['ConfigInput']: valid = True] *)
Fixpoint any_key_in (keys : list string) (first : pyval) (valid : bool) : res bool :=
  match keys with
  | [] => Ok valid
  | v :: rest =>
      let? cfg := py_getitem first "ConfigInput" in
      let? found := py_in v cfg in
      any_key_in rest first (if found : bool then true else valid)
  end.

(** The validation of a loaded value: [Ok valid]. *)
Definition validate_result (empty : empty_arg) (validate : validate_arg) (result : pyval)
  : res bool :=
  if negb (same_type (empty_value empty) result) then Ok false
  else
    match result with
    | PDict fields =>
        match sget "Format" fields with
        | Some (PStr "automagic") => Ok true
        | _ => Ok false
        end
    | PList (first :: _) =>
        let? has_input := py_in "ConfigInput" first in
        if has_input : bool then
          match validate with
          | ValidateKeys keys => any_key_in keys first false
          | _ => Raise TypeError          (* [for v in True] *)
          end
        else Ok false
    | _ => Ok true
    end.

Definition read_json_file (f : file_content) (empty : empty_arg) (validate : validate_arg)
  : read_outcome :=
  match f with
  | Unreadable =>
      match empty with
      | EmptyFail => ExitUnreadable
      | _ => Returned (empty_value empty)
      end
  | NotJson => Uncaught JSONDecodeError
  | Json result =>
      if validate_truthy validate then
        match validate_result empty validate result with
        | Raise e => Uncaught e
        | Ok true => Returned result
        | Ok false => ExitCorrupt
        end
      else Returned result
  end.

(** What becomes of the program: it goes on with a value only after
    [Returned]. *)
Definition proceeds_with (o : read_outcome) : option pyval :=
  match o with
  | Returned v => Some v
  | _ => None
  end.

(** ** Provisioning: [provision_device] and its two callers *)

(** One load of the settings URL inside the [try]: [reply] is the decoded
    answer, [None] when reading or decoding raised.  The generation-1 branch
    never binds [data], so printing [repr( [req, data] )] raises there; the
    bare [except] swallows every exception.  [true] when [got_one] is set. *)
Definition push_acknowledged (dev_gen : nat) (verbose : nat) (reply : option pyval) : bool :=
  match reply with
  | None => false
  | Some content =>
      match py_in "error" content with
      | Raise _ => false
      | Ok has_error =>
          if (has_error || (2 <? verbose)%nat) && negb (dev_gen =? 2)%nat then false
          else negb has_error
      end
  end.

(** [for j in range(tries)] of pass [i]: every try is made, even after a
    success. *)
Fixpoint push_tries (dev_gen verbose : nat) (replies : nat -> nat -> option pyval)
    (i : nat) (js : list nat) (got_one : bool) : bool :=
  match js with
  | [] => got_one
  | j :: rest =>
      push_tries dev_gen verbose replies i rest
        (if push_acknowledged dev_gen verbose (replies i j) then true else got_one)
  end.

(** [for i in range(5)] *)
Fixpoint push_passes (dev_gen verbose : nat) (replies : nat -> nat -> option pyval)
    (tries : nat) (passes : list nat) : bool :=
  match passes with
  | [] => false
  | i :: rest =>
      if push_tries dev_gen verbose replies i (seq 0 tries) false then true
      else push_passes dev_gen verbose replies tries rest
  end.

Definition provision_device (dev_gen verbose : nat) (replies : nat -> nat -> option pyval)
    (tries : nat) : bool :=
  push_passes dev_gen verbose replies tries (seq 0 5).

(** [cfg[ k ] if 'StaticIP' in cfg and args.operation == 'provision-list'
    else None] *)
Definition static_field (cfg : pyval) (provision_list : bool) (k : string)
  : res (option pyval) :=
  let? has_static := py_in "StaticIP" cfg in
  if has_static && provision_list then
    let? v := py_getitem cfg k in Ok (Some v)
  else Ok None.

(** The whole call: the three lookups in [cfg] ([static_ip], [netmask],
    [gateway]) and then the loop of pushes, [provision_device] above. *)
Definition provision_device_call (cfg : pyval) (provision_list : bool)
    (dev_gen verbose : nat) (replies : nat -> nat -> option pyval) (tries : nat)
  : res bool :=
  let? static_ip := static_field cfg provision_list "StaticIP" in
  let? netmask := static_field cfg provision_list "NetMask" in
  let? gateway := static_field cfg provision_list "Gateway" in
  Ok (provision_device dev_gen verbose replies tries).

(** How the body of the provisioning loop ends for one queue entry. *)
Inductive entry_end : Type :=
| GoesOn                     (* the [for] loop takes the next queue entry *)
| Breaks                     (* [break]: the loop, and with it the run, is over *)
| Returns                    (* [return] from the provisioning function *)
| Exits                      (* [sys.exit] *)
| Fails (e : exn).           (* an exception leaves the function *)

Definition run_goes_on (e : entry_end) : bool :=
  match e with
  | GoesOn => true
  | _ => false
  end.

(** [dev_gen = 2 if "Plus" in found else 1] *)
Definition dev_gen_of (found : string) : nat :=
  if is_substring "Plus" found then 2 else 1.

(** The collaborators of one turn of the loop of [provision_native]. *)
Record native_env : Type := {
  nat_cfg : pyval;                          (* [rec[ 'ConfigInput' ]] *)
  nat_provision_list : bool;                (* [args.operation == 'provision-list'] *)
  nat_found : option string;                (* [wifi_connect]: the factory SSID joined *)
  nat_status_ok : bool;                     (* the device answers on its own AP *)
  nat_replies : nat -> nat -> option pyval; (* answers to the credential pushes *)
  nat_reconnect_ok : bool;                  (* [wifi_reconnect] *)
  nat_verified : entry_end                  (* from [check_status] to the end of the body *)
}.

Definition provision_native_entry (env : native_env) (verbose : nat) (wait_time : Z)
  : entry_end :=
  match nat_found env with
  | Some found =>
      if negb (nat_status_ok env) then Breaks
      else
        match provision_device_call (nat_cfg env) (nat_provision_list env)
                (dev_gen_of found) verbose (nat_replies env) 3 with
        | Raise e => Fails e
        | Ok stat =>
            if negb (nat_reconnect_ok env) then Breaks
            else if negb stat then Exits
            else nat_verified env
        end
  | None => if (wait_time =? 0)%Z then Breaks else GoesOn
  end.





(** ** DD-WRT interactions: [ddwrt_program_mode] *)

Inductive event : Type :=
| Cmd (command : string)                      (* [ddwrt_get_single_line_result] *)
| HttpApply (address user password : string)  (* [ddwrt_apply]: POST to apply.cgi *)
| Sleep (seconds : nat)
| Sync.                                       (* [ddwrt_sync_connection] *)

(** Whether the next action succeeds, given all that happened before. *)
Definition telnet : Type := list event -> event -> bool.

(** The connection [cn]: the router's entry of the router db and the mode
    the node was last seen in. *)
Record conn : Type := {
  router : pyval;
  current_mode : string
}.

Record session : Type := {
  cn : conn;
  trace : list event
}.

(** A computation over the session that may raise: the session reached is
    kept in both cases. *)
Definition step : Type := session -> res unit * session.

Definition seq_step (a b : step) : step :=
  fun s => match a s with
           | (Ok _, s') => b s'
           | (Raise e, s') => (Raise e, s')
           end.

Definition do_event (env : telnet) (e : event) : step :=
  fun s => if env (trace s) e
           then (Ok tt, {| cn := cn s; trace := trace s ++ [e] |})
           else (Raise CommandError, {| cn := cn s; trace := trace s ++ [e] |}).

Definition raise_step (e : exn) : step := fun s => (Raise e, s).
Definition skip_step : step := fun s => (Ok tt, s).

Fixpoint for_each {A : Type} (l : list A) (body : A -> step) : step :=
  match l with
  | [] => skip_step
  | x :: rest => seq_step (body x) (for_each rest body)
  end.

Definition quoted (s : string) : string :=
  String dquote (s +:+ String dquote EmptyString).

Definition restart_services : string :=
  "stopservice nas;stopservice wlconf 2>/dev/null;startservice wlconf 2>/dev/null;startservice nas".

(** [cn[ 'router' ][ mode ][ k ]], which must be a string to be appended. *)
Definition snapshot_field (router : pyval) (mode k : string) : res string :=
  let? snapshot := py_getitem router mode in
  let? v := py_getitem snapshot k in
  match v with
  | PStr s => Ok s
  | _ => Raise TypeError
  end.

Definition router_string (router : pyval) (k : string) : res string :=
  let? v := py_getitem router k in
  match v with
  | PStr s => Ok s
  | _ => Raise TypeError
  end.

(** The slow path: record the new mode, apply over HTTP, wait, resynchronise
    and cycle the radio. *)
Definition full_apply (env : telnet) (mode : string) : step :=
  fun s =>
    let s := {| cn := {| router := router (cn s); current_mode := mode |};
                trace := trace s |} in
    match router_string (router (cn s)) "address", router_string (router (cn s)) "password" with
    | Ok address, Ok password =>
        seq_step (do_event env (HttpApply address "admin" password))
          (seq_step (do_event env (Sleep 5))
             (seq_step (do_event env Sync)
                (do_event env (Cmd "wl radio off; wl radio on")))) s
    | Raise e, _ => (Raise e, s)
    | _, Raise e => (Raise e, s)
    end.

Definition ddwrt_program_mode (env : telnet) (pgm : list (string * string))
    (from_db : list string) (deletes : option (list string)) : step :=
  seq_step
    (for_each pgm (fun kv =>
       do_event env (Cmd ("nvram set " +:+ fst kv +:+ "=" +:+ quoted (snd kv)))))
    (match sget "wl_mode" pgm with
     | None => raise_step KeyError
     | Some mode =>
         seq_step
           (for_each from_db (fun k s =>
              match snapshot_field (router (cn s)) mode k with
              | Ok v => do_event env (Cmd ("nvram set " +:+ k +:+ "=" +:+ v)) s
              | Raise e => (Raise e, s)
              end))
           (seq_step
              (for_each (default [] deletes) (fun k =>
                 do_event env (Cmd ("nvram unset " +:+ k))))
              (seq_step
                 (do_event env (Cmd "nvram commit 2>/dev/null"))
                 (fun s =>
                    if String.eqb (current_mode (cn s)) mode
                    then do_event env (Cmd restart_services) s
                    else full_apply env mode s)))
     end).

(** ** Vocabulary of the properties *)

(** The actions that only the slow path of a role switch performs. *)
Definition slow_path_event (e : event) : bool :=
  match e with
  | HttpApply _ _ _ | Sleep _ | Sync => true
  | Cmd c => String.eqb c "wl radio off; wl radio on"
  end.

(** The commands that write or delete a persistent parameter. *)
Definition param_command (e : event) : bool :=
  match e with
  | Cmd c => is_prefix "nvram set " c || is_prefix "nvram unset " c
  | _ => false
  end.

(** The node answers every command and request. *)
Definition responsive (env : telnet) : Prop := forall h e, env h e = true.

(** The router db holds, for the role [mode], the parameters that are
    copied from it, with the values [values]. *)
Definition learned_values (router : pyval) (mode : string) (from_db values : list string)
  : Prop :=
  Forall2 (fun k v => snapshot_field router mode k = Ok v) from_db values.

(** The parameter commands of a call: the parameters set, the parameters
    copied from the router db, and the parameters deleted. *)
Definition param_events (pgm : list (string * string)) (from_db values : list string)
    (deletes : option (list string)) : list event :=
  map (fun kv => Cmd ("nvram set " +:+ fst kv +:+ "=" +:+ quoted (snd kv))) pgm
  ++ map (fun kv => Cmd ("nvram set " +:+ fst kv +:+ "=" +:+ snd kv)) (zip from_db values)
  ++ map (fun k => Cmd ("nvram unset " +:+ k)) (default [] deletes).

(** The actions a step adds to the session's trace. *)
Definition new_events (before after : session) : list event :=
  drop (length (trace before)) (trace after).

(** No credential push is ever acknowledged. *)
Definition never_acknowledged (dev_gen verbose : nat) (replies : nat -> nat -> option pyval)
  : Prop :=
  forall i j, push_acknowledged dev_gen verbose (replies i j) = false.

(** A step that leaves the connection alone and only issues parameter
    commands. *)
Definition param_step (st : step) : Prop :=
  forall s, exists params,
    Forall (fun e => param_command e = true) params /\
    cn (st s).2 = cn s /\ trace (st s).2 = trace s ++ params.

(** What the selection predicate is meant to check on a flat record. *)
Definition conditions_hold (rec : flat) (query_conditions : list (list string)) : Prop :=
  Forall (fun q => exists name value rest,
                     q = name :: value :: rest /\ sget name rec = Some value)
         query_conditions.

Definition tag_matches (rec : flat) (match_tag : option string) : Prop :=
  given match_tag = true ->
  exists t tags,
    match_tag = Some t /\ sget "Tags" rec = Some tags /\ t ∈ split_on comma tags.

Definition group_matches (rec : flat) (group : option string) : Prop :=
  given group = true -> exists g, group = Some g /\ sget "Group" rec = Some g.

Definition restore_matches (rec : flat) (restore_device : option string) : Prop :=
  given restore_device = true -> restore_device <> Some "ALL" ->
  sget "ID" rec = restore_device.

Definition access_matches (rec : flat) (access : string) : Prop :=
  access = "ALL" \/ default "Continuous" (sget "Access" rec) = access.

(** The records of a list that [match_rec] selects. *)
Definition selected (query_conditions : list (list string))
    (match_tag group restore_device : option string) (access : string) (rec : flat) : bool :=
  match match_rec rec query_conditions match_tag group restore_device access with
  | Ok b => b
  | Raise _ => false
  end.

(** The keys of the guide that end in [.q], in the guide's order. *)
Definition candidates (guide : guide_t) (q : string) : list string :=
  List.filter (fun g => ends_with g ("." +:+ q)) (map fst guide).

(** The tags a flat record carries: the non-empty items of its [Tags]. *)
Definition tag_set (data : flat) : gset string :=
  list_to_set (filter (fun t => t <> EmptyString) (old_tags_of data)).

(** An iteration order of sets: some enumeration of the elements. *)
Definition set_order (set_iter : gset string -> list string) : Prop :=
  forall s, set_iter s ≡ₚ elements s.

(** ** The two components of [flatten]'s result, as total functions

    [flatten] raises only while choosing the device type or using it as a
    key; when it returns, it returns [flatten_data] and [flatten_guide]
    (lemma [flatten_returns]). *)

Section data_loops.
Variable self : pyval -> string -> flat.

Fixpoint data_items (pk : string) (items : list pyval) (i : nat) (new_data : flat)
  : flat :=
  match items with
  | [] => new_data
  | x :: rest =>
      data_items pk rest (S i) (supdate new_data (self x (pk +:+ str_nat i +:+ ".")))
  end.

Definition data_field (prefix k : string) (v : pyval) : flat :=
  match v with
  | PDict _ => self v (prefix +:+ k +:+ ".")
  | PList items => data_items (prefix +:+ k +:+ ".") items 0 []
  | _ => sset (prefix +:+ k) (py_str v) (sset k (py_str v) [])
  end.

Fixpoint data_fields (prefix : string) (fields : list (string * pyval)) (result : flat)
  : flat :=
  match fields with
  | [] => result
  | (k, v) :: rest => data_fields prefix rest (supdate (data_field prefix k v) result)
  end.
End data_loops.

Fixpoint flatten_data (d : pyval) (prefix : string) {struct d} : flat :=
  match d with
  | PDict fields => data_fields flatten_data prefix fields []
  | _ => [(re_sub_enddot prefix, py_str d)]
  end.

(** [guide_put] without the test of the key. *)
Definition put (k : string) (devtype : pyval) (pk : string) (g : guide_t) : guide_t :=
  sset k (dict_set key_eqb devtype pk (default [] (sget k g))) g.

(** The device type in force inside a dictionary. *)
Definition devtype_of (devtype : pyval) (fields : list (string * pyval)) : pyval :=
  if truthy devtype then devtype
  else match get_devtype fields with
       | Ok v => v
       | Raise _ => PNone
       end.

Section guide_loops.
Variable self : pyval -> string -> pyval -> guide_t.

Fixpoint guide_items (pk : string) (devtype : pyval) (items : list pyval) (i : nat)
    (new_guide : guide_t) : guide_t :=
  match items with
  | [] => new_guide
  | x :: rest =>
      guide_items pk devtype rest (S i)
        (supdate new_guide (self x (pk +:+ str_nat i +:+ ".") devtype))
  end.

Definition guide_field (prefix : string) (devtype : pyval) (k : string) (v : pyval)
  : guide_t :=
  match v with
  | PDict _ => self v (prefix +:+ k +:+ ".") devtype
  | PList items => guide_items (prefix +:+ k +:+ ".") devtype items 0 []
  | _ =>
      let pk := re_sub_index (prefix +:+ k) in
      put (prefix +:+ k) devtype pk (put k devtype pk [])
  end.

Fixpoint guide_fields (prefix : string) (devtype : pyval)
    (fields : list (string * pyval)) (guide : guide_t) : guide_t :=
  match fields with
  | [] => guide
  | (k, v) :: rest =>
      guide_fields prefix devtype rest
        (deep_update (guide_field prefix devtype k v) guide)
  end.
End guide_loops.

Fixpoint flatten_guide (d : pyval) (prefix : string) (devtype : pyval) {struct d}
  : guide_t :=
  match d with
  | PDict fields => guide_fields flatten_guide prefix (devtype_of devtype fields) fields []
  | _ => put (re_sub_enddot prefix) devtype (re_sub_enddot (re_sub_index prefix)) []
  end.

(** ** Paths and leaves *)

Inductive seg : Type :=
| Key (k : string)
| Idx (i : nat).

Definition seg_string (s : seg) : string :=
  match s with
  | Key k => k
  | Idx i => str_nat i
  end.

(** The fully-qualified dotted path. *)
Definition path_string (path : list seg) : string :=
  join "." (map seg_string path).

(** The same path with every array index replaced by the wildcard. *)
Definition wildcard (path : list seg) : string :=
  join "." (map (fun s => match s with Key k => k | Idx _ => "[n]" end) path).

Definition is_dict (v : pyval) : bool :=
  match v with PDict _ => true | _ => false end.

Definition is_container (v : pyval) : bool :=
  match v with PDict _ | PList _ => true | _ => false end.

(** The values that [flatten] turns into strings, and where they sit: a
    field of an object that is neither an object nor an array, and an element
    of an array that is not an object. *)
Inductive leaf_at : pyval -> list seg -> pyval -> Prop :=
| leaf_field fields k v :
    sget k fields = Some v -> is_container v = false ->
    leaf_at (PDict fields) [Key k] v
| leaf_below fields k child path x :
    sget k fields = Some (PDict child) -> leaf_at (PDict child) path x ->
    leaf_at (PDict fields) (Key k :: path) x
| leaf_item fields k items i x :
    sget k fields = Some (PList items) -> items !! i = Some x -> is_dict x = false ->
    leaf_at (PDict fields) [Key k; Idx i] x
| leaf_below_item fields k items i child path x :
    sget k fields = Some (PList items) -> items !! i = Some (PDict child) ->
    leaf_at (PDict child) path x ->
    leaf_at (PDict fields) (Key k :: Idx i :: path) x.

Fixpoint all_digits (s : string) : bool :=
  match s with
  | EmptyString => true
  | String c s' => is_digit c && all_digits s'
  end.

(** A key with no dot in it that is not a numeral. *)
Definition plain_key (k : string) : bool :=
  negb (mem_char dot k) &&
  (match k with EmptyString => true | _ => negb (all_digits k) end).

Fixpoint distinct (l : list string) : bool :=
  match l with
  | [] => true
  | x :: l' => negb (in_list x l') && distinct l'
  end.

(** The objects of the value have distinct keys, as Python dictionaries do,
    and every key is plain. *)
Fixpoint plain_keys (v : pyval) : bool :=
  match v with
  | PDict fields =>
      distinct (map fst fields) &&
      forallb (fun kv => plain_key (fst kv) && plain_keys (snd kv)) fields
  | PList items => forallb plain_keys items
  | _ => true
  end.

(** A numeral: one digit or more. *)
Definition numeral (k : string) : bool :=
  match k with
  | EmptyString => false
  | _ => all_digits k
  end.

(** The objects of the value have distinct keys, as Python dictionaries do,
    and no key has a dot in it. *)
Fixpoint dot_free_keys (v : pyval) : bool :=
  match v with
  | PDict fields =>
      distinct (map fst fields) &&
      forallb (fun kv => negb (mem_char dot (fst kv)) && dot_free_keys (snd kv)) fields
  | PList items => forallb dot_free_keys items
  | _ => true
  end.

(** No key of the path is a numeral between two dots that the substitution
    of indices can take for an index: a numeral key is harmless as the first
    and as the last segment, and right after an index, whose dots the
    substitution has used up.  [after_key] tells that the segment before is a
    key. *)
Fixpoint keys_kept (after_key : bool) (path : list seg) : bool :=
  match path with
  | [] => true
  | Key k :: rest =>
      match rest with
      | [] => true
      | _ => negb (after_key && numeral k) && keys_kept true rest
      end
  | Idx _ :: rest => keys_kept false rest
  end.

(** ** Notions used in the proofs *)

(** [flatten] returns the two projections. *)
Definition returns_projections (d : pyval) : Prop :=
  forall prefix devtype r g,
    flatten d prefix devtype = Ok (r, g) ->
    r = flatten_data d prefix /\ g = flatten_guide d prefix devtype.

(** The key [K] is a path below the field [k] of a dictionary flattened
    under [p]. *)
Definition below (p k K : string) : Prop :=
  K = p +:+ k \/ exists Y, K = p +:+ k +:+ String dot Y.

(** After reading [p], the index substitution has written [np] and is in
    state [st]. *)
Definition reads (p np : string) (st : option string) : Prop :=
  forall s, sub_index None (p +:+ s) = np +:+ sub_index st s.

Definition pending (st : option string) : string :=
  match st with
  | None => EmptyString
  | Some ds => String dot ds
  end.

(** ** Sample inputs *)

(** A node learned in both roles, first seen in client mode and asked for
    client mode again, then asked for access-point mode. *)
Definition sample_router : pyval :=
  PDict [("name", PStr "r1"); ("address", PStr "192.168.1.2"); ("password", PStr "pw");
         ("et0macaddr", PStr "00:11:22:33:44:55");
         ("sta", PDict [("sta_ifname", PStr "eth2")]);
         ("ap", PDict [("wan_hwaddr", PStr "00:11:22:33:44:56")])].

Definition sample_session : session :=
  {| cn := {| router := sample_router; current_mode := "sta" |}; trace := [] |}.


(** A generation-2 device whose answers to the credential pushes all carry
    an error, reached directly and through a single DD-WRT node. *)
Definition sample_native_env : native_env :=
  {| nat_cfg := PDict [("SSID", PStr "home"); ("Password", PStr "pw")];
     nat_provision_list := true;
     nat_found := Some "ShellyPlus1-A1B2C3";
     nat_status_ok := true;
     nat_replies := fun _ _ => Some (PDict [("error", PStr "busy")]);
     nat_reconnect_ok := true;
     nat_verified := GoesOn |}.



(** A device at version [v1] that stays idle, and one that updates to [v2]:
    the clock advances by one second per reading. *)
Definition idle_device : ota_env :=
  {| first_info := Some {| ota_status := "idle"; ota_old_version := "v1" |};
     latest := LatestNoSettings;
     flash_sent := true;
     ota_clock := fun k => Z.of_nat k;
     ota_poll := fun _ => Some {| ota_status := "idle"; ota_old_version := "v1" |} |}.

Definition updating_device : ota_env :=
  {| first_info := Some {| ota_status := "idle"; ota_old_version := "v1" |};
     latest := LatestNoSettings;
     flash_sent := true;
     ota_clock := fun k => Z.of_nat k;
     ota_poll := fun k =>
       if (k <=? 1)%nat then Some {| ota_status := "idle"; ota_old_version := "v1" |}
       else if (k <=? 3)%nat then Some {| ota_status := "updating"; ota_old_version := "v1" |}
       else Some {| ota_status := "idle"; ota_old_version := "v2" |} |}.

(** A queue whose first entry is complete and whose second is pending; a
    caller that is interrupted at once, and one that completes what it is
    handed. *)
Definition sample_queue : list pyval :=
  [PDict [("ConfigInput", PDict [("SSID", PStr "home"); ("Password", PStr "pw")]);
          ("ConfigStatus", PDict [("InsertTime", PInt 100); ("CompletedTime", PInt 200)])];
   PDict [("ConfigInput", PDict [("SSID", PStr "home"); ("Password", PStr "pw")]);
          ("ConfigStatus", PDict [("InsertTime", PInt 101)])]].

Definition complete_entry (now : Z) (rec : pyval) : pyval :=
  match rec with
  | PDict fields =>
      match sget "ConfigStatus" fields with
      | Some (PDict status) =>
          PDict (sset "ConfigStatus" (PDict (sset "CompletedTime" (PInt now) status)) fields)
      | _ => rec
      end
  | _ => rec
  end.

Definition interrupted_run : run :=
  {| run_clock := fun k => (300 + Z.of_nat k)%Z;
     run_body := fun _ rec => (rec, LeaveLoop);
     run_group := None;
     run_ssid := Some "home" |}.

Definition full_run : run :=
  {| run_clock := fun k => (400 + Z.of_nat k)%Z;
     run_body := fun _ rec => (complete_entry 500 rec, NextEntry);
     run_group := None;
     run_ssid := Some "home" |}.

(** A registry of one device whose settings hold two arrays of scalars. *)
Definition sample_db : list (string * pyval) :=
  [("Format", PStr "automagic");
   ("98CDAC1E3126",
    PDict [("ID", PStr "98CDAC1E3126");
           ("settings",
            PDict [("device", PDict [("type", PStr "SHRGBW2")]);
                   ("alt_modes", PList [PStr "white"]);
                   ("schedule_rules", PList [PStr "0700-0123456-on"])])])].

(** A registry record imported with a tag and tagged again by a query, which
    appends the top-level [Tags]. *)
Definition retagged_record : pyval :=
  PDict [("ConfigInput", PDict [("SSID", PStr "home"); ("Tags", PStr "a")]);
         ("ID", PStr "98CDAC1E3126");
         ("settings", PDict [("device", PDict [("type", PStr "SHSW-1")]);
                             ("relays", PList [PDict [("name", PStr "pump")];
                                               PDict [("name", PNone)]])]);
         ("Tags", PStr "a,b")].

(** An array held under a numeral key, and an array inside an array. *)
Definition numeral_key_record : pyval :=
  PDict [("a", PDict [("7", PList [PDict [("b", PInt 1)]])])].

Definition nested_array_record : pyval :=
  PDict [("a", PList [PList [PInt 1; PInt 2]])].

(** The same record with its top-level [Tags] ahead of [ConfigInput]. *)
Definition tagged_first_record : pyval :=
  PDict ([("ID", PStr "98CDAC1E3126")] ++
         ("Tags", PStr "a,b") ::
         [("ConfigInput", PDict [("SSID", PStr "home"); ("Tags", PStr "a")])]).

(** A key with a dot in it, ahead of the object it mimics. *)
Definition dotted_key_record : pyval :=
  PDict [("a.b", PInt 1); ("a", PDict [("b", PInt 2)])].

(* ================================================================== *)
(** * Part I, continued: the helpers around the operations            *)
(* ================================================================== *)

(** ** Library functions: [get_name_value_pairs] *)

Definition equals_sign : ascii := "="%char.

(** [for q in result: if len(q) < 2: ... sys.exit()] *)
Fixpoint check_pairs (result : list (list string)) : res unit :=
  match result with
  | [] => Ok tt
  | q :: rest => if (length q <? 2)%nat then Raise SystemExit else check_pairs rest
  end.

(** [[ x.split('=') for x in query_conditions.split(',') ] if
    query_conditions else []], then the check of every term. *)
Definition get_name_value_pairs (query_conditions : option string)
  : res (list (list string)) :=
  let result :=
    match query_conditions with
    | Some s =>
        if given query_conditions
        then map (split_on equals_sign) (split_on comma s)
        else []
    | None => []
    end in
  let? _ := check_pairs result in
  Ok result.

(** ** Library functions: [check_for_device_queue] *)

(** The test of one record in the loop of [check_for_device_queue]:
    [Ok true] when the function returns at this record. *)
Definition entry_ready (group : option string) (include_complete : bool)
    (ssid : option string) (rec : pyval) : res bool :=
  let? has_input := py_in "ConfigInput" rec in
  if negb has_input then Ok false
  else
    let? has_status := py_in "ConfigStatus" rec in
    if negb has_status then Ok false
    else
      let? pending_entry :=
        (if include_complete then Ok true
         else
           let? status := py_getitem rec "ConfigStatus" in
           let? completed := py_in "CompletedTime" status in
           Ok (negb completed)) in
      if negb pending_entry then Ok false
      else
        let? group_ok :=
          (if negb (given group) then Ok true
           else
             let? cfg := py_getitem rec "ConfigInput" in
             let? has_group := py_in "Group" cfg in
             if has_group : bool then
               let? g := py_getitem cfg "Group" in
               Ok (py_eq_str g (default EmptyString group))
             else Ok false) in
        if negb group_ok then Ok false
        else if negb (given ssid) then Ok true
        else
          let? cfg := py_getitem rec "ConfigInput" in
          let? has_ssid := py_in "SSID" cfg in
          if has_ssid : bool then
            let? s := py_getitem cfg "SSID" in
            Ok (py_eq_str s (default EmptyString ssid))
          else Ok false.

(** How [check_for_device_queue] returns: silently at the first ready
    record, or after the message that nothing is ready. *)
Inductive queue_check : Type :=
| SomethingReady
| NothingReady.

Fixpoint check_entries (group : option string) (include_complete : bool)
    (ssid : option string) (fail : bool) (dq : list pyval) : res queue_check :=
  match dq with
  | [] => if fail then Raise SystemExit else Ok NothingReady
  | rec :: rest =>
      let? ready := entry_ready group include_complete ssid rec in
      if ready : bool then Ok SomethingReady
      else check_entries group include_complete ssid fail rest
  end.

Definition check_for_device_queue (dq : list pyval) (group : option string)
    (include_complete : bool) (ssid : option string) (fail : bool) : res queue_check :=
  match dq with
  | [] => Raise SystemExit                     (* List is empty *)
  | _ => check_entries group include_complete ssid fail dq
  end.

(** ** HTTP utilities: [get_url] *)



(** ** Query/db functions: [schema_details] *)

(** [paths]: canonical path -> the device types that have it, in the order
    of [coverage]. *)
Definition schema_paths (coverage : coverage) : list (string * list pyval) :=
  fold_left
    (fun paths dp => sset (snd dp) (default [] (sget (snd dp) paths) ++ [fst dp]) paths)
    coverage [].

(** [[ col, paths ]] or [[ col ]] *)
Inductive schema_entry : Type :=
| WithPaths (col : string) (paths : list (string * list pyval))
| ColumnOnly (col : string).

Definition schema_details (col : string) (coverage : coverage) (verbosity : nat)
  : res schema_entry :=
  let paths := schema_paths coverage in
  if (1 <? verbosity)%nat then Ok (WithPaths col paths)
  else if (0 <? verbosity)%nat then
    if (1 <? length paths)%nat then Ok (WithPaths col paths)
    else
      match paths with
      | [] => Raise IndexError                 (* [list(paths.keys())[0]] *)
      | (p, _) :: _ =>
          if negb (String.eqb p (re_sub_index col)) then Ok (WithPaths col paths)
          else Ok (ColumnOnly col)
      end
  else Ok (ColumnOnly col).

(** ** DD-WRT interactions: [ddwrt_choose_roles] *)

(** [for node in ddwrt_name: nodes.append( ddwrt_connect_to_known_router(
    node ) )]; [connect i name] is the [i]-th connection attempt. *)
Fixpoint connect_all (connect : nat -> string -> res conn) (i : nat)
    (ddwrt_name : list string) : res (list conn) :=
  match ddwrt_name with
  | [] => Ok []
  | name :: rest =>
      let? node := connect i name in
      let? nodes := connect_all connect (S i) rest in
      Ok (node :: nodes)
  end.

(** The four lists of node positions built by the second loop. *)
Record role_lists : Type := {
  ap_capable : list nat;
  sta_capable : list nat;
  current_ap : list nat;
  current_sta : list nat
}.

Fixpoint survey_roles (nodes : list conn) (i : nat) (acc : role_lists) : res role_lists :=
  match nodes with
  | [] => Ok acc
  | node :: rest =>
      let? knows_ap := py_in "ap" (router node) in
      let? knows_sta := py_in "sta" (router node) in
      survey_roles rest (S i)
        {| ap_capable := if knows_ap : bool then ap_capable acc ++ [i] else ap_capable acc;
           sta_capable := if knows_sta : bool then sta_capable acc ++ [i] else sta_capable acc;
           current_ap := if String.eqb "ap" (current_mode node)
                         then current_ap acc ++ [i] else current_ap acc;
           current_sta := if String.eqb "sta" (current_mode node)
                          then current_sta acc ++ [i] else current_sta acc |}
  end.

(** [l[0]] *)
Definition first_index (l : list nat) : res nat :=
  match l with
  | [] => Raise IndexError
  | i :: _ => Ok i
  end.

(** The positions [( ap_node, sta_node )] chosen among [n] nodes, [n >=
    1]. *)
Definition choose_positions (n : nat) (r : role_lists) : res (nat * nat) :=
  let ap_node := 0 in
  let sta_node := n - 1 in
  if (1 <? n)%nat then
    if (length (ap_capable r) <? 2)%nat then
      let? ap_node := first_index (ap_capable r) in
      Ok (ap_node, (ap_node + 1) mod 2)
    else if (length (sta_capable r) <? 2)%nat then
      let? sta_node := first_index (sta_capable r) in
      Ok ((sta_node + 1) mod 2, sta_node)
    else if (length (current_ap r) <? 2)%nat then
      let? ap_node := first_index (current_ap r) in
      Ok (ap_node, (ap_node + 1) mod 2)
    else if (length (current_sta r) <? 2)%nat then
      let? sta_node := first_index (sta_capable r) in
      Ok ((sta_node + 1) mod 2, sta_node)
    else Ok (ap_node, sta_node)
  else Ok (ap_node, sta_node).

Definition ddwrt_choose_roles (connect : nat -> string -> res conn)
    (ddwrt_name : list string) : res (conn * conn) :=
  let? nodes := connect_all connect 0 ddwrt_name in
  let? r := survey_roles nodes 0
              {| ap_capable := []; sta_capable := []; current_ap := []; current_sta := [] |} in
  match ap_capable r with
  | [] => Raise SystemExit                     (* No AP capable dd-wrt device found *)
  | _ =>
      match sta_capable r with
      | [] => Raise SystemExit                 (* No client-mode capable dd-wrt device found *)
      | _ =>
          let? chosen := choose_positions (length nodes) r in
          match nodes !! fst chosen, nodes !! snd chosen with
          | Some ap, Some sta => Ok (ap, sta)
          | _, _ => Raise IndexError
          end
      end
  end.

(** ** Option validation: [validate_options] *)

Definition always_options : list string :=
  ["access"; "operation"; "ddwrt_file"; "pause_time"; "ota_timeout"; "device_db";
   "prefix"; "device_queue"; "verbose"; "force_platform"].

Definition allow_options : list (string * list string) :=
  [("help", ["what"]);
   ("query", ["query_conditions"; "query_columns"; "group"; "set_tag"; "match_tag";
              "delete_tag"; "refresh"]);
   ("schema", ["query_conditions"; "query_columns"; "group"; "match_tag"; "refresh"]);
   ("apply", ["query_conditions"; "query_columns"; "group"; "set_tag"; "match_tag";
              "delete_tag"; "ota"; "apply_urls"; "refresh"; "delete_device";
              "restore_device"; "dry_run"; "settings"; "access"]);
   ("probe-list", ["query_conditions"; "group"; "refresh"; "access"]);
   ("provision-list", ["group"; "ddwrt_name"; "group"; "cue"; "timing"; "ota";
                       "print_using"; "toggle"; "wait_time"; "settings"]);
   ("provision", ["ssid"; "wait_time"; "ota"; "print_using"; "toggle"; "cue"; "settings"]);
   ("acceptance-test", ["ssid"]);
   ("config-test", ["ssid"]);
   ("list", ["group"]);
   ("clear-list", [])].

Definition require_options : list (string * list string) :=
  [("factory-reset", ["device_address"]);
   ("identify", ["device_address"]);
   ("flash", ["device_address"; "ota"]);
   ("list-versions", ["device_address"]);
   ("ddwrt-learn", ["ddwrt_name"; "ddwrt_address"; "ddwrt_password"]);
   ("import", ["file"]);
   ("replace", ["from_device"; "to_device"]);
   ("print-sample", ["print_using"])].

(** [for r in require: if r in allow: allow[ r ].extend( require[ r ] )
    else: allow[ r ] = require[ r ]] *)
Definition merge_required (allow require : list (string * list string))
  : list (string * list string) :=
  fold_left
    (fun allow rl =>
       match sget (fst rl) allow with
       | Some l => sset (fst rl) (l ++ snd rl) allow
       | None => sset (fst rl) (snd rl) allow
       end)
    require allow.

(** [z.replace( "_", "-" )] *)
Fixpoint dashed (z : string) : string :=
  match z with
  | EmptyString => EmptyString
  | String c z' => String (if Ascii.eqb c "_" then "-"%char else c) (dashed z')
  end.

(** How [validate_options] ends: it returns, or prints one of its three
    messages and exits. *)
Inductive options_verdict : Type :=
| OptionsAccepted
| UnrecognizedArguments                        (* [p.error]: exit status 2 *)
| IncompatibleOptions (names : list string)
| RequiredOptions (names : list string).

(** [vars[ v ]] as a truth value, for [v] a key of [vars], and the negation
    of [r not in vars or not vars[ r ]] for any [r]. *)
Definition option_set (vars : list (string * pyval)) (v : string) : bool :=
  match sget v vars with
  | Some x => truthy x
  | None => false
  end.

(** The loop that collects the incompatible options: [allow[ op ]] is looked
    up at every option that is set and not always allowed. *)
Fixpoint incompatible_options (allow : list (string * list string)) (op : string)
    (zs : list string) (incompatible : list string) : res (list string) :=
  match zs with
  | [] => Ok incompatible
  | z :: rest =>
      match sget op allow with
      | None => Raise KeyError
      | Some allowed =>
          incompatible_options allow op rest
            (if in_list z allowed then incompatible else incompatible ++ [dashed z])
      end
  end.

(** [" ".join( x )] returns for a string, a list of strings and a
    dictionary (whose keys are strings). *)
Definition joinable (x : pyval) : bool :=
  match x with
  | PStr _ | PDict _ => true
  | PList l => forallb (fun e => match e with PStr _ => true | _ => false end) l
  | _ => false
  end.

(** [op != 'help' and vars[ 'what' ]], and the message of [p.error] built
    when it holds: [Ok true] when [p.error] is called. *)
Definition leftover_arguments (op_is_help : bool) (vars : list (string * pyval))
  : res bool :=
  if op_is_help then Ok false
  else
    match sget "what" vars with
    | None => Raise KeyError
    | Some what =>
        if truthy what then (if joinable what then Ok true else Raise TypeError)
        else Ok false
    end.

(** The body of [validate_options] for [op = vars[ 'operation' ]] a
    string. *)
Definition validate_operation (op : string) (vars : list (string * pyval))
  : res options_verdict :=
  let? leftover := leftover_arguments (String.eqb op "help") vars in
  if leftover : bool then Ok UnrecognizedArguments
  else
    let allow := merge_required allow_options require_options in
    let zs := List.filter (fun v => option_set vars v && negb (in_list v always_options))
                (map fst vars) in
    let? incompatible := incompatible_options allow op zs [] in
    match incompatible with
    | _ :: _ => Ok (IncompatibleOptions incompatible)
    | [] =>
        let required :=
          match sget op require_options with
          | Some names =>
              map dashed (List.filter (fun r => negb (option_set vars r)) names)
          | None => []
          end in
        match required with
        | _ :: _ => Ok (RequiredOptions required)
        | [] => Ok OptionsAccepted
        end
    end.

(** An operation that is not a string is a key of neither table. *)
Definition validate_options (vars : list (string * pyval)) : res options_verdict :=
  match sget "operation" vars with
  | None => Raise KeyError
  | Some (PStr op) => validate_operation op vars
  | Some op =>
      let? leftover := leftover_arguments false vars in
      if leftover : bool then Ok UnrecognizedArguments
      else
        match List.filter (fun v => option_set vars v && negb (in_list v always_options))
                (map fst vars) with
        | _ :: _ => if hashable op then Raise KeyError else Raise TypeError
        | [] => if hashable op then Ok OptionsAccepted else Raise TypeError
        end
  end.

(** ** DD-WRT interactions: [ddwrt_set_ap_mode] and [ddwrt_set_sta_mode] *)

Definition ddwrt_set_ap_mode (env : telnet) (ssid password : string) : step :=
  ddwrt_program_mode env
    [("pptp_use_dhcp", "1"); ("wan_gateway", "0.0.0.0"); ("wan_ipaddr", "0.0.0.0");
     ("wan_netmask", "0.0.0.0"); ("wan_proto", "disabled"); ("wl0_akm", "psk psk2");
     ("wl0_mode", "ap"); ("wl0_nctrlsb", "none"); ("wl0_security_mode", "psk psk2");
     ("wl0_ssid", ssid); ("wl_ssid", ssid); ("wl0_wpa_psk", password);
     ("wl_mode", "ap"); ("dns_redirect", "1"); ("dnsmasq_enable", "0")]
    ["wl0_hw_rxchain"; "wl0_hw_txchain"; "wan_hwaddr"]
    (Some ["wan_ipaddr_buf"; "wan_ipaddr_static"; "wan_netmask_static"; "wl0_vifs"]).

Definition ddwrt_set_sta_mode (env : telnet) (ssid : string) : step :=
  ddwrt_program_mode env
    [("pptp_use_dhcp", "0"); ("wan_gateway", "192.168.33.1");
     ("wan_ipaddr", "192.168.33.10"); ("wan_ipaddr_static", "..");
     ("wan_netmask", "255.255.255.0"); ("wan_netmask_static", "..");
     ("wan_proto", "static"); ("wl0_akm", "disabled"); ("wl0_mode", "sta");
     ("wl0_nctrlsb", ""); ("wl0_security_mode", "disabled"); ("wl0_vifs", "");
     ("wl_mode", "sta"); ("wl0_ssid", ssid); ("wl_ssid", ssid);
     ("dns_redirect", "1"); ("dnsmasq_enable", "0"); ("wan_ipaddr_buf", "192.168.33.10")]
    ["sta_ifname"; "wl0_hw_rxchain"; "wl0_hw_txchain"; "wan_hwaddr"]
    (Some ["wl0_wpa_psk"]).

(** ** DD-WRT interactions: [ddwrt_learn] *)

Definition learned_terms : list string :=
  ["sta_ifname"; "wan_hwaddr"; "wl0_mode"; "wl0_hw_txchain"; "wl0_hw_rxchain"].

(** [for term in ( ... ): ddwrt_info[term] = ddwrt_get_single_line_result(
    cn, "nvram get "+term )]; [answers] gives the result of a command. *)
Fixpoint read_terms (answers : string -> res string) (terms : list string)
    (ddwrt_info : list (string * pyval)) : res (list (string * pyval)) :=
  match terms with
  | [] => Ok ddwrt_info
  | term :: rest =>
      let? result := answers ("nvram get " +:+ term) in
      read_terms answers rest (sset term (PStr result) ddwrt_info)
  end.

(** The router db after [ddwrt_learn]: [connected] is the outcome of
    [ddwrt_establish_connection] and [now] the reading of the clock. *)
Definition ddwrt_learn (connected : res unit) (answers : string -> res string) (now : Z)
    (ddwrt_name ddwrt_address ddwrt_password : string)
    (router_db : list (string * pyval)) : res (list (string * pyval)) :=
  let? _ := connected in
  let? et0macaddr := answers "nvram get et0macaddr" in
  let? ddwrt_info := read_terms answers learned_terms [] in
  let? router_db :=
    match sget ddwrt_name router_db with
    | Some old_info =>
        let? old_mac := py_getitem old_info "et0macaddr" in
        if negb (py_eq_str old_mac et0macaddr) then
          (* the message is built with [+] from the stored address *)
          match old_mac with
          | PStr _ => Raise SystemExit
          | _ => Raise TypeError
          end
        else
          let? mode := py_getitem (PDict ddwrt_info) "wl0_mode" in
          let? old_info := py_setitem old_info (py_str mode) (PDict ddwrt_info) in
          Ok (sset ddwrt_name old_info router_db)
    | None =>
        let? mode := py_getitem (PDict ddwrt_info) "wl0_mode" in
        Ok (sset ddwrt_name
              (PDict (sset (py_str mode) (PDict ddwrt_info)
                        [("name", PStr ddwrt_name); ("address", PStr ddwrt_address);
                         ("password", PStr ddwrt_password);
                         ("et0macaddr", PStr et0macaddr)]))
              router_db)
    end in
  let? entry := py_getitem (PDict router_db) ddwrt_name in
  let? entry := py_setitem entry "InsertTime" (PInt now) in
  Ok (sset ddwrt_name entry router_db).

(** ** Operations: [append_list] and [print_list] *)

Definition required_keys : list string := ["SSID"; "Password"].

Definition optional_keys : list string :=
  ["StaticIP"; "NetMask"; "Gateway"; "Group"; "Label"; "ProbeIP"; "Tags"; "DeviceName";
   "LatLng"; "TZ"; "Access"].

(** Why [append_list] refuses a row of the import file. *)
Inductive refusal : Type :=
| RequiredKeyMissing (k : string)
| StaticIPWithoutNetMask
| ImproperLatLng
| ImproperTZ
| ImproperAccess.

(** How an import ends: with a value, with a message about record [n] and
    [sys.exit()], or with an exception ([AttributeError] is the one of
    [.strip()] on a value that is not a string). *)
Inductive import_result (A : Type) : Type :=
| Imported (a : A)
| Refused (n : nat) (why : refusal)
| ImportRaises (e : exn)
| ImportAttributeError.
Arguments Imported {A} a.
Arguments Refused {A} n why.
Arguments ImportRaises {A} e.
Arguments ImportAttributeError {A}.

Definition import_bind {A B : Type} (r : import_result A) (k : A -> import_result B)
  : import_result B :=
  match r with
  | Imported a => k a
  | Refused n why => Refused n why
  | ImportRaises e => ImportRaises e
  | ImportAttributeError => ImportAttributeError
  end.

Definition import_of {A : Type} (r : res A) : import_result A :=
  match r with
  | Ok a => Imported a
  | Raise e => ImportRaises e
  end.

Section import.
(** The two regular expressions matched by [re.match] against [LatLng] and
    [TZ], and [str.strip], are the library's. *)
Variables (latlng_ok tz_ok : string -> bool) (strip : string -> string).

(** [for k in required_keys] *)
Fixpoint copy_required (n : nat) (row : pyval) (keys : list string)
    (r : list (string * pyval)) : import_result (list (string * pyval)) :=
  match keys with
  | [] => Imported r
  | k :: rest =>
      import_bind (import_of (py_in k row)) (fun has_k =>
      import_bind
        (if negb has_k
         then import_bind (import_of (py_in "ProbeIP" row)) (fun has_probe =>
                if negb has_probe then Refused n (RequiredKeyMissing k) else Imported tt)
         else Imported tt) (fun _ =>
      if has_k : bool then
        import_bind (import_of (py_getitem row k)) (fun v =>
        copy_required n row rest (sset k v r))
      else copy_required n row rest r))
  end.

(** [re.match( pattern, row[ k ] )] *)
Definition match_string (ok : string -> bool) (v : pyval) : res bool :=
  match v with
  | PStr s => Ok (ok s)
  | _ => Raise TypeError
  end.

(** The body of [for k in optional_keys] for a key that is in [row]. *)
Definition copy_optional_key (n : nat) (row : pyval) (k : string)
    (r : list (string * pyval)) : import_result (list (string * pyval)) :=
  import_bind (import_of (py_getitem row k)) (fun v =>
  import_bind
    (if String.eqb k "StaticIP" && truthy v then
       import_bind (import_of (py_in "NetMask" row)) (fun has_mask =>
       import_bind
         (if has_mask : bool
          then import_bind (import_of (py_getitem row "NetMask")) (fun m =>
                 Imported (truthy m))
          else Imported false) (fun mask_given =>
       if mask_given : bool then Imported (sset "IP" v r)
       else Refused n StaticIPWithoutNetMask))
     else Imported r) (fun r =>
  import_bind
    (if String.eqb k "LatLng" && truthy v then
       import_bind (import_of (match_string latlng_ok v)) (fun ok =>
         if ok : bool then Imported tt else Refused n ImproperLatLng)
     else Imported tt) (fun _ =>
  import_bind
    (if String.eqb k "TZ" && truthy v then
       import_bind (import_of (match_string tz_ok v)) (fun ok =>
         if ok : bool then Imported tt else Refused n ImproperTZ)
     else Imported tt) (fun _ =>
  import_bind
    (if String.eqb k "Access" && truthy v then
       if py_eq_str v "Continuous" || py_eq_str v "Periodic" then Imported tt
       else Refused n ImproperAccess
     else Imported tt) (fun _ =>
  Imported (sset k v r)))))).

Fixpoint copy_optional (n : nat) (row : pyval) (keys : list string)
    (r : list (string * pyval)) : import_result (list (string * pyval)) :=
  match keys with
  | [] => Imported r
  | k :: rest =>
      import_bind (import_of (py_in k row)) (fun has_k =>
      if has_k : bool then
        import_bind (copy_optional_key n row k r) (fun r => copy_optional n row rest r)
      else copy_optional n row rest r)
  end.

(** The queue entry made of record [n] of the import file. *)
Definition import_row (now : Z) (n : nat) (row : pyval) : import_result pyval :=
  import_bind (copy_required n row required_keys []) (fun r =>
  import_bind (copy_optional n row optional_keys r) (fun r =>
  import_bind
    (match sget "ProbeIP" r with
     | Some (PStr s) => Imported (sset "ProbeIP" (PStr (strip s)) r)
     | Some _ => ImportAttributeError
     | None => Imported r
     end) (fun r =>
  Imported (PDict [("ConfigInput", PDict r);
                   ("ConfigStatus", PDict [("InsertTime", PInt now)])])))).

(** [for row in l]: [clock n] is the clock read for record [n]. *)
Fixpoint append_rows (clock : nat -> Z) (n : nat) (l : list pyval)
    (device_queue : list pyval) : import_result (list pyval) :=
  match l with
  | [] => Imported device_queue
  | row :: rest =>
      let n := S n in
      import_bind (import_row (clock n) n row) (fun t =>
      append_rows clock n rest (device_queue ++ [t]))
  end.

Definition append_list (clock : nat -> Z) (l : list pyval) (device_queue : list pyval)
  : import_result (list pyval) :=
  append_rows clock 0 l device_queue.
End import.

Definition list_header : list string :=
  ["ProbeIP"; "Group"; "SSID"; "Password"; "StaticIP"; "NetMask"; "Gateway"; "DeviceName";
   "InsertTime"; "CompletedTime"].

(** [v == group] for the option [group], a string or [None]. *)
Definition py_eq_option (v : pyval) (group : option string) : bool :=
  match group, v with
  | None, PNone => true
  | Some g, PStr s => String.eqb s g
  | _, _ => false
  end.

(** [d['ConfigInput'][h] if h in d['ConfigInput'] else d['ConfigStatus'][h]
    if h in d['ConfigStatus'] else ''] *)
Definition list_cell (d : pyval) (h : string) : res pyval :=
  let? cfg := py_getitem d "ConfigInput" in
  let? in_cfg := py_in h cfg in
  if in_cfg : bool then py_getitem cfg h
  else
    let? status := py_getitem d "ConfigStatus" in
    let? in_status := py_in h status in
    if in_status : bool then py_getitem status h else Ok (PStr EmptyString).

Fixpoint list_cells (d : pyval) (header : list string) : res (list pyval) :=
  match header with
  | [] => Ok []
  | h :: rest =>
      let? cell := list_cell d h in
      let? cells := list_cells d rest in
      Ok (cell :: cells)
  end.

(** The first loop of [print_list], which collects one row per listed
    entry. *)
Fixpoint list_rows (group : option string) (device_queue : list pyval)
  : res (list (list pyval)) :=
  match device_queue with
  | [] => Ok []
  | d :: rest =>
      let? cfg := py_getitem d "ConfigInput" in
      let? has_group := py_in "Group" cfg in
      let? in_group :=
        (if has_group : bool then
           let? g := py_getitem d "Group" in
           let? gc := py_getitem g "ConfigInput" in
           Ok (py_eq_option gc group)
         else Ok false) in
      if in_group || negb (given group) then
        let? rec := list_cells d list_header in
        let? rows := list_rows group rest in
        Ok (rec :: rows)
      else list_rows group rest
  end.

(** [print_list] up to the rows it is about to print. *)
Definition print_list (device_queue : list pyval) (group : option string)
  : res (list (list pyval)) :=
  let? _ := check_for_device_queue device_queue group false None false in
  list_rows group device_queue.

(** ** Vocabulary of the further properties *)

(** A record is handed out by the provision-list pass stamped and filtered:
    it has a [ConfigInput] of the group and SSID asked for, and a
    [ConfigStatus] whose [InProgressTime] is [now]. *)
Definition handed_out_well (group ssid : option string) (now : Z) (y : nat * pyval)
  : Prop :=
  exists cfg status,
    py_getitem y.2 "ConfigInput" = Ok cfg /\
    py_getitem y.2 "ConfigStatus" = Ok status /\
    py_getitem status "InProgressTime" = Ok (PInt now) /\
    (forall g, group = Some g -> g <> EmptyString ->
               py_getitem cfg "Group" = Ok (PStr g)) /\
    (forall s, ssid = Some s -> s <> EmptyString ->
               py_getitem cfg "SSID" = Ok (PStr s)).


(** The device types that [coverage] maps to the canonical path [p]. *)
Definition devtypes_at (coverage : coverage) (p : string) : list pyval :=
  map fst (List.filter (fun dp => String.eqb (snd dp) p) coverage).

(** No positional argument is left over: [vars[ 'what' ]] is there and
    empty. *)
Definition nothing_left_over (vars : list (string * pyval)) : Prop :=
  exists what, sget "what" vars = Some what /\ truthy what = false.

(** The options that are set and not allowed with every operation. *)
Definition specific_option (vars : list (string * pyval)) (z : string) : Prop :=
  option_set vars z = true /\ z ∉ always_options.

(** ** Further sample inputs *)

(** Two connections to nodes learned in both roles, the first found in
    access-point mode and the second in client mode. *)
Definition sample_connect : nat -> string -> res conn :=
  fun i _ =>
    Ok {| router := sample_router;
          current_mode := if (i =? 0)%nat then "ap" else "sta" |}.

(** The options of [apply --restore-device ALL --dry-run] and of [flash
    --device-address 192.168.1.50 --ota LATEST]. *)
Definition sample_apply_options : list (string * pyval) :=
  [("operation", PStr "apply"); ("what", PList []); ("verbose", PInt 0);
   ("access", PStr "ALL"); ("restore_device", PStr "ALL"); ("dry_run", PBool true);
   ("ota", PStr ""); ("group", PNone)].

Definition sample_flash_options : list (string * pyval) :=
  [("operation", PStr "flash"); ("what", PList []); ("verbose", PInt 0);
   ("device_address", PStr "192.168.1.50"); ("ota", PStr "LATEST")].

(** The options of a [query] given a device to restore, and of [features]
    given a group. *)
Definition sample_query_options : list (string * pyval) :=
  [("operation", PStr "query"); ("what", PList []);
   ("restore_device", PStr "98CDAC1E3126")].

Definition sample_features_options : list (string * pyval) :=
  [("operation", PStr "features"); ("what", PList []); ("group", PStr "g")].

(** A registry of one device imported with the tag [a]. *)
Definition tagged_db : list (string * pyval) :=
  [("Format", PStr "automagic");
   ("98CDAC1E3126",
    PDict [("ConfigInput", PDict [("SSID", PStr "home"); ("Tags", PStr "a")]);
           ("ID", PStr "98CDAC1E3126");
           ("settings", PDict [("device", PDict [("type", PStr "SHSW-1")])])])].

Definition tagged_fields : list (string * pyval) :=
  [("ConfigInput", PDict [("SSID", PStr "home"); ("Tags", PStr "a")]);
   ("ID", PStr "98CDAC1E3126");
   ("settings", PDict [("device", PDict [("type", PStr "SHSW-1")])])].

(** What [ddwrt_learn] reads from a node whose commands are all answered:
    [reply] gives the line a command returns. *)
Definition learned_info (reply : string -> string) : list (string * pyval) :=
  [("sta_ifname", PStr (reply "nvram get sta_ifname"));
   ("wan_hwaddr", PStr (reply "nvram get wan_hwaddr"));
   ("wl0_mode", PStr (reply "nvram get wl0_mode"));
   ("wl0_hw_txchain", PStr (reply "nvram get wl0_hw_txchain"));
   ("wl0_hw_rxchain", PStr (reply "nvram get wl0_hw_rxchain"))].

(** A node seen in access-point mode and then in client mode. *)
Definition ap_reply (command : string) : string :=
  if String.eqb command "nvram get wl0_mode" then "ap"
  else if String.eqb command "nvram get et0macaddr" then "00:11:22:33:44:55"
  else "1".

Definition sta_reply (command : string) : string :=
  if String.eqb command "nvram get wl0_mode" then "sta"
  else if String.eqb command "nvram get et0macaddr" then "00:11:22:33:44:55"
  else "1".

(** ** Rows of an import file *)

(** The queue entry [append_list] makes of the copied fields [r]. *)
Definition queue_entry (r : list (string * pyval)) (now : Z) : pyval :=
  PDict [("ConfigInput", PDict r); ("ConfigStatus", PDict [("InsertTime", PInt now)])].

(** The keys [append_list] knows. *)
Definition known_key (K : string) : bool :=
  existsb (String.eqb K) (required_keys ++ optional_keys).

Section rows.
Variables (latlng_ok tz_ok : string -> bool).

(** The tests that the value [v] of an optional key [k] of the row [f]
    passes. *)
Definition optional_key_ok (f : list (string * pyval)) (k : string) (v : pyval) : bool :=
  (negb (String.eqb k "StaticIP" && truthy v)
   || match sget "NetMask" f with Some m => truthy m | None => false end)
  && (negb (String.eqb k "LatLng" && truthy v)
      || match v with PStr s => latlng_ok s | _ => false end)
  && (negb (String.eqb k "TZ" && truthy v)
      || match v with PStr s => tz_ok s | _ => false end)
  && (negb (String.eqb k "Access" && truthy v)
      || py_eq_str v "Continuous" || py_eq_str v "Periodic").

(** The rows that pass every test of [append_list]: the wireless network is
    given unless the row is one of a probe list, a static address comes
    with its mask, [LatLng], [TZ] and [Access] are empty or well formed, and
    the address to probe is a string. *)
Definition row_accepted (f : list (string * pyval)) : Prop :=
  (sin "ProbeIP" f = true \/ (sin "SSID" f = true /\ sin "Password" f = true))
  /\ (forall v, sget "StaticIP" f = Some v -> truthy v = true ->
        exists m, sget "NetMask" f = Some m /\ truthy m = true)
  /\ (forall v, sget "LatLng" f = Some v -> truthy v = true ->
        exists s, v = PStr s /\ latlng_ok s = true)
  /\ (forall v, sget "TZ" f = Some v -> truthy v = true ->
        exists s, v = PStr s /\ tz_ok s = true)
  /\ (forall v, sget "Access" f = Some v -> truthy v = true ->
        v = PStr "Continuous" \/ v = PStr "Periodic")
  /\ (forall v, sget "ProbeIP" f = Some v -> exists s, v = PStr s).
End rows.

(** An import file of two rows, the second with a static address and no
    gateway, and what is read of the first. *)
Definition sample_rows : list pyval :=
  [PDict [("SSID", PStr "home"); ("Password", PStr "pw"); ("Group", PStr "g");
          ("Comment", PStr "kitchen")];
   PDict [("SSID", PStr "home"); ("Password", PStr "pw");
          ("StaticIP", PStr "192.168.1.40"); ("NetMask", PStr "255.255.255.0")]].

Definition sample_clock (n : nat) : Z := 1000 + Z.of_nat n.

(** ** Entries of the queue *)

(** A queue entry as [append_list] and the provisioning pass leave it: a
    dictionary with the dictionaries [ConfigInput] and [ConfigStatus], and
    no key [Group] of its own. *)
Definition plain_entry (d : pyval) : Prop :=
  exists fields cfg status,
    d = PDict fields
    /\ sget "ConfigInput" fields = Some (PDict cfg)
    /\ sget "ConfigStatus" fields = Some (PDict status)
    /\ sget "Group" fields = None.

(** The entry names a group in its [ConfigInput]. *)
Definition grouped (d : pyval) : bool :=
  match d with
  | PDict fields =>
      match sget "ConfigInput" fields with
      | Some (PDict cfg) => sin "Group" cfg
      | _ => false
      end
  | _ => false
  end.

(* ================================================================== *)
(** * Part II: properties                                              *)
(* ================================================================== *)

#[local] Arguments String.eqb : simpl never.
#[local] Arguments ends_with : simpl never.

(** ** Dictionaries *)

Lemma sget_sset {V : Type} (k k' : string) (v : V) (d : list (string * V)) :
  sget k (sset k' v d) = if String.eqb k' k then Some v else sget k d.
Proof.
  induction d as [|[k0 v0] d IH]; simpl.
  - done.
  - destruct (String.eqb_spec k0 k') as [->|Hne]; simpl.
    + by destruct (String.eqb_spec k' k).
    + rewrite IH. destruct (String.eqb_spec k0 k) as [->|Hne'].
      * by destruct (String.eqb_spec k' k) as [->|].
      * done.
Qed.

Lemma sget_sset_eq {V : Type} (k : string) (v : V) (d : list (string * V)) :
  sget k (sset k v d) = Some v.
Proof. by rewrite sget_sset, String.eqb_refl. Qed.

Lemma sget_sset_ne {V : Type} (k k' : string) (v : V) (d : list (string * V)) :
  k' <> k -> sget k (sset k' v d) = sget k d.
Proof.
  intros Hne. rewrite sget_sset. by destruct (String.eqb_spec k' k).
Qed.

Lemma sin_sset_ne {V : Type} (k k' : string) (v : V) (d : list (string * V)) :
  k' <> k -> sin k (sset k' v d) = sin k d.
Proof. intros Hne. unfold dict_in. by rewrite sget_sset_ne. Qed.

(** ** The format sentinel of the registry and router files *)

Lemma validate_dict (fields : list (string * pyval)) (validate : validate_arg) :
  validate_result EmptyDict validate (PDict fields) =
    Ok (match sget "Format" fields with
        | Some (PStr s) => String.eqb s "automagic"
        | _ => false
        end).
Proof.
  unfold validate_result; simpl.
  destruct (sget "Format" fields) as [v|]; [|done].
  destruct v as [| | | s | |]; try done.
  destruct (String.eqb_spec s "automagic") as [->|Hne]; [done|].
  repeat (destruct s as [|[[|] [|] [|] [|] [|] [|] [|] [|]] s]; try done).
Qed.

(** C6. The registry and the router definitions are read with
    [read_json_file( f, { }, True )].  When the file holds a JSON object,
    the object is returned unchanged if its top-level [Format] is the string
    [automagic]; otherwise the call ends in the corruption message and
    [sys.exit()], and the program goes on with no value at all. *)
Theorem read_json_file_format_sentinel (fields : list (string * pyval)) :
  let outcome := read_json_file (Json (PDict fields)) EmptyDict ValidateTrue in
  (sget "Format" fields = Some (PStr "automagic") ->
     outcome = Returned (PDict fields)) /\
  (sget "Format" fields <> Some (PStr "automagic") ->
     outcome = ExitCorrupt /\ proceeds_with outcome = None).
Proof.
  simpl. unfold read_json_file; simpl. rewrite validate_dict. split; intros H.
  - by rewrite H.
  - destruct (sget "Format" fields) as [v|]; [|done].
    destruct v as [| | | s | |]; try done.
    destruct (String.eqb_spec s "automagic") as [->|Hne]; done.
Qed.

Lemma read_json_file_format_sentinel_witness :
  read_json_file (Json (PDict [("Format", PStr "automagic"); ("AB12", PDict [])]))
    EmptyDict ValidateTrue
  = Returned (PDict [("Format", PStr "automagic"); ("AB12", PDict [])])
  /\ read_json_file (Json (PDict [("AB12", PDict [])])) EmptyDict ValidateTrue = ExitCorrupt.
Proof.
  split.
  - apply (proj1 (read_json_file_format_sentinel
                    [("Format", PStr "automagic"); ("AB12", PDict [])])).
    reflexivity.
  - apply (proj2 (read_json_file_format_sentinel [("AB12", PDict [])])).
    discriminate.
Defined.

(** ** The role switch of a DD-WRT node *)

Section role_switch.
Variable env : telnet.

Lemma seq_step_assoc (a b c : step) (s : session) :
  seq_step a (seq_step b c) s = seq_step (seq_step a b) c s.
Proof.
  unfold seq_step. destruct (a s) as [[[]|e] s1]; [|done].
  by destruct (b s1) as [[[]|e] s2].
Qed.

Lemma seq_step_run (a b : step) (s : session) :
  seq_step a b s =
    match a s with
    | (Ok _, s') => b s'
    | (Raise e, s') => (Raise e, s')
    end.
Proof. reflexivity. Qed.

Lemma seq_step_regroup (a b c r : step) (s : session) :
  seq_step a (seq_step b (seq_step c r)) s = seq_step (seq_step a (seq_step b c)) r s.
Proof.
  unfold seq_step. destruct (a s) as [[[]|e] s1]; [|done].
  destruct (b s1) as [[[]|e] s2]; [|done].
  by destruct (c s2) as [[[]|e] s3].
Qed.

Lemma param_step_seq (a b : step) :
  param_step a -> param_step b -> param_step (seq_step a b).
Proof.
  intros Ha Hb s. unfold seq_step.
  destruct (Ha s) as (pa & Fa & Ca & Ta).
  destruct (a s) as [[[]|e] s1]; simpl in *.
  - destruct (Hb s1) as (pb & Fb & Cb & Tb).
    exists (pa ++ pb). split; [by apply Forall_app|].
    split; [congruence|]. rewrite Tb, Ta. by rewrite <- app_assoc.
  - by exists pa.
Qed.

Lemma param_step_skip : param_step skip_step.
Proof. intros s. exists []. simpl. by rewrite app_nil_r. Qed.

Lemma param_step_for_each {A : Type} (l : list A) (body : A -> step) :
  (forall x, param_step (body x)) -> param_step (for_each l body).
Proof.
  intros Hb. induction l as [|x l IH]; simpl.
  - apply param_step_skip.
  - by apply param_step_seq.
Qed.

Lemma param_step_do_event (e : event) :
  param_command e = true -> param_step (do_event env e).
Proof.
  intros He s. exists [e]. unfold do_event.
  split; [by constructor|]. by destruct (env (trace s) e).
Qed.

Lemma param_step_snapshot (mode : string) (k : string) :
  param_step (fun s =>
    match snapshot_field (router (cn s)) mode k with
    | Ok v => do_event env (Cmd ("nvram set " +:+ k +:+ "=" +:+ v)) s
    | Raise e => (Raise e, s)
    end).
Proof.
  intros s. destruct (snapshot_field (router (cn s)) mode k) as [v|e].
  - by apply (param_step_do_event (Cmd _)).
  - exists []. simpl. by rewrite app_nil_r.
Qed.

(** The three loops that write, copy and delete parameters. *)
Lemma param_step_loops (pgm : list (string * string)) (from_db : list string)
    (deletes : option (list string)) (mode : string) :
  param_step
    (seq_step
       (for_each pgm (fun kv =>
          do_event env (Cmd ("nvram set " +:+ fst kv +:+ "=" +:+ quoted (snd kv)))))
       (seq_step
          (for_each from_db (fun k s =>
             match snapshot_field (router (cn s)) mode k with
             | Ok v => do_event env (Cmd ("nvram set " +:+ k +:+ "=" +:+ v)) s
             | Raise e => (Raise e, s)
             end))
          (for_each (default [] deletes) (fun k =>
             do_event env (Cmd ("nvram unset " +:+ k)))))).
Proof.
  apply param_step_seq; [|apply param_step_seq].
  - apply param_step_for_each. intros kv. by apply (param_step_do_event (Cmd _)).
  - apply param_step_for_each. intros k. apply param_step_snapshot.
  - apply param_step_for_each. intros k. by apply (param_step_do_event (Cmd _)).
Qed.

Lemma new_events_app (s s' : session) (evs : list event) :
  trace s' = trace s ++ evs -> new_events s s' = evs.
Proof. intros H. unfold new_events. rewrite H. apply drop_app_length. Qed.

Lemma param_not_slow (e : event) :
  param_command e = true -> slow_path_event e = false.
Proof.
  destruct e as [c| | |]; simpl; try done.
  intros H. destruct (String.eqb_spec c "wl radio off; wl radio on") as [->|]; done.
Qed.

Lemma param_not_restart (e : event) :
  param_command e = true -> e <> Cmd restart_services.
Proof. intros H ->. done. Qed.

(** The call up to the commit: parameter commands only, then either an
    exception or the commit and the choice between the two paths. *)
Lemma ddwrt_program_mode_prefix (pgm : list (string * string))
    (from_db : list string) (deletes : option (list string)) (s : session)
    (mode : string) :
  sget "wl_mode" pgm = Some mode ->
  exists params s1,
    Forall (fun e => param_command e = true) params /\
    cn s1 = cn s /\ trace s1 = trace s ++ params /\
    ((exists e, ddwrt_program_mode env pgm from_db deletes s = (Raise e, s1)) \/
     ddwrt_program_mode env pgm from_db deletes s =
       seq_step (do_event env (Cmd "nvram commit 2>/dev/null"))
         (fun s0 => if String.eqb (current_mode (cn s0)) mode
                    then do_event env (Cmd restart_services) s0
                    else full_apply env mode s0) s1).
Proof.
  intros Hmode. unfold ddwrt_program_mode. rewrite Hmode.
  rewrite seq_step_regroup.
  pose proof (param_step_loops pgm from_db deletes mode s) as (params & Fp & Cp & Tp).
  rewrite (seq_step_run (seq_step _ _)).
  destruct (seq_step _ _ s) as [[[]|e] s1]; simpl in Cp, Tp;
    exists params, s1; (split; [done|split; [done|split; [done|]]]).
  - by right.
  - left. by exists e.
Qed.

Lemma new_events_from (s s1 : session) (params evs : list event) (c : conn) :
  trace s1 = trace s ++ params ->
  new_events s {| cn := c; trace := trace s1 ++ evs |} = params ++ evs.
Proof.
  intros H. apply new_events_app. simpl. rewrite H. by rewrite app_assoc.
Qed.

Lemma Forall_param_not_slow (params : list event) :
  Forall (fun e => param_command e = true) params ->
  Forall (fun e => slow_path_event e = false) params.
Proof. intros H. eapply Forall_impl; [exact H|]. apply param_not_slow. Qed.

Lemma Forall_param_not_restart (params : list event) :
  Forall (fun e => param_command e = true) params ->
  Forall (fun e => e <> Cmd restart_services) params.
Proof. intros H. eapply Forall_impl; [exact H|]. apply param_not_restart. Qed.

(** *** A node that answers *)

Section answering.
Hypothesis answers : responsive env.

Lemma do_event_answered (e : event) (s : session) :
  do_event env e s = (Ok tt, {| cn := cn s; trace := trace s ++ [e] |}).
Proof. unfold do_event. by rewrite answers. Qed.

Lemma for_each_answered {A : Type} (l : list A) (ev : A -> event) (s : session) :
  for_each l (fun x => do_event env (ev x)) s
  = (Ok tt, {| cn := cn s; trace := trace s ++ map ev l |}).
Proof.
  revert s. induction l as [|x l IH]; intros s; simpl.
  - rewrite app_nil_r. by destruct s.
  - rewrite seq_step_run, do_event_answered, IH. simpl. by rewrite <- app_assoc.
Qed.

Lemma for_each_copied (mode : string) (from_db values : list string) (s : session) :
  learned_values (router (cn s)) mode from_db values ->
  for_each from_db (fun k s =>
    match snapshot_field (router (cn s)) mode k with
    | Ok v => do_event env (Cmd ("nvram set " +:+ k +:+ "=" +:+ v)) s
    | Raise e => (Raise e, s)
    end) s
  = (Ok tt,
     {| cn := cn s;
        trace := trace s
                 ++ map (fun kv => Cmd ("nvram set " +:+ fst kv +:+ "=" +:+ snd kv))
                      (zip from_db values) |}).
Proof.
  intros H. revert s H. unfold learned_values.
  induction from_db as [|k from_db IH] in values |- *; intros s H.
  - apply Forall2_nil_inv_l in H as ->. simpl. rewrite app_nil_r. by destruct s.
  - apply Forall2_cons_inv_l in H as (v & values' & Hv & H & ->).
    simpl. rewrite seq_step_run, Hv, do_event_answered.
    rewrite (IH values') by done. simpl. by rewrite <- app_assoc.
Qed.

(** Up to the commit the call issues the parameter commands and nothing
    else. *)
Lemma ddwrt_program_mode_answered (pgm : list (string * string))
    (from_db values : list string) (deletes : option (list string)) (s : session)
    (mode : string) :
  sget "wl_mode" pgm = Some mode ->
  learned_values (router (cn s)) mode from_db values ->
  ddwrt_program_mode env pgm from_db deletes s
  = (fun s0 => if String.eqb (current_mode (cn s0)) mode
               then do_event env (Cmd restart_services) s0
               else full_apply env mode s0)
      {| cn := cn s;
         trace := trace s ++ param_events pgm from_db values deletes
                  ++ [Cmd "nvram commit 2>/dev/null"] |}.
Proof.
  intros Hmode Hvalues. unfold ddwrt_program_mode. rewrite Hmode.
  rewrite seq_step_run, for_each_answered. cbn [fst snd].
  rewrite seq_step_run, (for_each_copied mode from_db values) by done. cbn [cn trace].
  rewrite seq_step_run, for_each_answered. cbn [cn trace].
  rewrite seq_step_run, do_event_answered. cbn [cn trace].
  unfold param_events. by rewrite <- !app_assoc.
Qed.
End answering.

(** What a call issues, whatever the node answers. *)
Lemma role_switch_events (pgm : list (string * string))
    (from_db : list string) (deletes : option (list string)) (s : session)
    (mode : string) :
  sget "wl_mode" pgm = Some mode ->
  let out := ddwrt_program_mode env pgm from_db deletes s in
  let evs := new_events s out.2 in
  (current_mode (cn s) = mode ->
     Forall (fun e => slow_path_event e = false) evs /\
     cn out.2 = cn s /\
     (out.1 = Ok tt ->
        exists params,
          Forall (fun e => param_command e = true) params /\
          evs = params ++ [Cmd "nvram commit 2>/dev/null"; Cmd restart_services])) /\
  (current_mode (cn s) <> mode ->
     Forall (fun e => e <> Cmd restart_services) evs /\
     (out.1 = Ok tt ->
        current_mode (cn out.2) = mode /\
        exists params address password,
          Forall (fun e => param_command e = true) params /\
          router_string (router (cn s)) "address" = Ok address /\
          router_string (router (cn s)) "password" = Ok password /\
          evs = params ++ [Cmd "nvram commit 2>/dev/null";
                           HttpApply address "admin" password; Sleep 5; Sync;
                           Cmd "wl radio off; wl radio on"])).
Proof.
  intros Hmode out evs. subst evs out.
  destruct (ddwrt_program_mode_prefix pgm from_db deletes s mode Hmode)
    as (params & s1 & Fp & Cp & Tp & [[e ->] | ->]).
  { simpl. rewrite (new_events_app _ _ _ Tp). split; intros Hm.
    - split; [by apply Forall_param_not_slow|done].
    - split; [by apply Forall_param_not_restart|done]. }
  pose proof (Forall_param_not_slow _ Fp) as Fslow.
  pose proof (Forall_param_not_restart _ Fp) as Frest.
  rewrite seq_step_run. unfold full_apply, seq_step, do_event.
  destruct (env (trace s1) (Cmd "nvram commit 2>/dev/null")); simpl.
  2:{ rewrite (new_events_from s s1 params _ _ Tp). split; intros Hm.
      - split; [|done]. apply Forall_app. split; [done|by repeat constructor].
      - split; [|done]. apply Forall_app. split; [done|by repeat constructor]. }
  rewrite Cp.
  destruct (String.eqb_spec (current_mode (cn s)) mode) as [Heq|Hne].
  - split; [intros _|done]. unfold do_event; simpl.
    destruct (env _ (Cmd restart_services)); simpl;
      rewrite <- !app_assoc, (new_events_from s s1 params _ _ Tp); simpl.
    + split; [|split; [done|]].
      * apply Forall_app. split; [done|by repeat constructor].
      * intros _. by exists params.
    + split; [|done]. apply Forall_app. split; [done|by repeat constructor].
  - split; [done|intros _]. simpl.
    destruct (router_string (router (cn s)) "address") as [address|e1].
    2:{ simpl. rewrite (new_events_from s s1 params _ _ Tp).
        split; [|done]. apply Forall_app. split; [done|by repeat constructor]. }
    destruct (router_string (router (cn s)) "password") as [password|e2].
    2:{ simpl. rewrite (new_events_from s s1 params _ _ Tp).
        split; [|done]. apply Forall_app. split; [done|by repeat constructor]. }
    repeat match goal with
           | |- context [if env ?h ?e then _ else _] => destruct (env h e); simpl
           end;
      rewrite <- !app_assoc, (new_events_from s s1 params _ _ Tp); simpl;
      (split; [apply Forall_app; split; [done|by repeat constructor]|try done]).
    intros _. split; [done|]. by exists params, address, password.
Qed.

(** What a call issues when the node answers. *)
Lemma role_switch_returns (pgm : list (string * string))
    (from_db values : list string) (deletes : option (list string)) (s : session)
    (mode : string) :
  sget "wl_mode" pgm = Some mode ->
  responsive env -> learned_values (router (cn s)) mode from_db values ->
  let out := ddwrt_program_mode env pgm from_db deletes s in
  let evs := new_events s out.2 in
  (current_mode (cn s) = mode ->
     out.1 = Ok tt /\
     evs = param_events pgm from_db values deletes
           ++ [Cmd "nvram commit 2>/dev/null"; Cmd restart_services]) /\
  (current_mode (cn s) <> mode ->
     forall address password,
       router_string (router (cn s)) "address" = Ok address ->
       router_string (router (cn s)) "password" = Ok password ->
       out.1 = Ok tt /\
       cn out.2 = {| router := router (cn s); current_mode := mode |} /\
       evs = param_events pgm from_db values deletes
             ++ [Cmd "nvram commit 2>/dev/null";
                 HttpApply address "admin" password; Sleep 5; Sync;
                 Cmd "wl radio off; wl radio on"]).
Proof.
  intros Hmode Hanswers Hvalues out evs. subst evs out.
  rewrite (ddwrt_program_mode_answered Hanswers pgm from_db values deletes s mode) by done.
  cbn [cn]. split.
  - intros Hm. rewrite Hm, String.eqb_refl, do_event_answered by done.
    split; [done|]. apply new_events_app. cbn [trace].
    by rewrite <- !app_assoc.
  - intros Hm address password Ha Hp.
    destruct (String.eqb_spec (current_mode (cn s)) mode) as [|_]; [done|].
    unfold full_apply. cbn [cn router trace]. rewrite Ha, Hp.
    repeat (rewrite seq_step_run, do_event_answered by done; cbn [cn trace]).
    rewrite do_event_answered by done. cbn [cn trace fst snd].
    split; [done|]. split; [done|]. apply new_events_app. cbn [trace].
    by rewrite <- !app_assoc.
Qed.

(** C8. With [mode = pgm[ 'wl_mode' ]]: when the node's current mode is
    [mode], no action of the slow path (HTTP apply, sleep, resynchronisation,
    radio cycle) is ever performed and the connection record is unchanged,
    whatever the node answers; when the node answers and the router db holds
    the parameters to copy, the call returns, having issued the parameter
    commands, the commit and then the service restart, and nothing else.
    When the current mode differs, the service restart is never issued; when
    the node answers and the router db holds the parameters to copy and the
    node's address and password, the call returns, having issued the
    parameter commands, the commit and then the full apply sequence, and has
    recorded [mode] as the current mode. *)
Theorem ddwrt_program_mode_fast_iff_same_mode (pgm : list (string * string))
    (from_db : list string) (deletes : option (list string)) (s : session)
    (mode : string) :
  sget "wl_mode" pgm = Some mode ->
  let out := ddwrt_program_mode env pgm from_db deletes s in
  let evs := new_events s out.2 in
  (current_mode (cn s) = mode ->
     Forall (fun e => slow_path_event e = false) evs /\
     cn out.2 = cn s /\
     (out.1 = Ok tt ->
        exists params,
          Forall (fun e => param_command e = true) params /\
          evs = params ++ [Cmd "nvram commit 2>/dev/null"; Cmd restart_services]) /\
     (forall values,
        responsive env -> learned_values (router (cn s)) mode from_db values ->
        out.1 = Ok tt /\
        evs = param_events pgm from_db values deletes
              ++ [Cmd "nvram commit 2>/dev/null"; Cmd restart_services])) /\
  (current_mode (cn s) <> mode ->
     Forall (fun e => e <> Cmd restart_services) evs /\
     (out.1 = Ok tt ->
        current_mode (cn out.2) = mode /\
        exists params address password,
          Forall (fun e => param_command e = true) params /\
          router_string (router (cn s)) "address" = Ok address /\
          router_string (router (cn s)) "password" = Ok password /\
          evs = params ++ [Cmd "nvram commit 2>/dev/null";
                           HttpApply address "admin" password; Sleep 5; Sync;
                           Cmd "wl radio off; wl radio on"]) /\
     (forall values address password,
        responsive env -> learned_values (router (cn s)) mode from_db values ->
        router_string (router (cn s)) "address" = Ok address ->
        router_string (router (cn s)) "password" = Ok password ->
        out.1 = Ok tt /\
        cn out.2 = {| router := router (cn s); current_mode := mode |} /\
        evs = param_events pgm from_db values deletes
              ++ [Cmd "nvram commit 2>/dev/null";
                  HttpApply address "admin" password; Sleep 5; Sync;
                  Cmd "wl radio off; wl radio on"])).
Proof.
  intros Hmode out evs.
  pose proof (role_switch_events pgm from_db deletes s mode Hmode) as [Hsame Hother].
  fold out evs in Hsame, Hother. split.
  - intros Hm. destruct (Hsame Hm) as (Hslow & Hcn & Hret).
    split; [done|]. split; [done|]. split; [done|].
    intros values Hanswers Hvalues.
    by apply (role_switch_returns pgm from_db values deletes s mode).
  - intros Hm. destruct (Hother Hm) as (Hrestart & Hret).
    split; [done|]. split; [done|].
    intros values address password Hanswers Hvalues Ha Hp.
    by apply (role_switch_returns pgm from_db values deletes s mode).
Qed.
End role_switch.

Lemma ddwrt_program_mode_fast_iff_same_mode_witness :
  (let out := ddwrt_program_mode (fun _ _ => true)
                [("wl_mode", "sta"); ("wl_ssid", "shelly1-A1B2C3")] ["sta_ifname"]
                (Some ["wl0_wpa_psk"]) sample_session in
   out.1 = Ok tt /\
   new_events sample_session out.2
   = param_events [("wl_mode", "sta"); ("wl_ssid", "shelly1-A1B2C3")] ["sta_ifname"]
       ["eth2"] (Some ["wl0_wpa_psk"])
     ++ [Cmd "nvram commit 2>/dev/null"; Cmd restart_services]) /\
  (let out := ddwrt_program_mode (fun _ _ => true)
                [("wl_mode", "ap"); ("wl_ssid", "home")] ["wan_hwaddr"]
                (Some ["wl0_vifs"]) sample_session in
   out.1 = Ok tt /\
   cn out.2 = {| router := sample_router; current_mode := "ap" |} /\
   new_events sample_session out.2
   = param_events [("wl_mode", "ap"); ("wl_ssid", "home")] ["wan_hwaddr"]
       ["00:11:22:33:44:56"] (Some ["wl0_vifs"])
     ++ [Cmd "nvram commit 2>/dev/null"; HttpApply "192.168.1.2" "admin" "pw";
         Sleep 5; Sync; Cmd "wl radio off; wl radio on"]).
Proof.
  split.
  - apply (ddwrt_program_mode_fast_iff_same_mode (fun _ _ => true)
             [("wl_mode", "sta"); ("wl_ssid", "shelly1-A1B2C3")] ["sta_ifname"]
             (Some ["wl0_wpa_psk"]) sample_session "sta" eq_refl).
    + reflexivity.
    + intros h e. reflexivity.
    + repeat constructor.
  - apply (ddwrt_program_mode_fast_iff_same_mode (fun _ _ => true)
             [("wl_mode", "ap"); ("wl_ssid", "home")] ["wan_hwaddr"]
             (Some ["wl0_vifs"]) sample_session "ap" eq_refl).
    + discriminate.
    + intros h e. reflexivity.
    + repeat constructor.
    + reflexivity.
    + reflexivity.
Defined.

(** ** Credentials that are never acknowledged *)

Section credentials.
Variables (dev_gen verbose : nat) (replies : nat -> nat -> option pyval).
Hypothesis silent : never_acknowledged dev_gen verbose replies.

Lemma push_tries_silent (i : nat) (js : list nat) :
  push_tries dev_gen verbose replies i js false = false.
Proof.
  induction js as [|j js IH]; simpl; [done|]. by rewrite silent.
Qed.

Lemma push_passes_silent (tries : nat) (passes : list nat) :
  push_passes dev_gen verbose replies tries passes = false.
Proof.
  induction passes as [|i passes IH]; simpl; [done|].
  by rewrite push_tries_silent.
Qed.

(** After five passes of [tries] tries each, [provision_device] gives up. *)
Lemma provision_device_silent (tries : nat) :
  provision_device dev_gen verbose replies tries = false.
Proof. apply push_passes_silent. Qed.
End credentials.

(** The call of [provision_device] then raises at a lookup in [cfg] or
    returns [False]. *)
Lemma provision_device_call_silent (cfg : pyval) (provision_list : bool)
    (dev_gen verbose : nat) (replies : nat -> nat -> option pyval) (tries : nat) :
  never_acknowledged dev_gen verbose replies ->
  provision_device_call cfg provision_list dev_gen verbose replies tries = Ok false \/
  exists e, provision_device_call cfg provision_list dev_gen verbose replies tries = Raise e.
Proof.
  intros Hsilent. unfold provision_device_call.
  rewrite (provision_device_silent _ _ _ Hsilent).
  destruct (static_field cfg provision_list "StaticIP") as [?|e]; [|right; by exists e].
  destruct (static_field cfg provision_list "NetMask") as [?|e]; [|right; by exists e].
  destruct (static_field cfg provision_list "Gateway") as [?|e]; [|right; by exists e].
  by left.
Qed.




(** ** The polling loop of the firmware update *)

Section ota_polling.
Variables (env : ota_env) (deadline : Z) (new_version : option string)
          (result : ota_info).

(** One pass on which the device is not updating and has not been seen
    updating, up to the tenth pass. *)
Lemma ota_wait_idle_pass (fuel passes : nat) (last : option ota_info) (r : ota_info) :
  (ota_clock env (S passes) < deadline)%Z ->
  ota_poll env (S passes) = Some r ->
  ota_status r <> "updating" ->
  S passes <= 10 ->
  ota_wait (S fuel) env deadline new_version result passes false last
    = ota_wait fuel env deadline new_version result (S passes) false (Some r).
Proof.
  intros Hc Hp Hs Hle. cbn [ota_wait].
  rewrite (proj2 (Z.ltb_lt _ _) Hc), Hp.
  destruct (String.eqb_spec (ota_status r) "updating") as [|_]; [done|].
  destruct (Nat.ltb_spec 10 (S passes)); [lia|done].
Qed.

(** One pass on which the device reports that it is updating. *)
Lemma ota_wait_updating_pass (fuel passes : nat) (seen : bool)
    (last : option ota_info) (r : ota_info) :
  (ota_clock env (S passes) < deadline)%Z ->
  ota_poll env (S passes) = Some r ->
  ota_status r = "updating" ->
  ota_wait (S fuel) env deadline new_version result passes seen last
    = ota_wait fuel env deadline new_version result (S passes) true (Some r).
Proof.
  intros Hc Hp Hs. cbn [ota_wait].
  rewrite (proj2 (Z.ltb_lt _ _) Hc), Hp, Hs. done.
Qed.

Lemma ota_wait_idle_passes (a : nat) :
  forall (fuel passes : nat) (last : option ota_info),
    passes + a <= 10 ->
    (forall k, passes < k <= passes + a -> (ota_clock env k < deadline)%Z) ->
    (forall k, passes < k <= passes + a ->
       exists r, ota_poll env k = Some r /\ ota_status r <> "updating") ->
    exists last',
      ota_wait (a + fuel) env deadline new_version result passes false last
        = ota_wait fuel env deadline new_version result (passes + a) false last'.
Proof.
  induction a as [|a IH]; intros fuel passes last Hle Hc Hp.
  - exists last. by rewrite Nat.add_0_r.
  - destruct (Hp (S passes)) as (r & Hr & Hs); [lia|].
    change (S a + fuel) with (S (a + fuel)).
    rewrite (ota_wait_idle_pass _ _ _ r); [|apply Hc; lia|done|done|lia].
    destruct (IH fuel (S passes) (Some r)) as (last' & E).
    + lia.
    + intros k Hk. apply Hc. lia.
    + intros k Hk. apply Hp. lia.
    + exists last'. rewrite E. f_equal. lia.
Qed.

Lemma ota_wait_updating_passes (m : nat) :
  forall (fuel passes : nat) (seen : bool) (last : option ota_info),
    1 <= m ->
    (forall k, passes < k <= passes + m -> (ota_clock env k < deadline)%Z) ->
    (forall k, passes < k <= passes + m ->
       exists r, ota_poll env k = Some r /\ ota_status r = "updating") ->
    exists r,
      ota_poll env (passes + m) = Some r /\
      ota_wait (m + fuel) env deadline new_version result passes seen last
        = ota_wait fuel env deadline new_version result (passes + m) true (Some r).
Proof.
  induction m as [|m IH]; intros fuel passes seen last Hm Hc Hp; [lia|].
  destruct (Hp (S passes)) as (r & Hr & Hs); [lia|].
  change (S m + fuel) with (S (m + fuel)).
  rewrite (ota_wait_updating_pass _ _ _ _ r); [|apply Hc; lia|done|done].
  destruct m as [|m].
  - exists r. replace (passes + 1) with (S passes) by lia. done.
  - destruct (IH fuel (S passes) true (Some r)) as (r' & Hr' & E).
    + lia.
    + intros k Hk. apply Hc. lia.
    + intros k Hk. apply Hp. lia.
    + exists r'. replace (passes + S (S m)) with (S passes + S m) by lia. done.
Qed.

(** Eleven passes without ever seeing the device update. *)
Lemma ota_wait_never_updating (fuel : nat) :
  11 <= fuel ->
  (forall k, 1 <= k <= 11 -> (ota_clock env k < deadline)%Z) ->
  (forall k, 1 <= k <= 11 ->
     exists r, ota_poll env k = Some r /\ ota_status r <> "updating") ->
  ota_wait fuel env deadline new_version result 0 false None = Some (Ok NeverUpdating).
Proof.
  intros Hfuel Hc Hp.
  replace fuel with (10 + (S (fuel - 11))) by lia.
  destruct (ota_wait_idle_passes 10 (S (fuel - 11)) 0 None) as (last' & ->).
  - lia.
  - intros k Hk. apply Hc. lia.
  - intros k Hk. apply Hp. lia.
  - destruct (Hp 11) as (r & Hr & Hs); [lia|].
    cbn [ota_wait Nat.add].
    rewrite (proj2 (Z.ltb_lt _ _) (Hc 11 ltac:(lia))), Hr.
    destruct (String.eqb_spec (ota_status r) "updating") as [|_]; done.
Qed.

(** Idle for at most ten passes, updating for at least one, then idle at
    version [v2], which is the version asked for if one was. *)
Lemma ota_wait_updated (fuel a m : nat) (v2 : string) :
  a <= 10 -> 1 <= m -> a + m + 1 <= fuel ->
  (forall k, 1 <= k <= a + m + 1 -> (ota_clock env k < deadline)%Z) ->
  (forall k, 1 <= k <= a ->
     exists r, ota_poll env k = Some r /\ ota_status r <> "updating") ->
  (forall k, a < k <= a + m ->
     exists r, ota_poll env k = Some r /\ ota_status r = "updating") ->
  (exists r, ota_poll env (a + m + 1) = Some r /\
             ota_status r <> "updating" /\ ota_old_version r = v2) ->
  given new_version = false \/ new_version = Some v2 ->
  version_is new_version (ota_old_version result) = false ->
  ota_wait fuel env deadline new_version result 0 false None
    = Some (Ok (Updated (ota_old_version result) v2)).
Proof.
  intros Ha Hm Hfuel Hc Hidle Hupd (r2 & Hr2 & Hs2 & Hv2) Htarget Hold.
  replace fuel with (a + (m + (S (fuel - (a + m + 1))))) by lia.
  destruct (ota_wait_idle_passes a (m + S (fuel - (a + m + 1))) 0 None)
    as (last' & ->).
  { lia. } { intros k Hk. apply Hc. lia. } { intros k Hk. apply Hidle. lia. }
  destruct (ota_wait_updating_passes m (S (fuel - (a + m + 1))) (0 + a) false last')
    as (r & _ & ->).
  { lia. } { intros k Hk. apply Hc. lia. } { intros k Hk. apply Hupd. lia. }
  cbn [ota_wait].
  replace (S (0 + a + m)) with (a + m + 1) by lia.
  rewrite (proj2 (Z.ltb_lt _ _) (Hc (a + m + 1) ltac:(lia))), Hr2.
  destruct (String.eqb_spec (ota_status r2) "updating") as [|_]; [done|].
  rewrite Hv2.
  destruct Htarget as [Hnone| ->].
  - by rewrite Hnone.
  - simpl in Hold. simpl version_is. rewrite String.eqb_refl.
    rewrite Hold. simpl. by rewrite orb_true_r.
Qed.

(** Updating on every pass until the time is up. *)
Lemma ota_wait_timed_out (fuel n : nat) :
  1 <= n -> n + 1 <= fuel ->
  (forall k, 1 <= k <= n -> (ota_clock env k < deadline)%Z) ->
  (deadline <= ota_clock env (n + 1))%Z ->
  (forall k, 1 <= k <= n ->
     exists r, ota_poll env k = Some r /\ ota_status r = "updating") ->
  exists r, ota_poll env n = Some r /\
    ota_wait fuel env deadline new_version result 0 false None
      = Some (Ok (StillHas (ota_old_version r))).
Proof.
  intros Hn Hfuel Hc Hend Hupd.
  replace fuel with (n + (S (fuel - (n + 1)))) by lia.
  destruct (ota_wait_updating_passes n (S (fuel - (n + 1))) 0 false None)
    as (r & Hr & ->).
  { lia. } { intros k Hk. apply Hc. lia. } { intros k Hk. apply Hupd. lia. }
  exists r. split; [done|]. cbn [ota_wait].
  replace (S (0 + n)) with (n + 1) by lia.
  by rewrite (proj2 (Z.ltb_ge _ _) Hend).
Qed.
End ota_polling.

(** C5. After the update was triggered (the device answered, was idle and
    not yet at the target version, took the OTA request, the version asked
    for is known, so that it can be printed, and a wait was asked for): a
    device that answers eleven polls within the time limit without ever
    reporting [updating] makes [flash_device] fail with the message that the
    status was never shown, an outcome of its own, distinct from the failure
    reported when the time runs out during the update; and a device that is
    idle for at most ten polls, then updating, then idle at version [v2]
    makes it succeed with the update from the old version to [v2], provided
    [v2] is the version asked for unless that is the empty string. *)
Theorem flash_device_polling_outcomes (env : ota_env) (ota : string) (ota_timeout : Z)
    (new_version : option string) (target : string) (result : ota_info) :
  first_info env = Some result ->
  target_version env ota new_version = Ok (Some (Some target)) ->
  target <> ota_old_version result ->
  ota_status result <> "updating" ->
  flash_sent env = true ->
  ota_timeout <> 0%Z ->
  let deadline := (ota_clock env 0 + ota_timeout)%Z in
  (forall fuel,
     11 <= fuel ->
     (forall k, 1 <= k <= 11 -> (ota_clock env k < deadline)%Z) ->
     (forall k, 1 <= k <= 11 ->
        exists r, ota_poll env k = Some r /\ ota_status r <> "updating") ->
     flash_device fuel env ota ota_timeout new_version false = Some (Ok NeverUpdating) /\
     ota_success NeverUpdating = false /\
     forall v, NeverUpdating <> StillHas v) /\
  (forall fuel n,
     1 <= n -> n + 1 <= fuel ->
     (forall k, 1 <= k <= n -> (ota_clock env k < deadline)%Z) ->
     (deadline <= ota_clock env (n + 1))%Z ->
     (forall k, 1 <= k <= n ->
        exists r, ota_poll env k = Some r /\ ota_status r = "updating") ->
     exists r, ota_poll env n = Some r /\
       flash_device fuel env ota ota_timeout new_version false
         = Some (Ok (StillHas (ota_old_version r)))) /\
  (forall fuel a m v2,
     a <= 10 -> 1 <= m -> a + m + 1 <= fuel ->
     (forall k, 1 <= k <= a + m + 1 -> (ota_clock env k < deadline)%Z) ->
     (forall k, 1 <= k <= a ->
        exists r, ota_poll env k = Some r /\ ota_status r <> "updating") ->
     (forall k, a < k <= a + m ->
        exists r, ota_poll env k = Some r /\ ota_status r = "updating") ->
     (exists r, ota_poll env (a + m + 1) = Some r /\
                ota_status r <> "updating" /\ ota_old_version r = v2) ->
     target = EmptyString \/ target = v2 ->
     flash_device fuel env ota ota_timeout new_version false
       = Some (Ok (Updated (ota_old_version result) v2)) /\
     ota_success (Updated (ota_old_version result) v2) = true).
Proof.
  intros Hfirst Htarget Hold Hidle Hsent Htimeout deadline.
  assert (Hrun : forall fuel,
            flash_device fuel env ota ota_timeout new_version false
            = ota_wait fuel env deadline (Some target) result 0 false None).
  { intros fuel. unfold flash_device. rewrite Hfirst, Htarget, Hsent.
    cbn [version_is].
    destruct (String.eqb_spec (ota_old_version result) target) as [|_]; [by subst|].
    destruct (String.eqb_spec (ota_status result) "updating") as [|_]; [done|].
    simpl. by destruct (Z.eqb_spec ota_timeout 0). }
  split; [|split].
  - intros fuel Hfuel Hc Hp. rewrite Hrun.
    split; [by apply ota_wait_never_updating|]. split; [done|]. by intros v.
  - intros fuel n Hn Hfuel Hc Hend Hupd.
    destruct (ota_wait_timed_out env deadline (Some target) result fuel n)
      as (r & Hr & E); try done.
    exists r. by rewrite Hrun.
  - intros fuel a m v2 Ha Hm Hfuel Hc Hp Hupd Hlast Hv. rewrite Hrun.
    split; [|done].
    apply (ota_wait_updated env deadline (Some target) result fuel a m); try done.
    + destruct Hv as [-> | ->]; [by left|by right].
    + cbn [version_is]. by destruct (String.eqb_spec (ota_old_version result) target).
Qed.

(** When the version asked for is not known (an OTA address whose firmware
    could not be read), the message that names the new version cannot be
    built: [flash_device] raises after the OTA request was sent, and no poll
    is made. *)
Lemma flash_device_unknown_version (env : ota_env) (ota : string) (ota_timeout : Z)
    (result : ota_info) (fuel : nat) :
  first_info env = Some result ->
  ota <> "LATEST" ->
  ota_status result <> "updating" ->
  flash_sent env = true ->
  flash_device fuel env ota ota_timeout None false = Some (Raise TypeError).
Proof.
  intros Hfirst Hota Hidle Hsent. unfold flash_device, target_version.
  rewrite Hfirst, Hsent. cbn [given negb andb version_is].
  destruct (String.eqb_spec ota "LATEST") as [|_]; [done|].
  by destruct (String.eqb_spec (ota_status result) "updating").
Qed.

Lemma flash_device_polling_outcomes_witness :
  flash_device 20 idle_device "http://fw/v2.zip" 360 (Some "v2") false
    = Some (Ok NeverUpdating) /\
  flash_device 20 updating_device "http://fw/v2.zip" 360 (Some "v2") false
    = Some (Ok (Updated "v1" "v2")).
Proof.
  split.
  - refine (proj1 (proj1 (flash_device_polling_outcomes idle_device "http://fw/v2.zip" 360
              (Some "v2") "v2" {| ota_status := "idle"; ota_old_version := "v1" |}
              eq_refl eq_refl _ _ eq_refl _) 20 _ _ _)).
    + discriminate.
    + discriminate.
    + discriminate.
    + lia.
    + intros k Hk. simpl. lia.
    + intros k Hk. eexists. split; [reflexivity|discriminate].
  - refine (proj1 (proj2 (proj2 (flash_device_polling_outcomes updating_device
              "http://fw/v2.zip" 360 (Some "v2") "v2"
              {| ota_status := "idle"; ota_old_version := "v1" |}
              eq_refl eq_refl _ _ eq_refl _)) 20 1 2 "v2" _ _ _ _ _ _ _ _)).
    + discriminate.
    + discriminate.
    + discriminate.
    + lia.
    + lia.
    + lia.
    + intros k Hk. simpl. lia.
    + intros k Hk. assert (k = 1) as -> by lia.
      eexists. split; [reflexivity|discriminate].
    + intros k Hk. assert (k = 2 \/ k = 3) as [-> | ->] by lia;
        (eexists; split; reflexivity).
    + eexists. split; [reflexivity|]. split; [discriminate|reflexivity].
    + by right.
Defined.

(** ** The selection predicate *)

Lemma in_list_elem_of (x : string) (l : list string) :
  in_list x l = true <-> x ∈ l.
Proof.
  unfold in_list. induction l as [|y l IH]; simpl.
  - split; [done|]. by intros H%elem_of_nil.
  - rewrite orb_true_iff, IH, elem_of_cons.
    destruct (String.eqb_spec x y) as [->|Hne].
    + split; intros _; by left.
    + split; (intros [H|H]; [done|by right]).
Qed.

Lemma check_conditions_true (rec : flat) (query_conditions : list (list string)) :
  check_conditions rec query_conditions = Ok true <-> conditions_hold rec query_conditions.
Proof.
  unfold conditions_hold.
  induction query_conditions as [|q qs IH]; simpl.
  - split; [by constructor|done].
  - rewrite Forall_cons. destruct q as [|name [|value rest]].
    + split; [done|]. by intros [(? & ? & ? & ? & ?) _].
    + destruct (sget name rec); (split; [done|]); by intros [(? & ? & ? & ? & ?) _].
    + destruct (sget name rec) as [v|] eqn:E.
      * destruct (String.eqb_spec v value) as [->|Hne].
        -- rewrite IH. split; [|by intros [_ ?]].
           intros H. split; [|done]. by exists name, value, rest.
        -- split; [done|]. intros [(n & v' & r' & Heq & Hv) _].
           inversion Heq; subst. congruence.
      * split; [done|]. intros [(n & v' & r' & Heq & Hv) _].
        inversion Heq; subst. congruence.
Qed.

Lemma given_Some (o : option string) :
  given o = true -> exists s, o = Some s /\ s <> "".
Proof.
  destruct o as [s|]; simpl; [|done].
  destruct (String.eqb_spec s ""); [done|]. intros _. by exists s.
Qed.

Lemma tag_filter_passes (rec : flat) (match_tag : option string) :
  given match_tag &&
    match sget "Tags" rec with
    | None => true
    | Some tags => negb (in_list (default EmptyString match_tag) (split_on comma tags))
    end = false
  <-> tag_matches rec match_tag.
Proof.
  unfold tag_matches. destruct (given match_tag) eqn:Ht; simpl.
  2:{ split; [by intros _ ?|done]. }
  apply given_Some in Ht as (t & -> & Ht). simpl.
  destruct (sget "Tags" rec) as [tags|].
  - rewrite negb_false_iff, in_list_elem_of. split.
    + intros Hin _. by exists t, tags.
    + intros H. destruct H as (t' & tags' & [= <-] & [= <-] & Hin); done.
  - split; [done|]. intros H. by destruct H as (? & ? & ? & ? & ?).
Qed.

Lemma group_filter_passes (rec : flat) (group : option string) :
  given group &&
    match sget "Group" rec with
    | None => true
    | Some g => negb (String.eqb g (default EmptyString group))
    end = false
  <-> group_matches rec group.
Proof.
  unfold group_matches. destruct (given group) eqn:Hg; simpl.
  2:{ split; [by intros _ ?|done]. }
  apply given_Some in Hg as (g & -> & Hg). simpl.
  destruct (sget "Group" rec) as [g'|].
  - rewrite negb_false_iff. destruct (String.eqb_spec g' g) as [->|Hne].
    + split; [|done]. intros _ _. by exists g.
    + split; [done|]. intros H. destruct H as (g0 & [= <-] & [= ->]); done.
  - split; [done|]. intros H. by destruct H as (? & ? & ?).
Qed.

Lemma access_filter_passes (rec : flat) (access : string) :
  (if negb (String.eqb access "ALL")
   then negb (negb (String.eqb
                      match sget "Access" rec with None => "Continuous" | Some a => a end
                      access))
   else true) = true
  <-> access_matches rec access.
Proof.
  unfold access_matches. destruct (String.eqb_spec access "ALL") as [->|Hne]; simpl.
  - split; [intros _; by left|done].
  - rewrite negb_involutive. destruct (sget "Access" rec) as [a|]; simpl.
    + destruct (String.eqb_spec a access); split; try done;
        [intros _; by right|by intros [|]].
    + destruct (String.eqb_spec "Continuous" access); split; try done;
        [intros _; by right|by intros [|]].
Qed.

(** The full characterisation, with the device filter that [apply
    --restore-device] adds. *)
Lemma match_rec_true (rec : flat) (query_conditions : list (list string))
    (match_tag group restore_device : option string) (access : string) :
  match_rec rec query_conditions match_tag group restore_device access = Ok true <->
  conditions_hold rec query_conditions /\ tag_matches rec match_tag /\
  group_matches rec group /\ restore_matches rec restore_device /\
  access_matches rec access.
Proof.
  unfold match_rec.
  rewrite <- check_conditions_true, <- tag_filter_passes, <- group_filter_passes,
    <- access_filter_passes.
  destruct (check_conditions rec query_conditions) as [[|]|e]; simpl;
    [|by split; [|intros [? _]]..].
  destruct (given match_tag && _); [by split; [|intros (_ & ? & _)]|].
  destruct (given group && _); [by split; [|intros (_ & _ & ? & _)]|].
  unfold restore_matches.
  set (beta := negb (String.eqb _ access)).
  assert (Hfin : forall w : bool,
            (if w then Ok false
             else if negb (String.eqb access "ALL")
                  then if beta then Ok false else Ok true
                  else Ok true) = Ok true
            <-> w = false /\
                (if negb (String.eqb access "ALL") then negb beta else true) = true).
  { clearbody beta. intros [|]; destruct (String.eqb access "ALL"), beta; simpl; split;
      try done; intros H; by destruct H. }
  destruct (given restore_device) eqn:Hr; simpl.
  - apply given_Some in Hr as (d & -> & Hd). simpl.
    destruct (String.eqb_spec d "ALL") as [->|Hne]; simpl.
    + rewrite (Hfin false). split.
      * intros [_ H]. repeat (split; [done|]). done.
      * intros (_ & _ & _ & _ & H). done.
    + destruct (sget "ID" rec) as [id|]; simpl.
      * rewrite Hfin, negb_false_iff. destruct (String.eqb_spec d id) as [->|Hne'].
        -- split.
           ++ intros [_ H]. repeat (split; [done|]). done.
           ++ intros (_ & _ & _ & _ & H). done.
        -- split; [by intros [? _]|]. intros (_ & _ & _ & H & _).
           specialize (H eq_refl ltac:(congruence)). congruence.
      * split; [done|]. intros (_ & _ & _ & H & _).
        specialize (H eq_refl ltac:(congruence)). done.
  - rewrite (Hfin false). split.
    + intros [_ H]. repeat (split; [done|]). done.
    + intros (_ & _ & _ & _ & H). done.
Qed.

(** C4. For a query, which names no device to restore, [match_rec] selects
    a flat record exactly when every name=value condition holds on it, the
    tag filter, if given, is one of the comma-separated items of its [Tags],
    the group filter, if given, is its [Group], and the access filter is
    [ALL] or equals its [Access], taken as [Continuous] when absent.  Of
    three records tagged [A], [B] and [A,B], the tag filter [A] selects the
    first and the third. *)
Theorem match_rec_selects (rec : flat) (query_conditions : list (list string))
    (match_tag group : option string) (access : string) :
  (match_rec rec query_conditions match_tag group None access = Ok true <->
   conditions_hold rec query_conditions /\ tag_matches rec match_tag /\
   group_matches rec group /\ access_matches rec access) /\
  (forall r1 r2 r3 : flat,
     sget "Tags" r1 = Some "A" -> sget "Tags" r2 = Some "B" ->
     sget "Tags" r3 = Some "A,B" ->
     List.filter (selected [] (Some "A") None None "ALL") [r1; r2; r3] = [r1; r3]).
Proof.
  split.
  - rewrite match_rec_true. split.
    + intros (? & ? & ? & _ & ?). done.
    + intros (H1 & H2 & H3 & H4).
      split; [done|]. split; [done|]. split; [done|]. split; [by intros ?|done].
  - intros r1 r2 r3 H1 H2 H3. unfold selected, match_rec. simpl.
    by rewrite H1, H2, H3.
Qed.

Lemma match_rec_selects_witness :
  match_rec [("ID", "98CDAC1E3126"); ("Tags", "A,B"); ("Group", "garden")]
    [["ID"; "98CDAC1E3126"]] (Some "B") (Some "garden") None "Continuous" = Ok true /\
  List.filter (selected [] (Some "A") None None "ALL")
    [[("Tags", "A")]; [("Tags", "B")]; [("Tags", "A,B")]]
  = [[("Tags", "A")]; [("Tags", "A,B")]].
Proof.
  split.
  - apply (proj1 (match_rec_selects
                    [("ID", "98CDAC1E3126"); ("Tags", "A,B"); ("Group", "garden")]
                    [["ID"; "98CDAC1E3126"]] (Some "B") (Some "garden") "Continuous")).
    split; [|split; [|split]].
    + repeat constructor. by exists "ID", "98CDAC1E3126", [].
    + intros _. exists "B", "A,B". repeat split.
      apply in_list_elem_of. reflexivity.
    + intros _. by exists "garden".
    + by right.
  - apply (proj2 (match_rec_selects [] [] None None "ALL")); reflexivity.
Defined.

(** ** The device queue *)

Lemma is_completed_skipped (group ssid : option string) (rec : pyval) :
  is_completed rec = Ok true -> queue_skips group ssid rec <> Ok false.
Proof.
  intros Hc. unfold queue_skips. rewrite Hc.
  destruct (py_in "ConfigInput" rec) as [[|]|e]; simpl; [|done..].
  by destruct (py_getitem rec "ConfigInput").
Qed.

Lemma not_skipped_not_completed (group ssid : option string) (rec : pyval) :
  queue_skips group ssid rec = Ok false -> is_completed rec = Ok false.
Proof.
  unfold queue_skips.
  destruct (py_in "ConfigInput" rec) as [[|]|e]; simpl; [|done..].
  destruct (py_getitem rec "ConfigInput"); simpl; [|done].
  by destruct (is_completed rec) as [[|]|e].
Qed.

(** Recording the start time does not complete an entry. *)
Lemma mark_in_progress_not_completed (now : Z) (rec rec' : pyval) :
  is_completed rec = Ok false ->
  mark_in_progress now rec = Ok rec' ->
  is_completed rec' = Ok false.
Proof.
  unfold mark_in_progress, is_completed.
  destruct rec as [| | | s | l | fields]; simpl; try done.
  - by destruct (is_substring "ConfigStatus" s).
  - by destruct (existsb _ l).
  - unfold dict_in. destruct (sget "ConfigStatus" fields) as [status|] eqn:Es; simpl.
    + rewrite Es. simpl.
      destruct status as [| | | | | sf]; simpl; try done.
      intros Hc [= <-]. simpl. unfold dict_in. rewrite sget_sset_eq. simpl.
      unfold dict_in in *. by rewrite sget_sset_ne.
    + intros _. unfold dict_in. rewrite sget_sset_eq. simpl.
      intros [= <-]. simpl. unfold dict_in. rewrite sget_sset_eq. done.
Qed.

Section one_pass.
Variables (clock : nat -> Z) (body : consumer) (group ssid : option string).

(** Every record handed to the caller lacks [CompletedTime]. *)
Lemma provision_list_from_yields (todo : nat) :
  forall (i : nat) (queue : list pyval) (log : list (nat * pyval)),
    Forall (fun y => is_completed y.2 = Ok false) log ->
    Forall (fun y => is_completed y.2 = Ok false)
      (yielded (provision_list_from clock body group ssid todo i queue log)).
Proof.
  induction todo as [|todo IH]; intros i queue log Hlog; simpl; [done|].
  destruct (queue !! i) as [rec|]; [|done].
  destruct (queue_skips group ssid rec) as [[|]|e] eqn:Eskip; [by apply IH| |done].
  destruct (mark_in_progress (clock (length log)) rec) as [rec1|e] eqn:Emark; [|done].
  assert (Hlog' : Forall (fun y => is_completed y.2 = Ok false) (log ++ [(i, rec1)])).
  { apply Forall_app. split; [done|]. constructor; [|done]. simpl.
    eapply mark_in_progress_not_completed; [|exact Emark].
    by eapply not_skipped_not_completed. }
  destruct (body i rec1) as [rec' [|]]; [by apply IH|done].
Qed.

(** A completed entry stays as it is and is not handed out. *)
Lemma provision_list_from_completed (N : nat) (rec : pyval) (todo : nat) :
  is_completed rec = Ok true ->
  forall (i : nat) (queue : list pyval) (log : list (nat * pyval)),
    queue !! N = Some rec ->
    N ∉ log.*1 ->
    let st := provision_list_from clock body group ssid todo i queue log in
    queue_after st !! N = Some rec /\ N ∉ (yielded st).*1.
Proof.
  intros Hc. induction todo as [|todo IH]; intros i queue log HN Hlog; simpl; [done|].
  destruct (queue !! i) as [rec_i|] eqn:Ei; [|done].
  destruct (queue_skips group ssid rec_i) as [[|]|e] eqn:Eskip; [by apply IH| |done].
  destruct (mark_in_progress (clock (length log)) rec_i) as [rec1|e]; [|done].
  assert (i <> N) as Hne.
  { intros ->. rewrite HN in Ei. injection Ei as <-.
    by apply (is_completed_skipped group ssid) in Hc. }
  assert (Hlog' : N ∉ (log ++ [(i, rec1)]).*1).
  { rewrite fmap_app. simpl. rewrite elem_of_app, list_elem_of_singleton.
    intros [?|?]; [done|congruence]. }
  destruct (body i rec1) as [rec' [|]]; simpl.
  - apply IH; [|done]. by rewrite list_lookup_insert_ne.
  - split; [|done]. by rewrite list_lookup_insert_ne.
Qed.
End one_pass.

(** C1. Over any number of runs of the provision-list pass on one queue,
    each with any caller, clock and filters and each left at any point
    (finished, interrupted or failed): every record handed to a caller lacks
    [ConfigStatus.CompletedTime] when it is handed out, and an entry that has
    [ConfigStatus.CompletedTime] in the queue at the start is never handed
    out and is the same record in the queue at the end. *)
Theorem completed_entries_are_never_reprocessed (runs : list run)
    (device_queue : list pyval) :
  let out := restart_runs runs device_queue in
  (forall log i r, log ∈ out.2 -> (i, r) ∈ log -> is_completed r = Ok false) /\
  (forall N rec,
     device_queue !! N = Some rec ->
     is_completed rec = Ok true ->
     out.1 !! N = Some rec /\ forall log, log ∈ out.2 -> N ∉ log.*1).
Proof.
  revert device_queue. induction runs as [|r runs IH]; intros device_queue; simpl.
  - split.
    + intros log i rec H. by apply elem_of_nil in H.
    + intros N rec HN Hc. split; [done|]. intros log H. by apply elem_of_nil in H.
  - set (st := read_device_queue (run_clock r) (run_body r) (run_group r) (run_ssid r)
                 device_queue).
    specialize (IH (queue_after st)).
    destruct (restart_runs runs (queue_after st)) as [q logs]. simpl in *.
    destruct IH as [IHy IHc]. split.
    + intros log i rec [->|Hin]%elem_of_cons Hi; [|by eapply IHy].
      pose proof (provision_list_from_yields (run_clock r) (run_body r) (run_group r)
                    (run_ssid r) (length device_queue) 0 device_queue [] (Forall_nil_2 _))
        as Hy.
      rewrite Forall_forall in Hy. apply (Hy (i, rec)). done.
    + intros N rec HN Hc.
      destruct (provision_list_from_completed (run_clock r) (run_body r) (run_group r)
                  (run_ssid r) N rec (length device_queue) Hc 0 device_queue [] HN)
        as [Hq Hl].
      { simpl. apply not_elem_of_nil. }
      destruct (IHc N rec Hq Hc) as [Hq' Hl'].
      split; [done|]. intros log [->|Hin]%elem_of_cons; [done|by apply Hl'].
Qed.

Lemma completed_entries_are_never_reprocessed_witness :
  (restart_runs [interrupted_run; full_run; full_run] sample_queue).1 !! 0
    = sample_queue !! 0 /\
  Forall (fun log => 0 ∉ log.*1)
    (restart_runs [interrupted_run; full_run; full_run] sample_queue).2.
Proof.
  destruct (proj2 (completed_entries_are_never_reprocessed
                     [interrupted_run; full_run; full_run] sample_queue)
              0 _ eq_refl eq_refl) as [Hq Hl].
  split; [exact Hq|]. apply Forall_forall. exact Hl.
Defined.

(** ** Column resolution *)

Section columns.
Variable guide : guide_t.

Lemma map_column_same (q : string) (column_map : list (string * string)) :
  sget q (map_column guide q column_map)
  = match last (candidates guide q) with
    | Some g => Some g
    | None => sget q column_map
    end.
Proof.
  unfold map_column, candidates. revert column_map.
  induction guide as [|[g cov] rest IH]; intros column_map; simpl; [done|].
  rewrite IH. destruct (ends_with g ("." +:+ q)); simpl; [|done].
  destruct (List.filter _ (map fst rest)) as [|g' l] eqn:E; simpl.
  - by rewrite sget_sset_eq.
  - by destruct (last (g' :: l)) eqn:El; [|apply last_None in El].
Qed.

Lemma map_column_other (q q' : string) (column_map : list (string * string)) :
  q <> q' -> sget q' (map_column guide q column_map) = sget q' column_map.
Proof.
  intros Hne. unfold map_column. revert column_map.
  induction guide as [|[g cov] rest IH]; intros column_map; simpl; [done|].
  rewrite IH. destruct (ends_with g ("." +:+ q)); [|done].
  by rewrite sget_sset_ne.
Qed.

Lemma build_column_map_from (q : string) (query_columns : list string)
    (column_map : list (string * string)) :
  sget q column_map = None ->
  sget q (fold_left
            (fun cm q => if negb (sin q guide) then map_column guide q cm else cm)
            query_columns column_map)
  = if in_list q query_columns && negb (sin q guide)
    then last (candidates guide q) else None.
Proof.
  revert column_map.
  induction query_columns as [|q0 qs IH]; intros column_map Hcm; simpl; [done|].
  destruct (String.eqb_spec q q0) as [<-|Hne]; simpl.
  - destruct (sin q guide) eqn:Hin; simpl.
    + rewrite IH by done. by rewrite andb_false_r.
    + destruct (last (candidates guide q)) as [g|] eqn:El.
      * clear IH. assert (Hg : sget q (map_column guide q column_map) = Some g)
          by (by rewrite map_column_same, El).
        revert Hg. generalize (map_column guide q column_map). clear Hcm.
        induction qs as [|q1 qs IHq]; intros cm Hg; simpl; [done|].
        apply IHq. destruct (negb (sin q1 guide)); [|done].
        destruct (decide (q1 = q)) as [->|Hne].
        -- by rewrite map_column_same, El.
        -- by rewrite map_column_other.
      * rewrite IH; [by destruct (in_list q qs)|].
        by rewrite map_column_same, El.
  - apply IH. destruct (negb (sin q0 guide)); [|done].
    by rewrite map_column_other.
Qed.

(** What [resolve_columns] makes of every column name. *)
Lemma resolve_columns_each (query_columns : list string) :
  resolve_columns guide query_columns
  = map (fun q => if sin q guide then q
                  else default q (last (candidates guide q))) query_columns.
Proof.
  unfold resolve_columns, build_column_map. apply map_ext_in. intros q Hq.
  rewrite build_column_map_from by done.
  assert (in_list q query_columns = true) as ->.
  { apply in_list_elem_of. by apply list_elem_of_In. }
  simpl. destruct (sin q guide); simpl; [done|].
  by destruct (last (candidates guide q)).
Qed.
End columns.

(** C2, as the code has it. A column name that is a key of the guide is kept
    as it is.  A name that is not is replaced by a key of the guide that ends
    in a dot and the name, when there is one: the only one when there is just
    one, and otherwise one of them, taken without any report of the others
    (the last in the guide's order); it is kept when there is none. *)
Theorem resolve_columns_picks_one (guide : guide_t) (query_columns : list string) :
  resolve_columns guide query_columns
  = map (fun q => if sin q guide then q
                  else default q (last (candidates guide q))) query_columns /\
  (forall q g, candidates guide q = [g] -> default q (last (candidates guide q)) = g) /\
  (forall q, candidates guide q <> [] ->
             default q (last (candidates guide q)) ∈ candidates guide q).
Proof.
  split; [apply resolve_columns_each|]. split.
  - intros q g ->. done.
  - intros q Hne. destruct (last (candidates guide q)) as [g|] eqn:El; simpl.
    + apply last_Some in El as [l ->]. apply elem_of_app. right. by left.
    + by apply last_None in El.
Qed.

(** C2 as stated fails: with the two paths [settings.alt_modes.0] and
    [settings.schedule_rules.0] in the guide, the name [0] is not a key of
    the guide, both paths end in it, and the query goes on with
    [settings.alt_modes.0] alone. *)
Lemma resolve_columns_ambiguous_counterexample :
  match query_flatten_db sample_db [] [] with
  | Ok (guide, _) =>
      sin "0" guide = false /\
      candidates guide "0" = ["settings.schedule_rules.0"; "settings.alt_modes.0"] /\
      resolve_columns guide ["ID"; "0"] = ["ID"; "settings.alt_modes.0"]
  | Raise _ => False
  end.
Proof. vm_compute. done. Qed.

(** ** Tag edits *)

Lemma split_on_free (c : ascii) (s : string) :
  mem_char c s = false -> split_on c s = [s].
Proof.
  induction s as [|a s IH]; simpl; [done|].
  rewrite Ascii.eqb_sym. destruct (Ascii.eqb c a); simpl; [done|].
  intros H. by rewrite IH.
Qed.

Lemma split_on_app (c : ascii) (x s : string) :
  mem_char c x = false ->
  split_on c (x +:+ String c s) = x :: split_on c s.
Proof.
  induction x as [|a x IH]; simpl.
  - by rewrite Ascii.eqb_refl.
  - rewrite Ascii.eqb_sym. destruct (Ascii.eqb c a); simpl; [done|].
    intros H. by rewrite IH.
Qed.

Lemma split_on_items_free (c : ascii) (s : string) :
  Forall (fun w => mem_char c w = false) (split_on c s).
Proof.
  induction s as [|a s IH]; simpl.
  - by repeat constructor.
  - destruct (Ascii.eqb a c) eqn:E.
    + by constructor.
    + destruct (split_on c s) as [|w ws].
      * constructor; [|done]. simpl. by rewrite E.
      * inversion IH; subst. constructor; [|done]. simpl. by rewrite E.
Qed.

Lemma split_on_join (l : list string) :
  l <> [] ->
  Forall (fun w => mem_char comma w = false) l ->
  split_on comma (join "," l) = l.
Proof.
  induction l as [|x l IH]; [done|]. intros _ Hfree.
  inversion Hfree as [|? ? Hx Hl]; subst.
  destruct l as [|y l]; simpl.
  - by apply split_on_free.
  - change ("," +:+ ?s) with (String comma s).
    rewrite split_on_app by done. f_equal. by apply IH.
Qed.

Lemma join_empty (l : list string) :
  join "," l = EmptyString -> l = [] \/ l = [EmptyString].
Proof.
  destruct l as [|x [|y l]]; simpl.
  - by left.
  - intros ->. by right.
  - by destruct x.
Qed.

(** Reading back a list of comma-free items that was stored joined. *)
Lemma old_tags_of_join (l : list string) (data : flat) :
  Forall (fun w => mem_char comma w = false) l ->
  filter (fun t => t <> EmptyString) (old_tags_of (sset "Tags" (join "," l) data))
  = filter (fun t => t <> EmptyString) l.
Proof.
  intros Hfree. unfold old_tags_of. rewrite sget_sset_eq.
  destruct (String.eqb_spec (join "," l) EmptyString) as [E|E].
  - by destruct (join_empty l E) as [-> | ->].
  - rewrite split_on_join; [done| |done]. by intros ->.
Qed.

Lemma tag_set_old_tags (data : flat) (x : string) :
  x ∈ tag_set data <-> x <> EmptyString /\ x ∈ old_tags_of data.
Proof.
  unfold tag_set. by rewrite elem_of_list_to_set, list_elem_of_filter.
Qed.

Lemma old_tags_free (data : flat) :
  Forall (fun w => mem_char comma w = false) (old_tags_of data).
Proof.
  unfold old_tags_of. destruct (sget "Tags" data) as [tags|]; [|done].
  destruct (String.eqb tags EmptyString); [done|]. apply split_on_items_free.
Qed.

Section tag_edits.
Variable set_iter : gset string -> list string.
Hypothesis order : set_order set_iter.

(** The tags of a record whose [Tags] was set from a set of comma-free
    items. *)
Lemma tag_set_stored (s : gset string) (data : flat) (x : string) :
  (forall w, w ∈ s -> mem_char comma w = false) ->
  x ∈ tag_set (sset "Tags" (join "," (set_iter s)) data)
  <-> x <> EmptyString /\ x ∈ s.
Proof.
  intros Hfree. unfold tag_set.
  rewrite old_tags_of_join.
  - rewrite elem_of_list_to_set, list_elem_of_filter.
    by rewrite (order s), elem_of_elements.
  - apply Forall_forall. intros w Hw. apply Hfree.
    by rewrite (order s), elem_of_elements in Hw.
Qed.

Lemma edit_tags_set_only (t : string) (delete_tag : option string) (data : flat) :
  given (Some t) = true -> given delete_tag = false ->
  edit_tags set_iter (Some t) delete_tag data
  = sset "Tags" (join "," (set_iter (list_to_set (old_tags_of data) ∪ {[ t ]}))) data.
Proof.
  intros Ht Hd. unfold edit_tags. rewrite Ht.
  destruct delete_tag as [d|]; [|done]. by rewrite Hd.
Qed.

Lemma edit_tags_delete (set_tag : option string) (t : string) (data : flat) :
  given (Some t) = true ->
  exists data',
    edit_tags set_iter set_tag (Some t) data
    = sset "Tags" (join "," (set_iter (list_to_set (old_tags_of data) ∖ {[ t ]}))) data'.
Proof.
  intros Ht. unfold edit_tags. rewrite Ht. eauto.
Qed.

(** With [--delete-tag t] the tags afterwards are the old tags without
    [t], whether [--set-tag] is given or not. *)
Lemma tag_set_after_delete (set_tag : option string) (t : string) (data : flat) :
  given (Some t) = true ->
  tag_set (edit_tags set_iter set_tag (Some t) data) = tag_set data ∖ {[ t ]}.
Proof.
  intros Ht. destruct (edit_tags_delete set_tag t data Ht) as [data0 ->].
  apply set_eq. intros x. rewrite tag_set_stored.
  - rewrite !elem_of_difference, !elem_of_singleton, elem_of_list_to_set,
      tag_set_old_tags. tauto.
  - intros w [Hw _]%elem_of_difference.
    apply elem_of_list_to_set in Hw.
    pose proof (old_tags_free data) as Hf. rewrite Forall_forall in Hf. auto.
Qed.

(** With [--set-tag t] alone, [t] a tag (no comma in it), the tags
    afterwards are the old tags and [t]. *)
Lemma tag_set_after_set (t : string) (delete_tag : option string) (data : flat) :
  given (Some t) = true -> given delete_tag = false -> mem_char comma t = false ->
  tag_set (edit_tags set_iter (Some t) delete_tag data) = tag_set data ∪ {[ t ]}.
Proof.
  intros Ht Hd Hfree. rewrite edit_tags_set_only by done.
  assert (Hne : t <> EmptyString).
  { simpl in Ht. by destruct (String.eqb_spec t EmptyString). }
  apply set_eq. intros x. rewrite tag_set_stored.
  - rewrite !elem_of_union, !elem_of_singleton, elem_of_list_to_set,
      tag_set_old_tags.
    split; [intros [? [?| ->]]; auto|intros [[? ?]| ->]; auto].
  - intros w [Hw| ->%elem_of_singleton]%elem_of_union; [|done].
    apply elem_of_list_to_set in Hw.
    pose proof (old_tags_free data) as Hf. rewrite Forall_forall in Hf. auto.
Qed.

(** On the flat map of one run, when one option only is given: with
    [--set-tag t] the tags afterwards are the old tags and [t], so nothing
    changes when the record already carries [t]; with [--delete-tag t] they
    are the old tags without [t], so nothing changes when the record does
    not carry [t]. *)
Lemma edit_tags_one_option (set_tag delete_tag : option string)
    (t : string) (data : flat) :
  let data' := edit_tags set_iter set_tag delete_tag data in
  (set_tag = Some t -> given set_tag = true -> given delete_tag = false ->
   mem_char comma t = false ->
     tag_set data' = tag_set data ∪ {[ t ]} /\
     (t ∈ tag_set data -> tag_set data' = tag_set data)) /\
  (delete_tag = Some t -> given delete_tag = true ->
     tag_set data' = tag_set data ∖ {[ t ]} /\
     (t ∉ tag_set data -> tag_set data' = tag_set data)).
Proof.
  simpl. split.
  - intros -> Ht Hd Hfree.
    pose proof (tag_set_after_set t delete_tag data Ht Hd Hfree) as Hun.
    split; [done|]. intros Hin. rewrite Hun. apply set_eq. intros x.
    rewrite elem_of_union, elem_of_singleton. split; [by intros [?| ->]|by left].
  - intros -> Ht. pose proof (tag_set_after_delete set_tag t data Ht) as Hdiff.
    split; [done|]. intros Hin. rewrite Hdiff. apply set_eq. intros x.
    rewrite elem_of_difference, elem_of_singleton. split; [by intros [? _]|].
    intros Hx. split; [done|]. by intros ->.
Qed.
End tag_edits.

(** With both options the second assignment, made from the old tags again,
    replaces the first: the tag to set is not added. *)
Lemma edit_tags_set_and_delete (set_iter : gset string -> list string) :
  set_order set_iter ->
  tag_set (edit_tags set_iter (Some "a") (Some "b") [("ID", "98CDAC1E3126"); ("Tags", "c")])
  = {[ "c" ]}.
Proof.
  intros order.
  rewrite (tag_set_after_delete set_iter order (Some "a") "b") by done.
  apply set_eq. intros x.
  rewrite elem_of_difference, !elem_of_singleton, tag_set_old_tags.
  change (old_tags_of [("ID", "98CDAC1E3126"); ("Tags", "c")]) with ["c"].
  rewrite list_elem_of_singleton. split.
  - by intros [[_ ->] _].
  - intros ->. done.
Qed.

(** The edited [Tags] is what [query] stores in the registry record. *)
Lemma query_retag_stores (set_iter : gset string -> list string)
    (set_tag delete_tag : option string) (data data' : flat)
    (device_db device_db' : list (string * pyval)) :
  given set_tag || given delete_tag = true ->
  query_retag set_iter set_tag delete_tag data device_db = Ok (data', device_db') ->
  data' = edit_tags set_iter set_tag delete_tag data /\
  exists id tags fields,
    sget "ID" data' = Some id /\ sget "Tags" data' = Some tags /\
    sget id device_db' = Some (PDict fields) /\ sget "Tags" fields = Some (PStr tags).
Proof.
  intros Hg. unfold query_retag. rewrite Hg.
  set (d := edit_tags set_iter set_tag delete_tag data).
  destruct (sget "ID" d) as [id|] eqn:Eid; [|done].
  destruct (sget id device_db) as [rec|]; [|done].
  destruct (sget "Tags" d) as [tags|] eqn:Et; [|done].
  destruct rec as [| | | | | fields]; simpl; try done.
  intros [= <- <-]. split; [done|].
  exists id, tags, (sset "Tags" (PStr tags) fields).
  by rewrite Eid, Et, !sget_sset_eq.
Qed.

(** *** What [query] stores *)

Lemma sset_absent {V : Type} (k : string) (v : V) (d : list (string * V)) :
  sget k d = None -> sset k v d = d ++ [(k, v)].
Proof.
  induction d as [|[k0 v0] d IH]; simpl; [done|].
  destruct (String.eqb k0 k); [done|]. intros H. by rewrite IH.
Qed.

Lemma edit_tags_other (set_iter : gset string -> list string)
    (set_tag delete_tag : option string) (data : flat) (k : string) :
  k <> "Tags" ->
  sget k (edit_tags set_iter set_tag delete_tag data) = sget k data.
Proof.
  intros Hk. unfold edit_tags.
  destruct delete_tag as [t|], set_tag as [t'|]; simpl;
    repeat match goal with |- context [if ?b then _ else _] => destruct b end;
    rewrite ?sget_sset_ne; done.
Qed.

(** A tag edit on a record of the registry returns, and stores the edited
    [Tags] as a field of the record. *)
Lemma query_retag_returns (set_iter : gset string -> list string)
    (set_tag delete_tag : option string) (data : flat)
    (device_db : list (string * pyval)) (id : string) (fields : list (string * pyval)) :
  given set_tag || given delete_tag = true ->
  sget "ID" data = Some id ->
  sget id device_db = Some (PDict fields) ->
  exists tags,
    sget "Tags" (edit_tags set_iter set_tag delete_tag data) = Some tags /\
    query_retag set_iter set_tag delete_tag data device_db
    = Ok (edit_tags set_iter set_tag delete_tag data,
          sset id (PDict (sset "Tags" (PStr tags) fields)) device_db).
Proof.
  intros Hg Hid Hrec.
  assert (Htags : exists tags,
            sget "Tags" (edit_tags set_iter set_tag delete_tag data) = Some tags).
  { unfold edit_tags.
    destruct delete_tag as [d|], set_tag as [t|]; cbn [given orb] in Hg |- *;
      repeat match goal with
             | |- context [if ?b then _ else _] => destruct b eqn:?
             end;
      rewrite ?sget_sset_eq; try done; by eexists. }
  destruct Htags as [tags Htags]. exists tags. split; [done|].
  unfold query_retag. rewrite Hg, edit_tags_other, Hid, Hrec, Htags by done. done.
Qed.

(** The tags of a flat record are those of its [Tags] entry. *)
Lemma tag_set_of_tags (data : flat) (tags : string) :
  sget "Tags" data = Some tags -> tag_set data = tag_set [("Tags", tags)].
Proof. intros H. unfold tag_set, old_tags_of. by rewrite H. Qed.

(** ** Induction over Python values, as [flatten] recurses *)


(** The calls [flatten] makes on a dictionary: on the fields that are
    dictionaries and on the elements of the fields that are lists. *)
Lemma flatten_ind (P : pyval -> Prop) :
  (forall d, is_dict d = false -> P d) ->
  (forall fields,
     (forall k child, (k, PDict child) ∈ fields -> P (PDict child)) ->
     (forall k items x, (k, PList items) ∈ fields -> x ∈ items -> P x) ->
     P (PDict fields)) ->
  forall d, P d.
Proof.
  intros Hleaf Hdict.
  assert (H : forall d, P d /\ (forall items, d = PList items -> Forall P items)).
  { induction d as [| | | | items IH | fields IH] using pyval_ind;
      try (split; [by apply Hleaf|done]).
    - split; [by apply Hleaf|]. intros ? [= <-].
      eapply Forall_impl; [exact IH|]. by intros x [? _].
    - split; [|done]. apply Hdict.
      + intros k child Hin. rewrite Forall_forall in IH.
        by destruct (IH _ Hin) as [? _].
      + intros k items x Hin Hx. rewrite Forall_forall in IH.
        destruct (IH _ Hin) as [_ Hitems]. specialize (Hitems items eq_refl).
        rewrite Forall_forall in Hitems. by apply Hitems. }
  intros d. by destruct (H d).
Qed.

(** ** [flatten] returns [flatten_data] and [flatten_guide] *)

Lemma guide_put_Ok (k : string) (devtype : pyval) (pk : string) (g g' : guide_t) :
  guide_put k devtype pk g = Ok g' -> g' = put k devtype pk g.
Proof. unfold guide_put, put. destruct (hashable devtype); [|done]. by intros [= <-]. Qed.

Lemma flatten_leaf_returns (d : pyval) (prefix : string) (devtype : pyval)
    (r : flat) (g : guide_t) :
  flatten_leaf d prefix devtype = Ok (r, g) ->
  r = [(re_sub_enddot prefix, py_str d)] /\
  g = put (re_sub_enddot prefix) devtype (re_sub_enddot (re_sub_index prefix)) [].
Proof.
  unfold flatten_leaf.
  destruct (guide_put _ _ _ _) as [g'|] eqn:E; simpl; [|done].
  apply guide_put_Ok in E as ->. by intros [= <- <-].
Qed.

Lemma flatten_items_returns (pk : string) (devtype : pyval) (items : list pyval) :
  Forall returns_projections items ->
  forall i nd ng r g,
    flatten_items flatten pk devtype items i nd ng = Ok (r, g) ->
    r = data_items flatten_data pk items i nd /\
    g = guide_items flatten_guide pk devtype items i ng.
Proof.
  induction 1 as [|x items Hx _ IH]; intros i nd ng r g; simpl.
  - by intros [= <- <-].
  - destruct (flatten x _ devtype) as [[tr tg]|] eqn:E; simpl; [|done].
    apply Hx in E as [-> ->]. apply IH.
Qed.

Lemma flatten_field_returns (prefix : string) (devtype : pyval) (k : string) (v : pyval) :
  (is_dict v = true -> returns_projections v) ->
  (forall items, v = PList items -> Forall returns_projections items) ->
  forall r g,
    flatten_field flatten prefix devtype k v = Ok (r, g) ->
    r = data_field flatten_data prefix k v /\
    g = guide_field flatten_guide prefix devtype k v.
Proof.
  intros Hd Hl r g.
  destruct v as [| | | | items | child]; simpl;
    try (unfold flatten_scalar;
         destruct (guide_put k devtype _ []) as [g1|] eqn:E1; simpl; [|done];
         apply guide_put_Ok in E1 as ->;
         destruct (guide_put _ devtype _ _) as [g2|] eqn:E2; simpl; [|done];
         apply guide_put_Ok in E2 as ->; by intros [= <- <-]).
  - apply flatten_items_returns. by apply Hl.
  - by apply Hd.
Qed.

Lemma flatten_fields_returns (prefix : string) (devtype : pyval)
    (fields : list (string * pyval)) :
  (forall k child, (k, PDict child) ∈ fields -> returns_projections (PDict child)) ->
  (forall k items x, (k, PList items) ∈ fields -> x ∈ items -> returns_projections x) ->
  forall result guide r g,
    flatten_fields flatten prefix devtype fields result guide = Ok (r, g) ->
    r = data_fields flatten_data prefix fields result /\
    g = guide_fields flatten_guide prefix devtype fields guide.
Proof.
  induction fields as [|[k v] fields IH]; intros Hd Hl result guide r g; simpl.
  - by intros [= <- <-].
  - destruct (flatten_field flatten prefix devtype k v) as [[nr ng]|] eqn:E; simpl; [|done].
    apply flatten_field_returns in E as [-> ->].
    + apply IH.
      * intros k' child Hin. apply (Hd k'). by right.
      * intros k' items x Hin. apply (Hl k'). by right.
    + destruct v; try done. intros _. apply (Hd k). by left.
    + intros items ->. apply Forall_forall. intros x Hx. apply (Hl k items); [by left|done].
Qed.

Lemma flatten_returns (d : pyval) : returns_projections d.
Proof.
  induction d as [d Hd | fields Hdict Hlist] using flatten_ind;
    intros prefix devtype r g.
  - destruct d; try done; simpl; apply flatten_leaf_returns.
  - simpl. unfold devtype_of.
    destruct (truthy devtype); simpl.
    + by apply flatten_fields_returns.
    + destruct (get_devtype fields) as [dt|]; simpl; [|done].
      by apply flatten_fields_returns.
Qed.

(** ** Strings *)

Lemma append_cons (x : ascii) (a b : string) : String x a +:+ b = String x (a +:+ b).
Proof. reflexivity. Qed.

Lemma append_nil_l (b : string) : EmptyString +:+ b = b.
Proof. reflexivity. Qed.

Ltac ssimpl := rewrite ?append_cons, ?append_nil_l; simpl; rewrite ?append_cons, ?append_nil_l.

Lemma append_assoc (a b c : string) : (a +:+ b) +:+ c = a +:+ (b +:+ c).
Proof. induction a as [|x a IH]; ssimpl; [done|]. by rewrite IH. Qed.

Lemma append_nil_r (a : string) : a +:+ EmptyString = a.
Proof. induction a as [|x a IH]; ssimpl; [done|]. by rewrite IH. Qed.

Lemma mem_char_app (c : ascii) (a b : string) :
  mem_char c (a +:+ b) = mem_char c a || mem_char c b.
Proof.
  induction a as [|x a IH]; ssimpl; [done|]. rewrite IH. by rewrite orb_assoc.
Qed.

Lemma dot_free_app_l (a x : string) :
  mem_char dot (a +:+ String dot x) = true.
Proof. rewrite mem_char_app. ssimpl. by rewrite orb_true_r. Qed.

(** A dot-free word is determined by what follows up to the first dot. *)
Lemma dot_split_inj (a b x y : string) :
  mem_char dot a = false -> mem_char dot b = false ->
  a +:+ String dot x = b +:+ String dot y -> a = b /\ x = y.
Proof.
  revert b. induction a as [|c a IH]; intros [|c' b]; ssimpl.
  - by intros _ _ [= ->].
  - intros _ Hb [= <- _]. by rewrite Ascii.eqb_refl in Hb.
  - intros Ha _ [= -> _]. by rewrite Ascii.eqb_refl in Ha.
  - intros [_ Ha]%orb_false_elim [_ Hb]%orb_false_elim [= -> E].
    by destruct (IH b Ha Hb E) as [-> ->].
Qed.

Lemma dot_free_not_split (a b y : string) :
  mem_char dot a = false -> a <> b +:+ String dot y.
Proof. intros Ha ->. by rewrite dot_free_app_l in Ha. Qed.

(** *** Numerals *)

Lemma digit_not_dot (c : ascii) : is_digit c = true -> Ascii.eqb c dot = false.
Proof.
  destruct (Ascii.eqb_spec c dot) as [->|]; [|done]. by vm_compute.
Qed.

Lemma all_digits_dot_free (s : string) :
  all_digits s = true -> mem_char dot s = false.
Proof.
  induction s as [|c s IH]; ssimpl; [done|].
  intros [Hc Hs]%andb_true_iff. by rewrite (digit_not_dot c Hc), IH.
Qed.

Lemma string_of_uint_digits (d : Decimal.uint) :
  all_digits (NilEmpty.string_of_uint d) = true.
Proof. induction d; ssimpl; try done. Qed.

Lemma str_nat_digits (i : nat) : all_digits (str_nat i) = true.
Proof.
  unfold str_nat, NilZero.string_of_uint.
  destruct (Nat.to_uint i) eqn:E; try done; rewrite <- E; apply string_of_uint_digits.
Qed.

Lemma str_nat_nonempty (i : nat) : str_nat i <> EmptyString.
Proof.
  unfold str_nat, NilZero.string_of_uint. by destruct (Nat.to_uint i).
Qed.

Lemma str_nat_dot_free (i : nat) : mem_char dot (str_nat i) = false.
Proof. apply all_digits_dot_free, str_nat_digits. Qed.

Lemma to_uint_nonnil (i : nat) : Nat.to_uint i <> Decimal.Nil.
Proof.
  rewrite <- (Unsigned.of_to i) at 1. rewrite Unsigned.to_of.
  apply DecimalFacts.unorm_nonnil.
Qed.

Lemma str_nat_inj (i j : nat) : str_nat i = str_nat j -> i = j.
Proof.
  unfold str_nat. intros E. apply Unsigned.to_uint_inj.
  pose proof (NilZero.usu _ (to_uint_nonnil i)) as Hi.
  pose proof (NilZero.usu _ (to_uint_nonnil j)) as Hj.
  rewrite E in Hi. congruence.
Qed.

(** *** The substitutions *)

Lemma re_sub_enddot_app (s : string) : re_sub_enddot (s +:+ ".") = s.
Proof.
  induction s as [|c s IH]; ssimpl; [done|].
  rewrite IH. destruct (Ascii.eqb c dot); ssimpl; [|done].
  destruct s as [|c' s]; ssimpl; [done|].
  destruct (String.eqb_spec (String c' (s +:+ ".")) (String newline EmptyString))
    as [E|_]; [|done].
  injection E as _ E. by destruct s.
Qed.

Lemma sub_index_idle (w s : string) :
  mem_char dot w = false ->
  sub_index None (w +:+ s) = w +:+ sub_index None s.
Proof.
  induction w as [|c w IH]; ssimpl; [done|].
  intros [Hc Hw]%orb_false_elim. rewrite Hc. by rewrite IH.
Qed.

Lemma sub_index_idle_end (w : string) :
  mem_char dot w = false -> sub_index None w = w.
Proof.
  intros Hw. rewrite <- (append_nil_r w) at 1.
  rewrite sub_index_idle by done. ssimpl. apply append_nil_r.
Qed.

(** Digits read after a pending dot are kept pending. *)
Lemma sub_index_digits (ds acc s : string) :
  all_digits ds = true ->
  sub_index (Some acc) (ds +:+ s) = sub_index (Some (acc +:+ ds)) s.
Proof.
  revert acc. induction ds as [|c ds IH]; intros acc; ssimpl.
  - by rewrite append_nil_r.
  - intros [Hc Hds]%andb_true_iff. rewrite Hc, IH by done.
    by rewrite append_assoc.
Qed.

(** An array index between two dots becomes the wildcard. *)
Lemma sub_index_open_index (i : nat) (s : string) :
  sub_index (Some EmptyString) (str_nat i +:+ String dot s)
  = ".[n]." +:+ sub_index None s.
Proof.
  rewrite sub_index_digits by apply str_nat_digits. ssimpl.
  pose proof (str_nat_nonempty i). by destruct (str_nat i).
Qed.

(** A word that holds a character other than a digit and a dot is written
    out after the pending dot and digits. *)
Lemma sub_index_open_word (k acc s : string) :
  mem_char dot k = false -> all_digits k = false ->
  sub_index (Some acc) (k +:+ String dot s)
  = String dot (acc +:+ k +:+ sub_index (Some EmptyString) s).
Proof.
  revert acc. induction k as [|c k IH]; intros acc; ssimpl; [done|].
  intros [Hc Hk]%orb_false_elim Hd.
  destruct (is_digit c) eqn:Edig; simpl in Hd.
  - rewrite IH by done. by rewrite append_assoc.
  - rewrite Hc. rewrite sub_index_idle by done. by ssimpl.
Qed.

Lemma sub_index_open_key (k s : string) :
  plain_key k = true ->
  sub_index (Some EmptyString) (k +:+ String dot s)
  = String dot (k +:+ sub_index (Some EmptyString) s).
Proof.
  unfold plain_key. intros [Hdot Hnum]%andb_true_iff.
  apply negb_true_iff in Hdot.
  destruct k as [|c k]; [by ssimpl|].
  apply negb_true_iff in Hnum.
  by rewrite sub_index_open_word.
Qed.

(** At the end of the string the pending dot and digits are written out. *)
Lemma sub_index_open_end (k acc : string) :
  mem_char dot k = false ->
  sub_index (Some acc) k = String dot (acc +:+ k).
Proof.
  revert acc. induction k as [|c k IH]; intros acc; ssimpl.
  - by rewrite append_nil_r.
  - intros [Hc Hk]%orb_false_elim. destruct (is_digit c).
    + rewrite IH by done. by rewrite append_assoc.
    + rewrite Hc. by rewrite sub_index_idle_end.
Qed.

Lemma plain_key_dot_free (k : string) : plain_key k = true -> mem_char dot k = false.
Proof. unfold plain_key. intros [H _]%andb_true_iff. by apply negb_true_iff. Qed.

(** ** Dictionaries with distinct keys *)

Lemma sget_None {V : Type} (k : string) (d : list (string * V)) :
  sget k d = None <-> k ∉ d.*1.
Proof.
  induction d as [|[k0 v0] d IH]; csimpl.
  - split; [intros _; apply not_elem_of_nil|done].
  - rewrite not_elem_of_cons. destruct (String.eqb_spec k0 k) as [->|Hne].
    + split; [done|]. by intros [? _].
    + rewrite IH. split; [|by intros [_ ?]]. intros H. split; [congruence|done].
Qed.

Lemma sin_false {V : Type} (k : string) (d : list (string * V)) :
  sin k d = false <-> sget k d = None.
Proof. unfold dict_in. by destruct (sget k d). Qed.

Lemma sset_keys {V : Type} (k : string) (v : V) (d : list (string * V)) :
  (sset k v d).*1 = if sin k d then d.*1 else d.*1 ++ [k].
Proof.
  unfold dict_in. induction d as [|[k0 v0] d IH]; csimpl; [done|].
  destruct (String.eqb_spec k0 k) as [->|Hne]; csimpl; [done|].
  rewrite IH. by destruct (sget k d).
Qed.

Lemma sset_nodup {V : Type} (k : string) (v : V) (d : list (string * V)) :
  NoDup d.*1 -> NoDup (sset k v d).*1.
Proof.
  intros Hd. rewrite sset_keys. destruct (sin k d) eqn:E; [done|].
  apply NoDup_app. split; [done|]. split; [|apply NoDup_singleton].
  intros x Hx ->%list_elem_of_singleton.
  apply sin_false, sget_None in E. done.
Qed.

Lemma supdate_nodup {V : Type} (a b : list (string * V)) :
  NoDup a.*1 -> NoDup (supdate a b).*1.
Proof.
  unfold dict_update. revert a.
  induction b as [|[k v] b IH]; intros a Ha; simpl; [done|].
  apply IH. by apply sset_nodup.
Qed.

Lemma supdate_nil {V : Type} (a : list (string * V)) : supdate a [] = a.
Proof. done. Qed.

(** After [a.update(b)] a key holds what it holds in [b], else what it holds
    in [a]. *)
Lemma sget_supdate {V : Type} (k : string) (a b : list (string * V)) :
  NoDup b.*1 ->
  sget k (supdate a b) = match sget k b with Some v => Some v | None => sget k a end.
Proof.
  unfold dict_update. revert a.
  induction b as [|[k0 v0] b IH]; intros a Hb; simpl; [done|].
  rewrite fmap_cons in Hb. apply NoDup_cons in Hb as [Hk0 Hb]. cbn [fst] in Hk0.
  rewrite IH by done.
  destruct (String.eqb_spec k0 k) as [->|Hne].
  - apply sget_None in Hk0. rewrite Hk0. by rewrite sget_sset_eq.
  - by rewrite sget_sset_ne.
Qed.

Lemma sget_supdate_absent {V : Type} (k : string) (a b : list (string * V)) :
  sget k b = None -> sget k (supdate a b) = sget k a.
Proof.
  unfold dict_update. revert a.
  induction b as [|[k0 v0] b IH]; intros a; simpl; [done|].
  destruct (String.eqb_spec k0 k) as [->|Hne]; [done|].
  intros Hb. rewrite IH by done. by rewrite sget_sset_ne.
Qed.

Lemma sin_supdate {V : Type} (k : string) (a b : list (string * V)) :
  sin k (supdate a b) = sin k a || sin k b.
Proof.
  unfold dict_update. revert a.
  induction b as [|[k0 v0] b IH]; intros a; simpl.
  - by rewrite orb_false_r.
  - rewrite IH. unfold dict_in at 1 3 4. simpl. rewrite sget_sset.
    destruct (String.eqb_spec k0 k) as [->|Hne]; simpl.
    + by rewrite orb_true_r.
    + done.
Qed.

(** *** [deep_update] on guides *)

Lemma deep_update_nil (a : guide_t) : deep_update a [] = a.
Proof. done. Qed.

Lemma deep_update_cons (a b : guide_t) (k : string) (v : coverage) :
  deep_update a ((k, v) :: b)
  = deep_update (sset k (dict_update key_eqb (default [] (sget k a)) v) a) b.
Proof. done. Qed.

Lemma deep_update_nodup (a b : guide_t) :
  NoDup a.*1 -> NoDup (deep_update a b).*1.
Proof.
  revert a. induction b as [|[k v] b IH]; intros a Ha; [done|].
  rewrite deep_update_cons. apply IH. by apply sset_nodup.
Qed.

Lemma sin_deep_update (k : string) (a b : guide_t) :
  sin k (deep_update a b) = sin k a || sin k b.
Proof.
  revert a. induction b as [|[k0 v0] b IH]; intros a.
  - by rewrite deep_update_nil, orb_false_r.
  - rewrite deep_update_cons, IH. unfold dict_in at 1 3 4. simpl. rewrite sget_sset.
    destruct (String.eqb_spec k0 k) as [->|Hne]; simpl.
    + by rewrite orb_true_r.
    + done.
Qed.

Lemma sget_deep_update_absent (k : string) (a b : guide_t) :
  sget k b = None -> sget k (deep_update a b) = sget k a.
Proof.
  revert a. induction b as [|[k0 v0] b IH]; intros a; [done|].
  rewrite deep_update_cons. simpl.
  destruct (String.eqb_spec k0 k) as [->|Hne]; [done|].
  intros Hb. rewrite IH by done. by rewrite sget_sset_ne.
Qed.

(** A path that only the older guide knows, for one device type, is carried
    over as it is. *)
Lemma sget_deep_update_kept (k : string) (a b : guide_t) (devtype : pyval) (pk : string) :
  NoDup b.*1 -> sget k a = None -> sget k b = Some [(devtype, pk)] ->
  sget k (deep_update a b) = Some [(devtype, pk)].
Proof.
  revert a. induction b as [|[k0 v0] b IH]; intros a Hb Ha; [done|].
  rewrite deep_update_cons. simpl.
  rewrite fmap_cons in Hb. apply NoDup_cons in Hb as [Hk0 Hb]. cbn [fst] in Hk0.
  destruct (String.eqb_spec k0 k) as [->|Hne].
  - intros [= ->]. rewrite (sget_deep_update_absent k) by (by apply sget_None).
    rewrite sget_sset_eq. f_equal.
    replace (sget k a) with (@None coverage) by done. done.
  - intros Hkb. apply IH; [done| |done]. by rewrite sget_sset_ne.
Qed.

Lemma put_nodup (k : string) (devtype : pyval) (pk : string) (g : guide_t) :
  NoDup g.*1 -> NoDup (put k devtype pk g).*1.
Proof. apply sset_nodup. Qed.

(** ** The keys of the flat map *)

Lemma data_items_nodup (self : pyval -> string -> flat) (pk : string)
    (items : list pyval) (i : nat) (acc : flat) :
  NoDup acc.*1 -> NoDup (data_items self pk items i acc).*1.
Proof.
  revert i acc. induction items as [|x items IH]; intros i acc Hacc; simpl; [done|].
  apply IH. by apply supdate_nodup.
Qed.

Lemma data_fields_nodup (self : pyval -> string -> flat) (p : string)
    (fields : list (string * pyval)) (acc : flat) :
  (forall k v, (k, v) ∈ fields -> NoDup (data_field self p k v).*1) ->
  NoDup acc.*1 -> NoDup (data_fields self p fields acc).*1.
Proof.
  revert acc. induction fields as [|[k v] fields IH]; intros acc Hf Hacc; simpl; [done|].
  apply IH.
  - intros k' v' Hin. apply Hf. by right.
  - apply supdate_nodup. apply Hf. by left.
Qed.

Lemma scalar_field_nodup (p k s : string) :
  NoDup (sset (p +:+ k) s (sset k s [])).*1.
Proof. apply sset_nodup, sset_nodup. constructor. Qed.

Lemma flatten_data_nodup (d : pyval) (p : string) : NoDup (flatten_data d p).*1.
Proof.
  revert p. induction d as [d Hd | fields Hdict Hlist] using flatten_ind; intros p.
  - destruct d; try done; simpl; apply NoDup_singleton.
  - simpl. apply data_fields_nodup; [|constructor].
    intros k v Hin. destruct v as [| | | | items | child]; simpl;
      try apply scalar_field_nodup.
    + apply data_items_nodup. constructor.
    + by eapply Hdict.
Qed.

Lemma data_field_nodup (p k : string) (v : pyval) :
  NoDup (data_field flatten_data p k v).*1.
Proof.
  destruct v as [| | | | items | child]; simpl; try apply scalar_field_nodup.
  - apply data_items_nodup. constructor.
  - apply (flatten_data_nodup (PDict child)).
Qed.

(** *** First seen wins among the fields, last seen among the items *)

Lemma data_fields_app (self : pyval -> string -> flat) (p : string)
    (pre post : list (string * pyval)) (acc : flat) :
  data_fields self p (pre ++ post) acc
  = data_fields self p post (data_fields self p pre acc).
Proof.
  revert acc. induction pre as [|[k v] pre IH]; intros acc; simpl; [done|]. apply IH.
Qed.

Lemma data_fields_kept (p K value : string) (fields : list (string * pyval)) (acc : flat) :
  NoDup acc.*1 -> sget K acc = Some value ->
  sget K (data_fields flatten_data p fields acc) = Some value.
Proof.
  revert acc. induction fields as [|[k v] fields IH]; intros acc Hacc HK; simpl; [done|].
  apply IH.
  - apply supdate_nodup, data_field_nodup.
  - by rewrite sget_supdate, HK.
Qed.

Lemma data_fields_absent (p K : string) (fields : list (string * pyval)) (acc : flat) :
  NoDup acc.*1 ->
  (forall k v, (k, v) ∈ fields -> sget K (data_field flatten_data p k v) = None) ->
  sget K (data_fields flatten_data p fields acc) = sget K acc.
Proof.
  revert acc. induction fields as [|[k v] fields IH]; intros acc Hacc Hf; simpl; [done|].
  rewrite IH.
  - rewrite sget_supdate by done. rewrite (Hf k v) by (by left). by destruct (sget K acc).
  - apply supdate_nodup, data_field_nodup.
  - intros k' v' Hin. apply Hf. by right.
Qed.

(** The entry of a key is the one yielded by the first field that yields
    it. *)
Lemma data_fields_first_seen (p K value k : string) (v : pyval)
    (pre post : list (string * pyval)) :
  sget K (flatten_data (PDict pre) p) = None ->
  sget K (data_field flatten_data p k v) = Some value ->
  sget K (flatten_data (PDict (pre ++ (k, v) :: post)) p) = Some value.
Proof.
  simpl. intros Hpre Hk. rewrite data_fields_app. simpl.
  apply data_fields_kept.
  - apply supdate_nodup, data_field_nodup.
  - rewrite sget_supdate by apply (flatten_data_nodup (PDict pre)).
    simpl. by rewrite Hpre.
Qed.

Lemma data_items_absent (self : pyval -> string -> flat) (pk K : string)
    (items : list pyval) (i0 : nat) (acc : flat) :
  (forall j x, items !! j = Some x ->
               sget K (self x (pk +:+ str_nat (i0 + j) +:+ ".")) = None) ->
  sget K (data_items self pk items i0 acc) = sget K acc.
Proof.
  revert i0 acc. induction items as [|x items IH]; intros i0 acc Hn; simpl; [done|].
  rewrite IH.
  - apply sget_supdate_absent. specialize (Hn 0 x eq_refl).
    by rewrite Nat.add_0_r in Hn.
  - intros j x' Hj. specialize (Hn (S j) x' Hj).
    by replace (i0 + S j) with (S i0 + j) in Hn by lia.
Qed.

Lemma data_items_only (self : pyval -> string -> flat) (pk K value : string)
    (items : list pyval) (i0 i : nat) (x : pyval) (acc : flat) :
  items !! i = Some x ->
  NoDup (self x (pk +:+ str_nat (i0 + i) +:+ ".")).*1 ->
  sget K (self x (pk +:+ str_nat (i0 + i) +:+ ".")) = Some value ->
  (forall j x', items !! j = Some x' -> j <> i ->
                sget K (self x' (pk +:+ str_nat (i0 + j) +:+ ".")) = None) ->
  sget K (data_items self pk items i0 acc) = Some value.
Proof.
  revert i0 i acc. induction items as [|x0 items IH]; intros i0 i acc Hi Hnd HK Hn;
    [done|].
  destruct i as [|i]; simpl in *.
  - injection Hi as ->. rewrite Nat.add_0_r in *. rewrite data_items_absent.
    + by rewrite sget_supdate, HK.
    + intros j x' Hj. specialize (Hn (S j) x' Hj ltac:(lia)).
      by replace (i0 + S j) with (S i0 + j) in Hn by lia.
  - apply (IH (S i0) i); try done.
    + by replace (S i0 + i) with (i0 + S i) by lia.
    + by replace (S i0 + i) with (i0 + S i) by lia.
    + intros j x' Hj Hne. specialize (Hn (S j) x' Hj ltac:(lia)).
      by replace (i0 + S j) with (S i0 + j) in Hn by lia.
Qed.

(** *** Which keys a value yields *)

Lemma plain_keys_field (fields : list (string * pyval)) (k : string) (v : pyval) :
  plain_keys (PDict fields) = true -> (k, v) ∈ fields ->
  plain_key k = true /\ plain_keys v = true.
Proof.
  simpl. intros [_ H]%andb_true_iff Hin. rewrite forallb_forall in H.
  apply list_elem_of_In in Hin. by apply andb_true_iff, (H (k, v)).
Qed.

Lemma plain_keys_item (items : list pyval) (x : pyval) :
  plain_keys (PList items) = true -> x ∈ items -> plain_keys x = true.
Proof.
  simpl. intros H Hin. rewrite forallb_forall in H.
  by apply H, list_elem_of_In.
Qed.

Lemma dot_free_keys_field (fields : list (string * pyval)) (k : string) (v : pyval) :
  dot_free_keys (PDict fields) = true -> (k, v) ∈ fields ->
  mem_char dot k = false /\ dot_free_keys v = true.
Proof.
  simpl. intros [_ H]%andb_true_iff Hin. rewrite forallb_forall in H.
  apply list_elem_of_In in Hin. apply (H (k, v)) in Hin.
  apply andb_true_iff in Hin as [Hk Hv]. by apply negb_true_iff in Hk.
Qed.

Lemma dot_free_keys_item (items : list pyval) (x : pyval) :
  dot_free_keys (PList items) = true -> x ∈ items -> dot_free_keys x = true.
Proof.
  simpl. intros H Hin. rewrite forallb_forall in H.
  by apply H, list_elem_of_In.
Qed.

(** Plain keys have no dot. *)
Lemma plain_keys_dot_free_keys (d : pyval) :
  plain_keys d = true -> dot_free_keys d = true.
Proof.
  induction d as [| | | | items IH | fields IH] using pyval_ind; try done.
  - cbn [plain_keys dot_free_keys]. induction IH as [|x items Hx _ IH]; [done|].
    cbn [forallb]. intros [Hp H]%andb_true_iff. apply andb_true_iff. auto.
  - cbn [plain_keys dot_free_keys]. intros [Hd H]%andb_true_iff.
    apply andb_true_iff. split; [done|]. clear Hd.
    induction IH as [|[k v] fields Hv _ IH]; [done|].
    cbn [forallb fst snd] in *. apply andb_true_iff in H as [Hkv H].
    apply andb_true_iff in Hkv as [Hk Hpv]. apply plain_key_dot_free in Hk.
    rewrite Hk. cbn [negb andb]. apply andb_true_iff. auto.
Qed.

Lemma sget_elem_of {V : Type} (k : string) (v : V) (d : list (string * V)) :
  sget k d = Some v -> (k, v) ∈ d.
Proof.
  induction d as [|[k0 v0] d IH]; simpl; [done|].
  destruct (String.eqb_spec k0 k) as [->|Hne].
  - intros [= ->]. by left.
  - intros H. right. by apply IH.
Qed.

(** The first occurrence of a key splits the fields. *)
Lemma sget_split {V : Type} (k : string) (v : V) (d : list (string * V)) :
  sget k d = Some v ->
  exists pre post, d = pre ++ (k, v) :: post /\ k ∉ pre.*1.
Proof.
  induction d as [|[k0 v0] d IH]; simpl; [done|].
  destruct (String.eqb_spec k0 k) as [->|Hne].
  - intros [= ->]. exists [], d. split; [done|]. apply not_elem_of_nil.
  - intros H. destruct (IH H) as (pre & post & -> & Hpre).
    exists ((k0, v0) :: pre), post. split; [done|].
    rewrite fmap_cons. cbn [fst]. apply not_elem_of_cons. split; [congruence|done].
Qed.

Lemma sin_data_items (self : pyval -> string -> flat) (pk K : string)
    (items : list pyval) (i0 : nat) (acc : flat) :
  sin K (data_items self pk items i0 acc) = true ->
  sin K acc = true \/
  exists j x, items !! j = Some x /\
              sin K (self x (pk +:+ str_nat (i0 + j) +:+ ".")) = true.
Proof.
  revert i0 acc. induction items as [|x items IH]; intros i0 acc; simpl; [by left|].
  intros [H|(j & x' & Hj & H)]%IH.
  - rewrite sin_supdate in H. apply orb_true_iff in H as [H|H]; [by left|].
    right. exists 0, x. by rewrite Nat.add_0_r.
  - right. exists (S j), x'. split; [done|].
    by replace (i0 + S j) with (S i0 + j) by lia.
Qed.

Lemma sin_data_fields (self : pyval -> string -> flat) (p K : string)
    (fields : list (string * pyval)) (acc : flat) :
  sin K (data_fields self p fields acc) = true ->
  sin K acc = true \/
  exists k v, (k, v) ∈ fields /\ sin K (data_field self p k v) = true.
Proof.
  revert acc. induction fields as [|[k v] fields IH]; intros acc; simpl; [by left|].
  intros [H|(k' & v' & Hin & H)]%IH.
  - rewrite sin_supdate in H. apply orb_true_iff in H as [H|H]; [|by left].
    right. exists k, v. split; [by left|done].
  - right. exists k', v'. split; [by right|done].
Qed.

Lemma sin_scalar (p k s K : string) :
  sin K (sset (p +:+ k) s (sset k s [])) = true -> K = k \/ K = p +:+ k.
Proof.
  unfold dict_in. rewrite !sget_sset. simpl.
  destruct (String.eqb_spec (p +:+ k) K) as [<-|]; [by right|].
  destruct (String.eqb_spec k K) as [<-|]; [by left|done].
Qed.

Lemma below_prefix (p k K : string) : below p k K -> exists Y, K = p +:+ Y.
Proof. intros [->|[Y ->]]; eauto. Qed.

(** A key yielded by a value has no dot, or starts with the prefix the value
    was flattened under. *)
Lemma data_shape (d : pyval) :
  dot_free_keys d = true ->
  forall p K, sin K (flatten_data d p) = true ->
    mem_char dot K = false \/
    (if is_dict d then exists Y, K = p +:+ Y else K = re_sub_enddot p).
Proof.
  induction d as [d Hd | fields Hdict Hlist] using flatten_ind; intros Hplain p K.
  - rewrite Hd. destruct d; try done; unfold dict_in; simpl;
      (destruct (String.eqb_spec (re_sub_enddot p) K) as [->|]; [by right|done]).
  - intros [H|(k & v & Hin & H)]%sin_data_fields; [done|].
    destruct (dot_free_keys_field _ _ _ Hplain Hin) as [Hkdot Hv].
    destruct v as [| | | | items | child]; cbn [data_field] in H;
      try (apply sin_scalar in H as [-> | ->]; [by left|right; by eexists]).
    + apply sin_data_items in H as [H|(j & x & Hj & H)]; [done|].
      assert (Hx : x ∈ items) by (by eapply list_elem_of_lookup_2).
      apply (Hlist k items x Hin Hx) in H; [|by eapply dot_free_keys_item].
      destruct H as [H|H]; [by left|right].
      destruct (is_dict x).
      * destruct H as [Y ->]. rewrite !append_assoc. by eexists.
      * rewrite H. rewrite <- !append_assoc, re_sub_enddot_app.
        rewrite !append_assoc. by eexists.
    + apply (Hdict k child Hin Hv) in H.
      destruct H as [H|[Y ->]]; [by left|right].
      rewrite !append_assoc. by eexists.
Qed.

(** A value flattened under [q], a word and a dot yields keys without a
    dot and paths below the word. *)
Lemma value_shape (x : pyval) (q w K : string) :
  dot_free_keys x = true ->
  sin K (flatten_data x (q +:+ w +:+ ".")) = true ->
  mem_char dot K = false \/ below q w K.
Proof.
  intros Hx H. apply data_shape in H as [H|H]; [by left|right|done].
  destruct (is_dict x).
  - destruct H as [Y ->]. right. exists Y. by rewrite !append_assoc.
  - left. rewrite H. by rewrite <- append_assoc, re_sub_enddot_app.
Qed.

Lemma data_field_shape (p k K : string) (v : pyval) :
  mem_char dot k = false -> dot_free_keys v = true ->
  sin K (data_field flatten_data p k v) = true ->
  mem_char dot K = false \/ below p k K.
Proof.
  intros Hkdot Hv H.
  destruct v as [| | | | items | child]; cbn [data_field] in H;
    try (apply sin_scalar in H as [-> | ->]; [by left|right; by left]).
  - apply sin_data_items in H as [H|(j & x & Hj & H)]; [done|].
    assert (Hx : x ∈ items) by (by eapply list_elem_of_lookup_2).
    apply value_shape in H as [H|[->|[Y ->]]]; [by left| | |by eapply dot_free_keys_item].
    + right. right. exists (str_nat (0 + j)). by rewrite !append_assoc.
    + right. right. exists (str_nat (0 + j) +:+ String dot Y). by rewrite !append_assoc.
  - by apply (value_shape (PDict child)).
Qed.

Lemma below_disjoint (p k k' K : string) :
  mem_char dot k = false -> mem_char dot k' = false -> k <> k' ->
  below p k K -> below p k' K -> False.
Proof.
  intros Hk Hk' Hne [->|[Y ->]] [E|[Y' E]]; apply String.app_inj in E.
  - done.
  - by apply dot_free_not_split in E.
  - symmetry in E. by apply dot_free_not_split in E.
  - by apply dot_split_inj in E as [? _].
Qed.

(** A field with another key does not yield a dotted path below the key. *)
Lemma other_field_absent (p k k' K : string) (v' : pyval) :
  mem_char dot k' = false -> dot_free_keys v' = true ->
  mem_char dot k = false -> k' <> k ->
  below p k K -> mem_char dot K = true ->
  sget K (data_field flatten_data p k' v') = None.
Proof.
  intros Hk' Hv' Hk Hne Hbelow Hdot. apply sin_false.
  destruct (sin K (data_field flatten_data p k' v')) eqn:E; [|done].
  apply data_field_shape in E as [E|E]; [congruence| |done|done].
  exfalso. by eapply (below_disjoint p k k' K).
Qed.

Lemma field_lookup (fields : list (string * pyval)) (k : string) (v : pyval)
    (p K value : string) :
  dot_free_keys (PDict fields) = true ->
  sget k fields = Some v ->
  below p k K -> mem_char dot K = true ->
  sget K (data_field flatten_data p k v) = Some value ->
  sget K (flatten_data (PDict fields) p) = Some value.
Proof.
  intros Hplain Hk Hbelow Hdot Hv.
  destruct (sget_split k v fields Hk) as (pre & post & -> & Hpre).
  apply data_fields_first_seen; [|done].
  simpl. rewrite data_fields_absent; [done|constructor|].
  intros k' v' Hin.
  destruct (dot_free_keys_field _ k' v' Hplain) as [Hk' Hv'].
  { apply elem_of_app. by left. }
  destruct (dot_free_keys_field _ k v Hplain) as [Hkp _].
  { apply elem_of_app. right. by left. }
  apply (other_field_absent p k); try done.
  intros ->. apply Hpre. apply list_elem_of_fmap. by exists (k, v').
Qed.

(** *** Leaves below the top level *)

Lemma join_cons (sep x : string) (l : list string) :
  l <> [] -> join sep (x :: l) = x +:+ sep +:+ join sep l.
Proof. by destruct l. Qed.

Lemma path_string_cons (s : seg) (path : list seg) :
  path <> [] ->
  path_string (s :: path) = seg_string s +:+ String dot (path_string path).
Proof.
  intros H. unfold path_string. simpl map. rewrite join_cons; [done|by destruct path].
Qed.

Lemma wildcard_cons (s : seg) (path : list seg) :
  path <> [] ->
  wildcard (s :: path)
  = match s with Key k => k | Idx _ => "[n]" end +:+ String dot (wildcard path).
Proof.
  intros H. unfold wildcard. simpl map. rewrite join_cons; [done|by destruct path].
Qed.

Lemma leaf_at_nonempty (d : pyval) (path : list seg) (x : pyval) :
  leaf_at d path x -> path <> [].
Proof. by destruct 1. Qed.

Lemma leaf_at_plain_field (fields : list (string * pyval)) (k : string) (v : pyval) :
  plain_keys (PDict fields) = true -> sget k fields = Some v ->
  plain_key k = true /\ plain_keys v = true.
Proof. intros Hp Hk. apply (plain_keys_field fields); [done|]. by apply sget_elem_of. Qed.

Lemma leaf_at_field (fields : list (string * pyval)) (k : string) (v : pyval) :
  dot_free_keys (PDict fields) = true -> sget k fields = Some v ->
  mem_char dot k = false /\ dot_free_keys v = true.
Proof. intros Hp Hk. apply (dot_free_keys_field fields); [done|]. by apply sget_elem_of. Qed.

(** An element at another index does not yield a dotted path below the
    index. *)
Lemma other_item_absent (pk K : string) (i j : nat) (x' : pyval) :
  dot_free_keys x' = true -> j <> i ->
  below pk (str_nat i) K -> mem_char dot K = true ->
  sget K (flatten_data x' (pk +:+ str_nat j +:+ ".")) = None.
Proof.
  intros Hx' Hne Hbelow Hdot. apply sin_false.
  destruct (sin K (flatten_data x' (pk +:+ str_nat j +:+ "."))) eqn:E; [|done].
  apply value_shape in E as [E|E]; [congruence| |done].
  exfalso. eapply (below_disjoint pk (str_nat i) (str_nat j) K);
    eauto using str_nat_dot_free.
  intros E'%str_nat_inj. done.
Qed.

Lemma items_lookup (items : list pyval) (i : nat) (x : pyval) (pk K value : string) :
  dot_free_keys (PList items) = true ->
  items !! i = Some x ->
  below pk (str_nat i) K -> mem_char dot K = true ->
  sget K (flatten_data x (pk +:+ str_nat i +:+ ".")) = Some value ->
  sget K (data_items flatten_data pk items 0 []) = Some value.
Proof.
  intros Hplain Hi Hbelow Hdot Hv.
  apply (data_items_only _ _ _ _ _ _ i x); simpl; try done.
  - apply flatten_data_nodup.
  - intros j x' Hj Hne. apply (other_item_absent pk K i j); try done.
    eapply dot_free_keys_item; [done|]. by eapply list_elem_of_lookup_2.
Qed.

Lemma mem_dot_below (p k Y : string) : mem_char dot (p +:+ k +:+ String dot Y) = true.
Proof. rewrite !mem_char_app. simpl. by rewrite !orb_true_r. Qed.

(** Every leaf is found under its path: below the top level always, at the
    top of a dictionary that is itself flattened under a dotted prefix
    too. *)
Lemma data_leaf (d : pyval) (path : list seg) (x : pyval) :
  leaf_at d path x -> dot_free_keys d = true ->
  forall p, mem_char dot p = true \/ 2 <= length path ->
    sget (p +:+ path_string path) (flatten_data d p) = Some (py_str x).
Proof.
  induction 1 as [fields k v Hk Hv | fields k child path x Hk Hleaf IH
                 | fields k items i x Hk Hi Hx
                 | fields k items i child path x Hk Hi Hleaf IH];
    intros Hplain p Hp.
  - destruct Hp as [Hp|Hp]; [|simpl in Hp; lia].
    apply (field_lookup fields k v); try done.
    + by left.
    + rewrite mem_char_app, Hp. done.
    + destruct v; try done; cbn [data_field]; apply sget_sset_eq.
  - destruct (leaf_at_field _ _ _ Hplain Hk) as [Hkp Hchild].
    pose proof (leaf_at_nonempty _ _ _ Hleaf) as Hne.
    rewrite path_string_cons by done. cbn [seg_string].
    apply (field_lookup fields k (PDict child)); try done.
    + right. by eexists.
    + apply mem_dot_below.
    + cbn [data_field].
      replace (p +:+ k +:+ String dot (path_string path))
        with ((p +:+ k +:+ ".") +:+ path_string path) by (by rewrite !append_assoc).
      apply IH; [done|]. left. apply mem_dot_below.
  - destruct (leaf_at_field _ _ _ Hplain Hk) as [Hkp Hitems].
    change (path_string [Key k; Idx i]) with (k +:+ String dot (str_nat i)).
    apply (field_lookup fields k (PList items)); try done.
    + right. by eexists.
    + apply mem_dot_below.
    + cbn [data_field]. apply (items_lookup items i x); try done.
      * left. by rewrite !append_assoc.
      * apply mem_dot_below.
      * assert (flatten_data x ((p +:+ k +:+ ".") +:+ str_nat i +:+ ".")
                = [(p +:+ k +:+ String dot (str_nat i), py_str x)]) as ->.
        { replace ((p +:+ k +:+ ".") +:+ str_nat i +:+ ".")
            with ((p +:+ k +:+ String dot (str_nat i)) +:+ ".")
            by (by rewrite !append_assoc).
          destruct x; try done; simpl; by rewrite re_sub_enddot_app. }
        simpl. by rewrite String.eqb_refl.
  - destruct (leaf_at_field _ _ _ Hplain Hk) as [Hkp Hitems].
    pose proof (leaf_at_nonempty _ _ _ Hleaf) as Hne.
    assert (Hchild : dot_free_keys (PDict child) = true).
    { eapply dot_free_keys_item; [exact Hitems|]. by eapply list_elem_of_lookup_2. }
    rewrite path_string_cons by done. rewrite path_string_cons by done.
    cbn [seg_string].
    apply (field_lookup fields k (PList items)); try done.
    + right. by eexists.
    + apply mem_dot_below.
    + cbn [data_field]. apply (items_lookup items i (PDict child)); try done.
      * right. exists (path_string path). by rewrite !append_assoc.
      * apply mem_dot_below.
      * replace (p +:+ k +:+ String dot (str_nat i +:+ String dot (path_string path)))
          with (((p +:+ k +:+ ".") +:+ str_nat i +:+ ".") +:+ path_string path)
          by (by rewrite !append_assoc).
        apply IH; [done|]. left. rewrite !mem_char_app. simpl.
        by rewrite !orb_true_r.
Qed.

(** ** The coverage guide *)

(** *** The guide has the keys of the flat map *)

Lemma sin_sset {V : Type} (K k : string) (v : V) (d : list (string * V)) :
  sin K (sset k v d) = String.eqb k K || sin K d.
Proof. unfold dict_in. rewrite sget_sset. by destruct (String.eqb k K). Qed.

Lemma sin_guide_items (pk K : string) (devtype : pyval) (items : list pyval) :
  (forall x q, x ∈ items -> sin K (flatten_guide x q devtype) = sin K (flatten_data x q)) ->
  forall i (g : guide_t) (r : flat),
    sin K g = sin K r ->
    sin K (guide_items flatten_guide pk devtype items i g)
    = sin K (data_items flatten_data pk items i r).
Proof.
  induction items as [|x items IH]; intros Hx i g r Hacc; simpl; [done|].
  apply IH.
  - intros x' q Hin. apply Hx. by right.
  - rewrite !sin_supdate, Hacc, Hx; [done|by left].
Qed.

Lemma sin_guide_fields (p K : string) (devtype : pyval) (fields : list (string * pyval)) :
  (forall k v, (k, v) ∈ fields ->
     sin K (guide_field flatten_guide p devtype k v)
     = sin K (data_field flatten_data p k v)) ->
  forall (g : guide_t) (r : flat),
    sin K g = sin K r ->
    sin K (guide_fields flatten_guide p devtype fields g)
    = sin K (data_fields flatten_data p fields r).
Proof.
  induction fields as [|[k v] fields IH]; intros Hf g r Hacc; simpl; [done|].
  apply IH.
  - intros k' v' Hin. apply Hf. by right.
  - rewrite sin_deep_update, sin_supdate, Hacc, Hf; [done|by left].
Qed.

Lemma sin_flatten_guide (d : pyval) :
  forall p devtype K, sin K (flatten_guide d p devtype) = sin K (flatten_data d p).
Proof.
  induction d as [d Hd | fields Hdict Hlist] using flatten_ind; intros p devtype K.
  - destruct d; try done; simpl; unfold put, dict_in; simpl;
      by destruct (String.eqb _ K).
  - simpl. apply sin_guide_fields; [|done].
    intros k v Hin. destruct v as [| | | | items | child]; cbn [guide_field data_field];
      try (unfold put; by rewrite !sin_sset).
    + apply sin_guide_items; [|done]. intros x q Hx. by eapply Hlist.
    + by eapply Hdict.
Qed.

Lemma sin_guide_field (p k K : string) (devtype v : pyval) :
  sin K (guide_field flatten_guide p devtype k v)
  = sin K (data_field flatten_data p k v).
Proof.
  destruct v as [| | | | items | child]; cbn [guide_field data_field];
    try (unfold put; by rewrite !sin_sset).
  - apply sin_guide_items; [|done]. intros x q _. apply sin_flatten_guide.
  - apply sin_flatten_guide.
Qed.

Lemma guide_absent (d : pyval) (p K : string) (devtype : pyval) :
  sget K (flatten_data d p) = None -> sget K (flatten_guide d p devtype) = None.
Proof. rewrite <- !sin_false. by rewrite sin_flatten_guide. Qed.

Lemma guide_field_absent (p k K : string) (devtype v : pyval) :
  sget K (data_field flatten_data p k v) = None ->
  sget K (guide_field flatten_guide p devtype k v) = None.
Proof. rewrite <- !sin_false. by rewrite sin_guide_field. Qed.

(** *** The keys of the guide are distinct *)

Lemma guide_items_nodup (self : pyval -> string -> pyval -> guide_t) (pk : string)
    (devtype : pyval) (items : list pyval) (i : nat) (acc : guide_t) :
  NoDup acc.*1 -> NoDup (guide_items self pk devtype items i acc).*1.
Proof.
  revert i acc. induction items as [|x items IH]; intros i acc Hacc; simpl; [done|].
  apply IH. by apply supdate_nodup.
Qed.

Lemma guide_fields_nodup (p : string) (devtype : pyval)
    (fields : list (string * pyval)) (acc : guide_t) :
  (forall k v, (k, v) ∈ fields -> NoDup (guide_field flatten_guide p devtype k v).*1) ->
  NoDup acc.*1 -> NoDup (guide_fields flatten_guide p devtype fields acc).*1.
Proof.
  revert acc. induction fields as [|[k v] fields IH]; intros acc Hf Hacc; simpl; [done|].
  apply IH.
  - intros k' v' Hin. apply Hf. by right.
  - apply deep_update_nodup. apply Hf. by left.
Qed.

Lemma flatten_guide_nodup (d : pyval) :
  forall p devtype, NoDup (flatten_guide d p devtype).*1.
Proof.
  induction d as [d Hd | fields Hdict Hlist] using flatten_ind; intros p devtype.
  - destruct d; try done; simpl; apply NoDup_singleton.
  - simpl. apply guide_fields_nodup; [|constructor].
    intros k v Hin. destruct v as [| | | | items | child]; cbn [guide_field];
      try (apply put_nodup, put_nodup; constructor).
    + apply guide_items_nodup. constructor.
    + by eapply Hdict.
Qed.

Lemma guide_field_nodup (p k : string) (devtype v : pyval) :
  NoDup (guide_field flatten_guide p devtype k v).*1.
Proof.
  destruct v as [| | | | items | child]; cbn [guide_field];
    try (apply put_nodup, put_nodup; constructor).
  - apply guide_items_nodup. constructor.
  - apply flatten_guide_nodup.
Qed.

(** *** Looking a path up in the guide *)

Lemma guide_fields_app (p : string) (devtype : pyval)
    (pre post : list (string * pyval)) (acc : guide_t) :
  guide_fields flatten_guide p devtype (pre ++ post) acc
  = guide_fields flatten_guide p devtype post
      (guide_fields flatten_guide p devtype pre acc).
Proof.
  revert acc. induction pre as [|[k v] pre IH]; intros acc; simpl; [done|]. apply IH.
Qed.

Lemma guide_fields_absent (p K : string) (devtype : pyval)
    (fields : list (string * pyval)) (acc : guide_t) :
  (forall k v, (k, v) ∈ fields ->
     sget K (guide_field flatten_guide p devtype k v) = None) ->
  sget K acc = None ->
  sget K (guide_fields flatten_guide p devtype fields acc) = None.
Proof.
  revert acc. induction fields as [|[k v] fields IH]; intros acc Hf Hacc; simpl; [done|].
  apply IH.
  - intros k' v' Hin. apply Hf. by right.
  - rewrite sget_deep_update_absent by done. apply Hf. by left.
Qed.

(** The later fields that do not know a path leave its entry as it is. *)
Lemma guide_fields_kept (p K : string) (devtype dt : pyval) (pk : string)
    (fields : list (string * pyval)) (acc : guide_t) :
  (forall k v, (k, v) ∈ fields ->
     sget K (guide_field flatten_guide p devtype k v) = None) ->
  NoDup acc.*1 -> sget K acc = Some [(dt, pk)] ->
  sget K (guide_fields flatten_guide p devtype fields acc) = Some [(dt, pk)].
Proof.
  revert acc. induction fields as [|[k v] fields IH]; intros acc Hf Hnd Hacc; simpl;
    [done|].
  apply IH.
  - intros k' v' Hin. apply Hf. by right.
  - apply deep_update_nodup, guide_field_nodup.
  - apply sget_deep_update_kept; [done| |done]. apply Hf. by left.
Qed.

Lemma distinct_NoDup (l : list string) : distinct l = true -> NoDup l.
Proof.
  induction l as [|x l IH]; simpl; [constructor|].
  intros [Hx Hl]%andb_true_iff. constructor; [|by apply IH].
  intros Hin%in_list_elem_of. by rewrite Hin in Hx.
Qed.

Lemma plain_keys_NoDup (fields : list (string * pyval)) :
  plain_keys (PDict fields) = true -> NoDup fields.*1.
Proof. simpl. intros [H _]%andb_true_iff. by apply distinct_NoDup. Qed.

Lemma dot_free_keys_NoDup (fields : list (string * pyval)) :
  dot_free_keys (PDict fields) = true -> NoDup fields.*1.
Proof. simpl. intros [H _]%andb_true_iff. by apply distinct_NoDup. Qed.

Lemma guide_field_lookup (fields : list (string * pyval)) (k : string) (v : pyval)
    (p K : string) (devtype dt : pyval) (pk : string) :
  dot_free_keys (PDict fields) = true ->
  sget k fields = Some v ->
  below p k K -> mem_char dot K = true ->
  sget K (guide_field flatten_guide p devtype k v) = Some [(dt, pk)] ->
  sget K (guide_fields flatten_guide p devtype fields []) = Some [(dt, pk)].
Proof.
  intros Hplain Hk Hbelow Hdot Hv.
  destruct (sget_split k v fields Hk) as (pre & post & -> & Hpre).
  pose proof (dot_free_keys_NoDup _ Hplain) as Hnd.
  rewrite fmap_app, fmap_cons in Hnd. cbn [fst] in Hnd.
  apply NoDup_app in Hnd as (_ & _ & [Hpost _]%NoDup_cons).
  destruct (dot_free_keys_field _ k v Hplain) as [Hkp _].
  { apply elem_of_app. right. by left. }
  assert (Hother : forall k' v', (k', v') ∈ pre ++ post ->
            sget K (guide_field flatten_guide p devtype k' v') = None).
  { intros k' v' Hin. apply guide_field_absent.
    destruct (dot_free_keys_field _ k' v' Hplain) as [Hk' Hv'].
    { apply elem_of_app in Hin as [Hin|Hin]; apply elem_of_app; [by left|].
      right. by right. }
    apply (other_field_absent p k); try done.
    intros ->. apply elem_of_app in Hin as [Hin|Hin].
    - apply Hpre. apply list_elem_of_fmap. by exists (k, v').
    - apply Hpost. apply list_elem_of_fmap. by exists (k, v'). }
  rewrite guide_fields_app. simpl. apply guide_fields_kept.
  - intros k' v' Hin. apply Hother. apply elem_of_app. by right.
  - apply deep_update_nodup, guide_field_nodup.
  - rewrite sget_deep_update_absent; [done|].
    apply guide_fields_absent; [|done].
    intros k' v' Hin. apply Hother. apply elem_of_app. by left.
Qed.

Lemma guide_items_absent (pk K : string) (devtype : pyval)
    (items : list pyval) (i0 : nat) (acc : guide_t) :
  (forall j x, items !! j = Some x ->
     sget K (flatten_guide x (pk +:+ str_nat (i0 + j) +:+ ".") devtype) = None) ->
  sget K (guide_items flatten_guide pk devtype items i0 acc) = sget K acc.
Proof.
  revert i0 acc. induction items as [|x items IH]; intros i0 acc Hn; simpl; [done|].
  rewrite IH.
  - apply sget_supdate_absent. specialize (Hn 0 x eq_refl).
    by rewrite Nat.add_0_r in Hn.
  - intros j x' Hj. specialize (Hn (S j) x' Hj).
    by replace (i0 + S j) with (S i0 + j) in Hn by lia.
Qed.

Lemma guide_items_only (pk K : string) (devtype : pyval) (value : coverage)
    (items : list pyval) (i0 i : nat) (x : pyval) (acc : guide_t) :
  items !! i = Some x ->
  sget K (flatten_guide x (pk +:+ str_nat (i0 + i) +:+ ".") devtype) = Some value ->
  (forall j x', items !! j = Some x' -> j <> i ->
     sget K (flatten_guide x' (pk +:+ str_nat (i0 + j) +:+ ".") devtype) = None) ->
  sget K (guide_items flatten_guide pk devtype items i0 acc) = Some value.
Proof.
  revert i0 i acc. induction items as [|x0 items IH]; intros i0 i acc Hi HK Hn; [done|].
  destruct i as [|i]; simpl in *.
  - injection Hi as ->. rewrite Nat.add_0_r in *. rewrite guide_items_absent.
    + rewrite sget_supdate by apply flatten_guide_nodup.
      replace (sget K (flatten_guide x (pk +:+ str_nat i0 +:+ ".") devtype))
        with (Some value). done.
    + intros j x' Hj. specialize (Hn (S j) x' Hj ltac:(lia)).
      by replace (i0 + S j) with (S i0 + j) in Hn by lia.
  - apply (IH (S i0) i); try done.
    + by replace (S i0 + i) with (i0 + S i) by lia.
    + intros j x' Hj Hne. specialize (Hn (S j) x' Hj ltac:(lia)).
      by replace (i0 + S j) with (S i0 + j) in Hn by lia.
Qed.

Lemma guide_items_lookup (items : list pyval) (i : nat) (x : pyval) (pk K : string)
    (devtype : pyval) (value : coverage) :
  dot_free_keys (PList items) = true ->
  items !! i = Some x ->
  below pk (str_nat i) K -> mem_char dot K = true ->
  sget K (flatten_guide x (pk +:+ str_nat i +:+ ".") devtype) = Some value ->
  sget K (guide_items flatten_guide pk devtype items 0 []) = Some value.
Proof.
  intros Hplain Hi Hbelow Hdot Hv.
  apply (guide_items_only _ _ _ _ _ _ i x); simpl; try done.
  intros j x' Hj Hne. apply guide_absent. apply (other_item_absent pk K i j); try done.
  eapply dot_free_keys_item; [done|]. by eapply list_elem_of_lookup_2.
Qed.

(** *** The index substitution along a path *)

Lemma reads_nil : reads "" "" None.
Proof. intros s. by rewrite !append_nil_l. Qed.

Lemma reads_key_idle (p np k : string) :
  reads p np None -> mem_char dot k = false ->
  reads (p +:+ k +:+ ".") (np +:+ pending None +:+ k) (Some EmptyString).
Proof.
  intros Hr Hk s.
  replace ((p +:+ k +:+ ".") +:+ s) with (p +:+ (k +:+ String dot s))
    by (by rewrite !append_assoc).
  rewrite Hr. rewrite !append_assoc. f_equal. simpl pending.
  rewrite append_nil_l. by rewrite sub_index_idle.
Qed.

Lemma reads_key (p np k : string) (st : option string) :
  reads p np st -> st = None \/ st = Some EmptyString -> plain_key k = true ->
  reads (p +:+ k +:+ ".") (np +:+ pending st +:+ k) (Some EmptyString).
Proof.
  intros Hr Hst Hk s.
  replace ((p +:+ k +:+ ".") +:+ s) with (p +:+ (k +:+ String dot s))
    by (by rewrite !append_assoc).
  rewrite Hr. rewrite !append_assoc. f_equal.
  destruct Hst as [-> | ->]; simpl pending.
  - rewrite append_nil_l. rewrite sub_index_idle by (by apply plain_key_dot_free).
    done.
  - rewrite sub_index_open_key by done. by rewrite append_cons, append_nil_l.
Qed.

(** A key is written out as it is when it has no dot and is not taken for
    an index: when no dot is pending, or when it is not a numeral. *)
Lemma reads_key_kept (p np k : string) (st : option string) :
  reads p np st -> mem_char dot k = false ->
  st = None \/ (st = Some EmptyString /\ numeral k = false) ->
  reads (p +:+ k +:+ ".") (np +:+ pending st +:+ k) (Some EmptyString).
Proof.
  intros Hr Hk [-> | [-> Hnum]].
  - by apply reads_key_idle.
  - apply reads_key; [done|by right|].
    unfold plain_key. rewrite Hk. cbn [negb andb].
    destruct k; [done|]. cbn [numeral] in Hnum. by rewrite Hnum.
Qed.

Lemma reads_index (q nq : string) (i : nat) :
  reads q nq (Some EmptyString) ->
  reads (q +:+ str_nat i +:+ ".") (nq +:+ ".[n].") None.
Proof.
  intros Hr s.
  replace ((q +:+ str_nat i +:+ ".") +:+ s) with (q +:+ (str_nat i +:+ String dot s))
    by (by rewrite !append_assoc).
  rewrite Hr, sub_index_open_index. by rewrite !append_assoc.
Qed.

(** The last key of a path is written out whenever it has no dot. *)
Lemma reads_last_key (p np k : string) (st : option string) :
  reads p np st -> st = None \/ st = Some EmptyString -> mem_char dot k = false ->
  re_sub_index (p +:+ k) = np +:+ pending st +:+ k.
Proof.
  intros Hr Hst Hk. unfold re_sub_index. rewrite Hr. f_equal.
  destruct Hst as [-> | ->]; simpl pending.
  - rewrite append_nil_l. by apply sub_index_idle_end.
  - rewrite sub_index_open_end by done. by rewrite append_cons, !append_nil_l.
Qed.

Lemma reads_end_key (p np k : string) (st : option string) :
  reads p np st -> st = None \/ st = Some EmptyString -> plain_key k = true ->
  re_sub_index (p +:+ k) = np +:+ pending st +:+ k.
Proof.
  intros Hr Hst Hk. unfold re_sub_index. rewrite Hr. f_equal.
  apply plain_key_dot_free in Hk.
  destruct Hst as [-> | ->]; simpl pending.
  - rewrite append_nil_l. by apply sub_index_idle_end.
  - rewrite sub_index_open_end by done. by rewrite append_cons, !append_nil_l.
Qed.

Lemma reads_end (p np : string) : reads p np None -> re_sub_index p = np.
Proof.
  intros Hr. unfold re_sub_index. specialize (Hr EmptyString).
  simpl in Hr. by rewrite !append_nil_r in Hr.
Qed.

(** *** The canonical path of a leaf *)

Lemma dotted_not_key (p k : string) :
  mem_char dot k = false -> mem_char dot (p +:+ k) = true -> k <> p +:+ k.
Proof. intros Hk Hpk E. rewrite <- E in Hpk. congruence. Qed.

Lemma guide_scalar (p k : string) (devtype v : pyval) :
  is_container v = false -> k <> p +:+ k ->
  sget (p +:+ k) (guide_field flatten_guide p devtype k v)
  = Some [(devtype, re_sub_index (p +:+ k))].
Proof.
  intros Hv Hne.
  assert (guide_field flatten_guide p devtype k v
          = put (p +:+ k) devtype (re_sub_index (p +:+ k))
              (put k devtype (re_sub_index (p +:+ k)) [])) as ->
    by (by destruct v).
  unfold put at 1. rewrite sget_sset_eq. unfold put. simpl.
  destruct (String.eqb_spec k (p +:+ k)); [done|]. done.
Qed.

Lemma guide_element (x : pyval) (q nq : string) (devtype : pyval) :
  is_dict x = false -> re_sub_index (q +:+ ".") = nq +:+ "." ->
  flatten_guide x (q +:+ ".") devtype = [(q, [(devtype, nq)])].
Proof.
  intros Hx Hq.
  assert (flatten_guide x (q +:+ ".") devtype
          = put (re_sub_enddot (q +:+ ".")) devtype
              (re_sub_enddot (re_sub_index (q +:+ "."))) []) as ->
    by (by destruct x).
  by rewrite Hq, !re_sub_enddot_app.
Qed.

Lemma keys_kept_cons (b : bool) (k : string) (path : list seg) :
  path <> [] ->
  keys_kept b (Key k :: path) = negb (b && numeral k) && keys_kept true path.
Proof. by destruct path. Qed.

(** The canonical path of a leaf is its path with the indices replaced,
    when no key on the path is taken for an index. *)
Lemma guide_leaf_kept (d : pyval) (path : list seg) (x : pyval) :
  leaf_at d path x -> dot_free_keys d = true ->
  forall p np st b devtype,
    reads p np st ->
    (st = None /\ b = false) \/ (st = Some EmptyString /\ b = true) ->
    keys_kept b path = true ->
    mem_char dot p = true \/ 2 <= length path ->
    exists devtype',
      sget (p +:+ path_string path) (flatten_guide d p devtype)
      = Some [(devtype', np +:+ pending st +:+ wildcard path)].
Proof.
  induction 1 as [fields k v Hk Hv | fields k child path x Hk Hleaf IH
                 | fields k items i x Hk Hi Hx
                 | fields k items i child path x Hk Hi Hleaf IH];
    intros Hplain p np st b devtype Hr Hst Hkept Hp; cbn [flatten_guide];
    destruct (leaf_at_field _ _ _ Hplain Hk) as [Hkd Hsub];
    set (dt := devtype_of devtype fields);
    assert (Hst' : st = None \/ st = Some EmptyString)
      by (destruct Hst as [[-> _]|[-> _]]; auto).
  - exists dt. destruct Hp as [Hp|Hp]; [|simpl in Hp; lia].
    assert (Hdot : mem_char dot (p +:+ k) = true) by (by rewrite mem_char_app, Hp).
    apply (guide_field_lookup fields k v); try done.
    + by left.
    + rewrite guide_scalar; [|done|by apply dotted_not_key].
      by rewrite (reads_last_key p np k st).
  - pose proof (leaf_at_nonempty _ _ _ Hleaf) as Hne.
    rewrite keys_kept_cons in Hkept by done.
    apply andb_true_iff in Hkept as [Hnum Hkept]. apply negb_true_iff in Hnum.
    assert (Hrk : reads (p +:+ k +:+ ".") (np +:+ pending st +:+ k) (Some EmptyString)).
    { apply reads_key_kept; [done|done|].
      destruct Hst as [[-> _]|[-> ->]]; [by left|right]. by split. }
    destruct (IH Hsub (p +:+ k +:+ ".") _ _ true dt Hrk) as [dt' Hdt'];
      [by right|done|left; apply mem_dot_below|].
    exists dt'. rewrite path_string_cons, wildcard_cons by done. cbn [seg_string].
    apply (guide_field_lookup fields k (PDict child)); try done.
    + right. by eexists.
    + apply mem_dot_below.
    + cbn [guide_field].
      replace (p +:+ k +:+ String dot (path_string path))
        with ((p +:+ k +:+ ".") +:+ path_string path) by (by rewrite !append_assoc).
      replace (np +:+ pending st +:+ k +:+ String dot (wildcard path))
        with ((np +:+ pending st +:+ k) +:+ pending (Some EmptyString) +:+ wildcard path)
        by (simpl pending; by rewrite !append_assoc).
      exact Hdt'.
  - cbn [keys_kept] in Hkept.
    apply andb_true_iff in Hkept as [Hnum _]. apply negb_true_iff in Hnum.
    assert (Hrk : reads (p +:+ k +:+ ".") (np +:+ pending st +:+ k) (Some EmptyString)).
    { apply reads_key_kept; [done|done|].
      destruct Hst as [[-> _]|[-> ->]]; [by left|right]. by split. }
    exists dt.
    change (path_string [Key k; Idx i]) with (k +:+ String dot (str_nat i)).
    change (wildcard [Key k; Idx i]) with (k +:+ ".[n]").
    apply (guide_field_lookup fields k (PList items)); try done.
    + right. by eexists.
    + apply mem_dot_below.
    + cbn [guide_field]. apply (guide_items_lookup items i x); try done.
      * left. by rewrite !append_assoc.
      * apply mem_dot_below.
      * replace ((p +:+ k +:+ ".") +:+ str_nat i +:+ ".")
          with ((p +:+ k +:+ String dot (str_nat i)) +:+ ".")
          by (by rewrite !append_assoc).
        rewrite (guide_element x _ (np +:+ pending st +:+ k +:+ ".[n]")); try done.
        { simpl. by rewrite String.eqb_refl. }
        replace ((p +:+ k +:+ String dot (str_nat i)) +:+ ".")
          with ((p +:+ k +:+ ".") +:+ str_nat i +:+ ".")
          by (by rewrite !append_assoc).
        rewrite (reads_end _ _ (reads_index _ _ i Hrk)). by rewrite !append_assoc.
  - pose proof (leaf_at_nonempty _ _ _ Hleaf) as Hne.
    cbn [keys_kept] in Hkept.
    apply andb_true_iff in Hkept as [Hnum Hkept]. apply negb_true_iff in Hnum.
    assert (Hrk : reads (p +:+ k +:+ ".") (np +:+ pending st +:+ k) (Some EmptyString)).
    { apply reads_key_kept; [done|done|].
      destruct Hst as [[-> _]|[-> ->]]; [by left|right]. by split. }
    assert (Hchild : dot_free_keys (PDict child) = true).
    { eapply dot_free_keys_item; [exact Hsub|]. by eapply list_elem_of_lookup_2. }
    destruct (IH Hchild _ _ _ false dt (reads_index _ _ i Hrk)) as [dt' Hdt'];
      [by left|done| |].
    { left. rewrite !mem_char_app. simpl. by rewrite !orb_true_r. }
    exists dt'. rewrite !path_string_cons, !wildcard_cons by done. cbn [seg_string].
    apply (guide_field_lookup fields k (PList items)); try done.
    + right. by eexists.
    + apply mem_dot_below.
    + cbn [guide_field]. apply (guide_items_lookup items i (PDict child)); try done.
      * right. exists (path_string path). by rewrite !append_assoc.
      * apply mem_dot_below.
      * replace (p +:+ k +:+ String dot (str_nat i +:+ String dot (path_string path)))
          with (((p +:+ k +:+ ".") +:+ str_nat i +:+ ".") +:+ path_string path)
          by (by rewrite !append_assoc).
        replace (np +:+ pending st +:+ k +:+ String dot ("[n]" +:+ String dot (wildcard path)))
          with (((np +:+ pending st +:+ k) +:+ ".[n].") +:+ pending None +:+ wildcard path)
          by (simpl pending; by rewrite !append_assoc).
        exact Hdt'.
Qed.

(** On the paths of a value with plain keys no key is taken for an
    index. *)
Lemma plain_keys_kept (d : pyval) (path : list seg) (x : pyval) :
  leaf_at d path x -> plain_keys d = true -> forall b, keys_kept b path = true.
Proof.
  assert (Hnum : forall k, plain_key k = true -> numeral k = false).
  { intros k. unfold plain_key. intros [_ H]%andb_true_iff.
    destruct k; [done|]. by apply negb_true_iff in H. }
  induction 1 as [fields k v Hk Hv | fields k child path x Hk Hleaf IH
                 | fields k items i x Hk Hi Hx
                 | fields k items i child path x Hk Hi Hleaf IH];
    intros Hplain b;
    destruct (leaf_at_plain_field _ _ _ Hplain Hk) as [Hkp Hsub].
  - done.
  - pose proof (leaf_at_nonempty _ _ _ Hleaf) as Hne.
    rewrite keys_kept_cons by done. rewrite (Hnum k Hkp), andb_false_r.
    by apply IH.
  - cbn [keys_kept]. by rewrite (Hnum k Hkp), andb_false_r.
  - cbn [keys_kept]. rewrite (Hnum k Hkp), andb_false_r. cbn [negb andb].
    apply IH. eapply plain_keys_item; [exact Hsub|]. by eapply list_elem_of_lookup_2.
Qed.

Lemma guide_leaf (d : pyval) (path : list seg) (x : pyval) :
  leaf_at d path x -> plain_keys d = true ->
  forall p np st devtype,
    reads p np st -> st = None \/ st = Some EmptyString ->
    mem_char dot p = true \/ 2 <= length path ->
    exists devtype',
      sget (p +:+ path_string path) (flatten_guide d p devtype)
      = Some [(devtype', np +:+ pending st +:+ wildcard path)].
Proof.
  intros Hleaf Hplain p np st devtype Hr Hst Hp.
  apply (guide_leaf_kept d path x Hleaf (plain_keys_dot_free_keys d Hplain) p np st
           (match st with Some _ => true | None => false end)); try done.
  - destruct Hst as [-> | ->]; auto.
  - by apply (plain_keys_kept d path x).
Qed.

(** ** [flatten] on a record whose device type is known *)

Lemma flatten_items_typed (pk : string) (devtype : pyval) (items : list pyval) :
  (forall x p, x ∈ items ->
     flatten x p devtype = Ok (flatten_data x p, flatten_guide x p devtype)) ->
  forall i nd ng,
    flatten_items flatten pk devtype items i nd ng
    = Ok (data_items flatten_data pk items i nd,
          guide_items flatten_guide pk devtype items i ng).
Proof.
  induction items as [|x items IH]; intros Hx i nd ng; simpl; [done|].
  rewrite Hx by (by left). simpl. apply IH. intros x' p Hin. apply Hx. by right.
Qed.

Lemma flatten_fields_typed (p : string) (devtype : pyval) (fields : list (string * pyval)) :
  hashable devtype = true ->
  (forall k child q, (k, PDict child) ∈ fields ->
     flatten (PDict child) q devtype
     = Ok (flatten_data (PDict child) q, flatten_guide (PDict child) q devtype)) ->
  (forall k items x q, (k, PList items) ∈ fields -> x ∈ items ->
     flatten x q devtype = Ok (flatten_data x q, flatten_guide x q devtype)) ->
  forall result guide,
    flatten_fields flatten p devtype fields result guide
    = Ok (data_fields flatten_data p fields result,
          guide_fields flatten_guide p devtype fields guide).
Proof.
  intros Hh. induction fields as [|[k v] fields IH]; intros Hd Hl result guide; simpl;
    [done|].
  assert (flatten_field flatten p devtype k v
          = Ok (data_field flatten_data p k v, guide_field flatten_guide p devtype k v))
    as ->.
  { destruct v as [| | | | items | child]; simpl;
      try (unfold flatten_scalar, guide_put; by rewrite Hh).
    - apply flatten_items_typed. intros x q Hx. apply (Hl k items); [by left|done].
    - apply (Hd k). by left. }
  simpl. apply IH.
  - intros k' child q Hin. apply (Hd k'). by right.
  - intros k' items x q Hin. apply (Hl k'). by right.
Qed.

(** Under a device type that is given, [flatten] returns. *)
Lemma flatten_typed (d : pyval) :
  forall p devtype, truthy devtype = true -> hashable devtype = true ->
    flatten d p devtype = Ok (flatten_data d p, flatten_guide d p devtype).
Proof.
  induction d as [d Hd | fields Hdict Hlist] using flatten_ind;
    intros p devtype Ht Hh.
  - destruct d; try done; simpl; unfold flatten_leaf, guide_put; by rewrite Hh.
  - simpl. unfold devtype_of. rewrite Ht. simpl.
    apply flatten_fields_typed; [done| |].
    + intros k child q Hin. by eapply Hdict.
    + intros k items x q Hin Hx. by eapply Hlist.
Qed.

(** A record that states its device type is flattened without an error. *)
Lemma flatten_record_returns (fields : list (string * pyval)) (p : string)
    (devtype : pyval) :
  get_devtype fields = Ok devtype -> truthy devtype = true -> hashable devtype = true ->
  flatten (PDict fields) p PNone
  = Ok (flatten_data (PDict fields) p, flatten_guide (PDict fields) p PNone).
Proof.
  intros Hg Ht Hh. simpl. unfold devtype_of. simpl. rewrite Hg. simpl.
  apply flatten_fields_typed; [done| |].
  - intros k child q _. by apply flatten_typed.
  - intros k items x q _ _. by apply flatten_typed.
Qed.

(** ** The claims about [flatten] *)

(** The short key of a top-level scalar field holds what the fields before
    it have yielded for it, if anything, and the field's own value if not. *)
Lemma top_level_scalar (pre post : list (string * pyval)) (k : string) (v : pyval) :
  is_container v = false ->
  sget k (flatten_data (PDict (pre ++ (k, v) :: post)) "")
  = match sget k (flatten_data (PDict pre) "") with
    | Some earlier => Some earlier
    | None => Some (py_str v)
    end.
Proof.
  intros Hv.
  destruct (sget k (flatten_data (PDict pre) "")) as [earlier|] eqn:Hpre.
  - simpl. rewrite data_fields_app. simpl. apply data_fields_kept.
    + apply supdate_nodup, data_field_nodup.
    + rewrite sget_supdate by apply (flatten_data_nodup (PDict pre)).
      simpl in Hpre. by rewrite Hpre.
  - apply data_fields_first_seen; [done|].
    assert (data_field flatten_data "" k v
            = sset ("" +:+ k) (py_str v) (sset k (py_str v) [])) as ->
      by (by destruct v).
    rewrite append_nil_l. apply sget_sset_eq.
Qed.

(** C3 (amended): when [flatten] returns for a record whose keys have no
    dot in them (and are distinct, as the keys of a dictionary are), every
    leaf below the top level is found in the flat map under its
    fully-qualified dotted path, array elements addressed by their index;
    the coverage guide maps that path, for one device type, to the same path
    with every array index replaced by the marker [[n]], whatever the length
    of the arrays, provided no key on the path is a numeral that follows
    another key and is followed by a further segment (the substitution takes
    such a key for an index); a top-level leaf is found under its key when
    no field before it holds a leaf of that name.  A leaf is a field that is
    neither an object nor an array, or an element of an array that is not an
    object. *)
Theorem flatten_leaves_reachable (d : pyval) (devtype : pyval)
    (data : flat) (guide : guide_t) (path : list seg) (x : pyval) :
  flatten d "" devtype = Ok (data, guide) ->
  dot_free_keys d = true ->
  leaf_at d path x ->
  (2 <= length path ->
     sget (path_string path) data = Some (py_str x) /\
     (keys_kept false path = true ->
        exists devtype',
          sget (path_string path) guide = Some [(devtype', wildcard path)])) /\
  (forall pre k post,
     d = PDict (pre ++ (k, x) :: post) -> path = [Key k] ->
     sget k (flatten_data (PDict pre) "") = None ->
     sget (path_string path) data = Some (py_str x)).
Proof.
  intros Hflat Hplain Hleaf.
  apply flatten_returns in Hflat as [-> ->]. split.
  - intros Hlen. split.
    + rewrite <- (append_nil_l (path_string path)). apply data_leaf; auto.
    + intros Hkept.
      destruct (guide_leaf_kept d path x Hleaf Hplain "" "" None false devtype reads_nil)
        as [dt Hdt]; auto.
      exists dt. by rewrite !append_nil_l in Hdt.
  - intros pre k post -> -> Hpre. inversion Hleaf; subst;
      try match goal with H : leaf_at _ [] _ |- _ => by apply leaf_at_nonempty in H end.
    change (path_string [Key k]) with k.
    rewrite top_level_scalar by done. by rewrite Hpre.
Qed.

Lemma flatten_leaves_reachable_witness :
  (sget "settings.relays.1.name" (flatten_data retagged_record "") = Some "None" /\
   exists devtype',
     sget "settings.relays.1.name" (flatten_guide retagged_record "" PNone)
     = Some [(devtype', "settings.relays.[n].name")]) /\
  sget "a.7.0.b" (flatten_data numeral_key_record "") = Some "1" /\
  sget "Tags" (flatten_data tagged_first_record "") = Some "a,b".
Proof.
  split; [|split].
  - destruct (proj1 (flatten_leaves_reachable retagged_record PNone
                       (flatten_data retagged_record "")
                       (flatten_guide retagged_record "" PNone)
                       [Key "settings"; Key "relays"; Idx 1; Key "name"] PNone
                       ltac:(vm_compute; reflexivity) eq_refl
                       ltac:(unfold retagged_record;
                             eapply (leaf_below _ "settings"); [reflexivity|];
                             eapply (leaf_below_item _ "relays" _ 1);
                               [reflexivity|reflexivity|];
                             by apply leaf_field))
                ltac:(simpl; lia)) as [Hdata Hguide].
    split; [exact Hdata|]. apply Hguide. reflexivity.
  - apply (proj1 (flatten_leaves_reachable numeral_key_record PNone
                    (flatten_data numeral_key_record "")
                    (flatten_guide numeral_key_record "" PNone)
                    [Key "a"; Key "7"; Idx 0; Key "b"] (PInt 1)
                    ltac:(vm_compute; reflexivity) eq_refl
                    ltac:(unfold numeral_key_record;
                          eapply (leaf_below _ "a"); [reflexivity|];
                          eapply (leaf_below_item _ "7" _ 0);
                            [reflexivity|reflexivity|];
                          by apply leaf_field))).
    simpl. lia.
  - apply (proj2 (flatten_leaves_reachable tagged_first_record PNone
                    (flatten_data tagged_first_record "")
                    (flatten_guide tagged_first_record "" PNone)
                    [Key "Tags"] (PStr "a,b")
                    ltac:(vm_compute; reflexivity) eq_refl
                    ltac:(by apply (leaf_field _ "Tags")))
             [("ID", PStr "98CDAC1E3126")] "Tags"
             [("ConfigInput", PDict [("SSID", PStr "home"); ("Tags", PStr "a")])]);
      reflexivity.
Defined.

(** C3, as stated, fails: a top-level leaf that comes after a nested leaf of
    the same name is not found under its path; a key with a dot in it takes
    the place of the path it spells; an array held under a numeral key has the
    key replaced by the marker and its index kept; the elements of an array
    inside an array are not entries of the flat map. *)
Lemma flatten_leaves_unreachable_counterexample :
  (leaf_at retagged_record [Key "Tags"] (PStr "a,b") /\
   exists data guide,
     flatten retagged_record "" PNone = Ok (data, guide) /\
     sget "Tags" data = Some "a") /\
  (leaf_at dotted_key_record [Key "a"; Key "b"] (PInt 2) /\
   exists data guide,
     flatten dotted_key_record "" PNone = Ok (data, guide) /\
     sget "a.b" data = Some "1") /\
  (leaf_at numeral_key_record [Key "a"; Key "7"; Idx 0; Key "b"] (PInt 1) /\
   exists data guide,
     flatten numeral_key_record "" PNone = Ok (data, guide) /\
     sget "a.7.0.b" guide = Some [(PNone, "a.[n].0.b")]) /\
  (exists data guide,
     flatten nested_array_record "" PNone = Ok (data, guide) /\
     sget "a.0.0" data = None /\ sget "a.0" data = Some "[1, 2]").
Proof.
  split; [|split; [|split]].
  - split; [by apply (leaf_field _ "Tags")|].
    eexists _, _. split; [vm_compute; reflexivity|]. vm_compute. reflexivity.
  - split.
    + unfold dotted_key_record. eapply (leaf_below _ "a"); [reflexivity|].
      by apply leaf_field.
    + eexists _, _. split; [vm_compute; reflexivity|]. vm_compute. reflexivity.
  - split.
    + unfold numeral_key_record.
      eapply (leaf_below _ "a"); [reflexivity|].
      eapply (leaf_below_item _ "7" _ 0); [reflexivity|reflexivity|].
      by apply leaf_field.
    + eexists _, _. split; [vm_compute; reflexivity|]. vm_compute. reflexivity.
  - eexists _, _. split; [vm_compute; reflexivity|]. split; vm_compute; reflexivity.
Qed.




(** ** Tag edits on the registry *)

Section stored_tags.
Variable set_iter : gset string -> list string.
Hypothesis order : set_order set_iter.

(** The record of [tagged_db] after an edit has stored [tags]: it is read
    with the tag [a] again. *)
Lemma retagged_reads_a (tags : string) :
  flatten (PDict (sset "Tags" (PStr tags) tagged_fields)) "" PNone
  = Ok (flatten_data (PDict (tagged_fields ++ [("Tags", PStr tags)])) "",
        flatten_guide (PDict (tagged_fields ++ [("Tags", PStr tags)])) "" PNone)
  /\ sget "Tags" (flatten_data (PDict (tagged_fields ++ [("Tags", PStr tags)])) "")
     = Some "a"
  /\ sget "ID" (flatten_data (PDict (tagged_fields ++ [("Tags", PStr tags)])) "")
     = Some "98CDAC1E3126".
Proof.
  rewrite (sset_absent "Tags") by done. split; [|split].
  - by apply (flatten_record_returns _ "" (PStr "SHSW-1")).
  - by rewrite top_level_scalar.
  - reflexivity.
Qed.

Lemma tagged_reads_a :
  flatten (PDict tagged_fields) "" PNone
  = Ok (flatten_data (PDict tagged_fields) "", flatten_guide (PDict tagged_fields) "" PNone)
  /\ sget "Tags" (flatten_data (PDict tagged_fields) "") = Some "a"
  /\ sget "ID" (flatten_data (PDict tagged_fields) "") = Some "98CDAC1E3126".
Proof.
  split; [|split]; [|reflexivity..].
  by apply (flatten_record_returns _ "" (PStr "SHSW-1")).
Qed.

Lemma tag_set_a (data : flat) :
  sget "Tags" data = Some "a" -> tag_set data = {[ "a" ]}.
Proof.
  intros H. rewrite (tag_set_of_tags data "a" H).
  apply set_eq. intros x. rewrite tag_set_old_tags, elem_of_singleton.
  change (old_tags_of [("Tags", "a")]) with ["a"]. rewrite list_elem_of_singleton.
  split; [by intros [_ ->]|by intros ->].
Qed.

(** C10. The edits are not kept on a device that was imported with tags.
    The registry record of [tagged_db] holds the tag [a] in its
    [ConfigInput] and is read with the tags [{a}].  A query with [--set-tag
    b] shows and stores the tags [{a, b}]; the record is read with [{a}]
    again, so that a second query with [--set-tag c] stores [{a, c}]: the
    tag [b] is gone.  A query with [--delete-tag a] stores no tag, and the
    record is read with [{a}] again.  And in one query with [--set-tag b] and
    [--delete-tag c] the tag [b] is not added. *)
Theorem tag_edits_are_not_kept :
  let id := "98CDAC1E3126" in
  let data := flatten_data (PDict tagged_fields) "" in
  flatten (PDict tagged_fields) "" PNone
  = Ok (data, flatten_guide (PDict tagged_fields) "" PNone) /\
  tag_set data = {[ "a" ]} /\
  (exists data1 db1 fields1,
     query_retag set_iter (Some "b") None data tagged_db = Ok (data1, db1) /\
     tag_set data1 = {[ "a"; "b" ]} /\
     sget id db1 = Some (PDict fields1) /\
     exists data2 guide2,
       flatten (PDict fields1) "" PNone = Ok (data2, guide2) /\
       tag_set data2 = {[ "a" ]} /\
       exists data3 db2 fields2 tags,
         query_retag set_iter (Some "c") None data2 db1 = Ok (data3, db2) /\
         sget id db2 = Some (PDict fields2) /\
         sget "Tags" fields2 = Some (PStr tags) /\
         sget "Tags" data3 = Some tags /\
         tag_set data3 = {[ "a"; "c" ]}) /\
  (exists data1 db1 fields1,
     query_retag set_iter None (Some "a") data tagged_db = Ok (data1, db1) /\
     tag_set data1 = ∅ /\
     sget id db1 = Some (PDict fields1) /\
     exists data2 guide2,
       flatten (PDict fields1) "" PNone = Ok (data2, guide2) /\
       tag_set data2 = {[ "a" ]}) /\
  tag_set (edit_tags set_iter (Some "b") (Some "c") data) = {[ "a" ]}.
Proof.
  intros id data.
  destruct tagged_reads_a as (Hflat & Htags & Hid). fold data in Hflat, Htags, Hid.
  pose proof (tag_set_a data Htags) as Ha.
  split; [done|]. split; [done|]. split; [|split].
  - destruct (query_retag_returns set_iter (Some "b") None data tagged_db id
                tagged_fields eq_refl Hid eq_refl) as (tags1 & Ht1 & Hq1).
    eexists _, _, _. split; [exact Hq1|]. split.
    { rewrite (tag_set_after_set set_iter order "b" None data) by done. by rewrite Ha. }
    split; [by rewrite sget_sset_eq|].
    destruct (retagged_reads_a tags1) as (Hflat2 & Htags2 & Hid2).
    eexists _, _. split; [exact Hflat2|]. split; [by apply tag_set_a|].
    set (data2 := flatten_data (PDict (tagged_fields ++ [("Tags", PStr tags1)])) "")
      in *.
    destruct (query_retag_returns set_iter (Some "c") None data2
                (sset id (PDict (sset "Tags" (PStr tags1) tagged_fields)) tagged_db) id
                (sset "Tags" (PStr tags1) tagged_fields) eq_refl Hid2)
      as (tags2 & Ht2 & Hq2); [by rewrite sget_sset_eq|].
    eexists _, _, _, tags2. split; [exact Hq2|].
    split; [by rewrite sget_sset_eq|]. split; [by rewrite sget_sset_eq|].
    split; [done|].
    rewrite (tag_set_after_set set_iter order "c" None data2) by done.
    by rewrite (tag_set_a data2 Htags2).
  - destruct (query_retag_returns set_iter None (Some "a") data tagged_db id
                tagged_fields eq_refl Hid eq_refl) as (tags1 & Ht1 & Hq1).
    eexists _, _, _. split; [exact Hq1|]. split.
    { rewrite (tag_set_after_delete set_iter order None "a" data) by done.
      rewrite Ha. apply set_eq. intros x.
      rewrite elem_of_difference, !elem_of_singleton.
      split; [by intros [-> ?]|]. by intros ?%elem_of_empty. }
    split; [by rewrite sget_sset_eq|].
    destruct (retagged_reads_a tags1) as (Hflat2 & Htags2 & _).
    eexists _, _. split; [exact Hflat2|]. by apply tag_set_a.
  - rewrite (tag_set_after_delete set_iter order (Some "b") "c" data) by done.
    rewrite Ha. apply set_eq. intros x.
    rewrite elem_of_difference, !elem_of_singleton. split; [by intros [? _]|].
    intros ->. done.
Qed.
End stored_tags.

Lemma tag_edits_are_not_kept_witness :
  tag_set (edit_tags elements (Some "b") (Some "c") (flatten_data (PDict tagged_fields) ""))
  = {[ "a" ]}.
Proof.
  apply (tag_edits_are_not_kept elements (fun s => Permutation_refl _)).
Defined.

(* ================================================================== *)
(** * Part III: further properties of the code                         *)
(* ================================================================== *)

(** ** Conditions given on the command line *)

Lemma split_on_nonempty (c : ascii) (s : string) : split_on c s <> [].
Proof.
  induction s as [|a s IH]; simpl; [done|].
  destruct (Ascii.eqb a c); [done|]. by destruct (split_on c s).
Qed.

(** A string splits in two or more parts exactly when it holds the
    separator. *)
Lemma split_on_two (c : ascii) (s : string) :
  (length (split_on c s) <? 2)%nat = negb (mem_char c s).
Proof.
  induction s as [|a s IH]; simpl; [done|].
  destruct (Ascii.eqb a c) eqn:E; simpl.
  - pose proof (split_on_nonempty c s). by destruct (split_on c s).
  - rewrite <- IH. pose proof (split_on_nonempty c s).
    by destruct (split_on c s) as [|w [|w' ws]].
Qed.

Lemma check_pairs_Ok (result : list (list string)) :
  check_pairs result = Ok tt <-> Forall (fun q => 2 <= length q) result.
Proof.
  induction result as [|q result IH]; simpl.
  - split; [by constructor|done].
  - rewrite Forall_cons. destruct (Nat.ltb_spec (length q) 2).
    + split; [done|]. intros [? _]. lia.
    + rewrite IH. split; [by split|by intros [_ ?]].
Qed.

Lemma check_pairs_split (terms : list string) :
  check_pairs (map (split_on equals_sign) terms)
  = if forallb (mem_char equals_sign) terms then Ok tt else Raise SystemExit.
Proof.
  induction terms as [|t terms IH]; simpl; [done|].
  rewrite split_on_two. destruct (mem_char equals_sign t); simpl; [apply IH|done].
Qed.

Lemma get_name_value_pairs_well_formed (query_conditions : option string)
    (conds : list (list string)) :
  get_name_value_pairs query_conditions = Ok conds ->
  Forall (fun q => exists name value rest, q = name :: value :: rest) conds.
Proof.
  unfold get_name_value_pairs.
  destruct (check_pairs _) as [[]|] eqn:E; simpl; [|done].
  intros [= <-]. apply check_pairs_Ok in E.
  eapply Forall_impl; [exact E|]. intros [|name [|value rest]] H; simpl in H; try lia.
  by exists name, value, rest.
Qed.

(** X1. [get_name_value_pairs] returns no condition for an absent or empty
    argument; for any other argument it returns the comma-separated terms,
    each split at its equals signs, when every term holds an equals sign,
    and calls [sys.exit()] when some term holds none.  Every condition it
    returns has a name and a value. *)
Theorem get_name_value_pairs_terms (query_conditions : option string) :
  (given query_conditions = false -> get_name_value_pairs query_conditions = Ok []) /\
  (forall s, query_conditions = Some s -> s <> EmptyString ->
     get_name_value_pairs query_conditions
     = if forallb (mem_char equals_sign) (split_on comma s)
       then Ok (map (split_on equals_sign) (split_on comma s))
       else Raise SystemExit) /\
  (forall conds, get_name_value_pairs query_conditions = Ok conds ->
     Forall (fun q => exists name value rest, q = name :: value :: rest) conds).
Proof.
  split; [|split].
  - intros Hg. unfold get_name_value_pairs. rewrite Hg. by destruct query_conditions.
  - intros s -> Hs. unfold get_name_value_pairs.
    assert (given (Some s) = true) as ->.
    { simpl. by destruct (String.eqb_spec s EmptyString). }
    rewrite check_pairs_split. by destruct (forallb _ _).
  - apply get_name_value_pairs_well_formed.
Qed.

Lemma check_conditions_total (rec : flat) (conds : list (list string)) :
  Forall (fun q => exists name value rest, q = name :: value :: rest) conds ->
  exists b, check_conditions rec conds = Ok b.
Proof.
  induction 1 as [|q conds (name & value & rest & ->) _ IH]; simpl; [by eexists|].
  destruct (sget name rec) as [v|]; [|by eexists].
  destruct (String.eqb v value); [done|by eexists].
Qed.

(** X2. On the conditions that [get_name_value_pairs] returns, [match_rec]
    without a device to restore never raises: it answers [True] or [False]
    for every flat record and every tag, group and access filter. *)
Theorem match_rec_answers_parsed_conditions (rec : flat) (query_conditions : option string)
    (conds : list (list string)) (match_tag group : option string) (access : string) :
  get_name_value_pairs query_conditions = Ok conds ->
  exists b, match_rec rec conds match_tag group None access = Ok b.
Proof.
  intros Hc%get_name_value_pairs_well_formed.
  destruct (check_conditions_total rec conds Hc) as [b Hb].
  unfold match_rec. rewrite Hb. simpl.
  destruct (negb b); [by eexists|].
  destruct (given match_tag && _); [by eexists|].
  destruct (given group && _); [by eexists|]. simpl.
  destruct (negb (String.eqb access "ALL")); [|by eexists].
  destruct (negb (String.eqb _ access)); by eexists.
Qed.

Lemma match_rec_answers_parsed_conditions_witness :
  exists b,
    match_rec [("type", "SHSW-1"); ("Tags", "a,b")]
      [["type"; "SHSW-1"]; ["Group"; "x"; "y"]] (Some "a") None None "ALL" = Ok b.
Proof.
  apply (match_rec_answers_parsed_conditions _ (Some "type=SHSW-1,Group=x=y")).
  reflexivity.
Defined.

(** X3. With a device to restore named by its ID, [match_rec] selects a
    record exactly when the record's [ID] is that ID and the record passes
    the other filters; the name [ALL] and an empty name restrict nothing. *)
Theorem match_rec_restore_device (rec : flat) (query_conditions : list (list string))
    (match_tag group : option string) (id access : string) :
  (id <> EmptyString -> id <> "ALL" ->
     (match_rec rec query_conditions match_tag group (Some id) access = Ok true <->
      sget "ID" rec = Some id /\
      match_rec rec query_conditions match_tag group None access = Ok true)) /\
  match_rec rec query_conditions match_tag group (Some "ALL") access
  = match_rec rec query_conditions match_tag group None access /\
  match_rec rec query_conditions match_tag group (Some EmptyString) access
  = match_rec rec query_conditions match_tag group None access.
Proof.
  split; [|done].
  intros Hid Hall. rewrite !match_rec_true. unfold restore_matches.
  assert (given (Some id) = true) as Hg.
  { simpl. by destruct (String.eqb_spec id EmptyString). }
  split.
  - intros (Hc & Ht & Hgr & Hr & Ha). split; [apply Hr; [done|congruence]|done].
  - intros [Hi (Hc & Ht & Hgr & _ & Ha)]. done.
Qed.

(** ** The provision-list pass and the check made before it *)

(** A record that [check_for_device_queue] finds ready is not skipped by the
    pass. *)
Lemma entry_ready_not_skipped (group ssid : option string) (rec : pyval) :
  entry_ready group false ssid rec = Ok true ->
  queue_skips group ssid rec = Ok false.
Proof.
  unfold entry_ready, queue_skips, is_completed.
  destruct rec as [| | | s | l | fields]; simpl; try done.
  - destruct (is_substring "ConfigInput" s); simpl; [|done].
    by destruct (is_substring "ConfigStatus" s).
  - destruct (existsb _ l); simpl; [|done]. by destruct (existsb _ l).
  - unfold dict_in.
    destruct (sget "ConfigInput" fields) as [cfg|]; simpl; [|done].
    destruct (sget "ConfigStatus" fields) as [status|]; simpl; [|done].
    destruct (py_in "CompletedTime" status) as [[|]|e]; simpl; [done| |done].
    destruct (given group); simpl.
    + destruct (py_in "Group" cfg) as [[|]|e]; simpl; [|done..].
      destruct (py_getitem cfg "Group") as [g|e]; simpl; [|done].
      destruct (py_eq_str g _); simpl; [|done].
      destruct (given ssid); simpl; [|done].
      destruct (py_in "SSID" cfg) as [[|]|e]; simpl; [|done..].
      destruct (py_getitem cfg "SSID") as [s|e]; simpl; [|done].
      by destruct (py_eq_str s _).
    + destruct (given ssid); simpl; [|done].
      destruct (py_in "SSID" cfg) as [[|]|e]; simpl; [|done..].
      destruct (py_getitem cfg "SSID") as [s|e]; simpl; [|done].
      by destruct (py_eq_str s _).
Qed.

Lemma check_entries_ready (group ssid : option string) (include_complete fail : bool)
    (dq : list pyval) :
  check_entries group include_complete ssid fail dq = Ok SomethingReady ->
  exists N rec, dq !! N = Some rec /\ entry_ready group include_complete ssid rec = Ok true.
Proof.
  induction dq as [|rec dq IH]; simpl; [by destruct fail|].
  destruct (entry_ready group include_complete ssid rec) as [[|]|e] eqn:E; simpl; [| |done].
  - intros _. by exists 0, rec.
  - intros (N & rec' & HN & Hr)%IH. by exists (S N), rec'.
Qed.

Section one_more_pass.
Variables (clock : nat -> Z) (body : consumer) (group ssid : option string).

(** The records handed out only grow in number. *)
Lemma provision_list_from_log (todo : nat) :
  forall (i : nat) (queue : list pyval) (log : list (nat * pyval)),
    length log <= length (yielded (provision_list_from clock body group ssid todo i queue log)).
Proof.
  induction todo as [|todo IH]; intros i queue log; simpl; [done|].
  destruct (queue !! i) as [rec|]; [|done].
  destruct (queue_skips group ssid rec) as [[|]|e]; [by apply IH| |done].
  destruct (mark_in_progress (clock (length log)) rec) as [rec1|e]; [|done].
  destruct (body i rec1) as [rec' [|]]; simpl.
  - etrans; [|apply IH]. rewrite length_app. simpl. lia.
  - rewrite length_app. simpl. lia.
Qed.

Lemma provision_list_from_reaches (N : nat) (rec : pyval) (todo : nat) :
  queue_skips group ssid rec = Ok false ->
  forall (i : nat) (queue : list pyval) (log : list (nat * pyval)),
    queue !! N = Some rec -> i <= N < i + todo ->
    let st := provision_list_from clock body group ssid todo i queue log in
    length log < length (yielded st) \/ exists e, ended st = Raised e.
Proof.
  intros Hns. induction todo as [|todo IH]; intros i queue log HN Hi; simpl; [lia|].
  destruct (queue !! i) as [rec_i|] eqn:Ei.
  2:{ apply lookup_ge_None in Ei. apply lookup_lt_Some in HN. lia. }
  destruct (queue_skips group ssid rec_i) as [[|]|e] eqn:Eskip.
  - apply IH; [done|]. destruct (decide (i = N)) as [->|]; [|lia]. congruence.
  - destruct (mark_in_progress (clock (length log)) rec_i) as [rec1|e]; [|right; by eexists].
    left. destruct (body i rec1) as [rec' [|]]; simpl.
    + eapply Nat.lt_le_trans; [|apply provision_list_from_log].
      rewrite length_app. simpl. lia.
    + rewrite length_app. simpl. lia.
  - right. by eexists.
Qed.

(** The records handed out by the rest of a pass come after those handed
    out so far, each at a position of its own. *)
Lemma provision_list_from_new (todo : nat) :
  forall (i : nat) (queue : list pyval) (log : list (nat * pyval)),
    exists new : list (nat * pyval),
      yielded (provision_list_from clock body group ssid todo i queue log) = log ++ new /\
      Forall (fun y => i <= y.1) new /\
      NoDup new.*1.
Proof.
  induction todo as [|todo IH]; intros i queue log; simpl.
  { exists []. rewrite app_nil_r. repeat split; constructor. }
  destruct (queue !! i) as [rec|].
  2:{ exists []. rewrite app_nil_r. repeat split; constructor. }
  destruct (queue_skips group ssid rec) as [[|]|e].
  - destruct (IH (S i) queue log) as (new & Hy & Hi & Hs). exists new.
    split; [done|]. split; [|done]. eapply Forall_impl; [exact Hi|]. simpl. lia.
  - destruct (mark_in_progress (clock (length log)) rec) as [rec1|e].
    2:{ exists []. rewrite app_nil_r. repeat split; constructor. }
    destruct (body i rec1) as [rec' [|]]; simpl.
    + destruct (IH (S i) (<[i:=rec']> queue) (log ++ [(i, rec1)])) as (new & Hy & Hi & Hs).
      exists ((i, rec1) :: new). rewrite Hy, <- app_assoc. split; [done|]. split.
      * constructor; [done|]. eapply Forall_impl; [exact Hi|]. simpl. lia.
      * csimpl. constructor; [|done]. intros Hin.
        apply list_elem_of_fmap in Hin as (y & -> & Hy').
        rewrite Forall_forall in Hi. specialize (Hi y Hy'). lia.
    + exists [(i, rec1)]. split; [done|]. split; [by constructor|].
      csimpl. apply NoDup_singleton.
  - exists []. rewrite app_nil_r. repeat split; constructor.
Qed.

(** What the pass leaves alone: the length of the queue and every entry it
    did not hand out. *)
Lemma provision_list_from_untouched (todo : nat) :
  forall (i : nat) (queue : list pyval) (log : list (nat * pyval)),
    let st := provision_list_from clock body group ssid todo i queue log in
    length (queue_after st) = length queue /\
    (forall N, N ∉ (yielded st).*1 -> queue_after st !! N = queue !! N).
Proof.
  induction todo as [|todo IH]; intros i queue log; simpl; [done|].
  destruct (queue !! i) as [rec|] eqn:Ei; [|done].
  destruct (queue_skips group ssid rec) as [[|]|e]; simpl; [by apply IH| |done].
  destruct (mark_in_progress (clock (length log)) rec) as [rec1|e]; [|done].
  destruct (body i rec1) as [rec' [|]]; simpl.
  - destruct (IH (S i) (<[i:=rec']> queue) (log ++ [(i, rec1)])) as (Hl & Hu).
    destruct (provision_list_from_new todo (S i) (<[i:=rec']> queue) (log ++ [(i, rec1)]))
      as (new & Hy & _).
    split; [by rewrite Hl, length_insert|].
    intros N HN. rewrite Hu by done. apply list_lookup_insert_ne. intros ->.
    apply HN. rewrite Hy, !fmap_app. simpl.
    apply elem_of_app. left. apply elem_of_app. right. by left.
  - split; [by rewrite length_insert|].
    intros N HN. apply list_lookup_insert_ne. intros ->. apply HN.
    rewrite fmap_app. simpl. apply elem_of_app. right. by left.
Qed.

Lemma mark_in_progress_stamps (now : Z) (rec rec1 : pyval) :
  mark_in_progress now rec = Ok rec1 ->
  py_getitem rec1 "ConfigInput" = py_getitem rec "ConfigInput" /\
  exists status,
    py_getitem rec1 "ConfigStatus" = Ok status /\
    py_getitem status "InProgressTime" = Ok (PInt now).
Proof.
  unfold mark_in_progress.
  destruct rec as [| | | s | l | fields]; simpl; try done.
  - by destruct (is_substring "ConfigStatus" s).
  - by destruct (existsb _ l).
  - unfold dict_in. destruct (sget "ConfigStatus" fields) as [status|] eqn:Es; simpl.
    + rewrite Es. simpl. destruct status as [| | | | | sf]; simpl; try done.
      intros [= <-]. simpl. rewrite sget_sset_eq, sget_sset_ne by done.
      split; [done|]. eexists. split; [done|]. simpl. by rewrite sget_sset_eq.
    + rewrite sget_sset_eq. simpl. intros [= <-]. simpl.
      rewrite sget_sset_eq, !sget_sset_ne by done.
      split; [done|]. eexists. split; [done|]. done.
Qed.

(** What the two filters have checked on a record that is not skipped. *)
Lemma queue_skips_passed (rec : pyval) :
  queue_skips group ssid rec = Ok false ->
  exists cfg,
    py_getitem rec "ConfigInput" = Ok cfg /\
    (forall g, group = Some g -> g <> EmptyString ->
               py_getitem cfg "Group" = Ok (PStr g)) /\
    (forall s, ssid = Some s -> s <> EmptyString ->
               py_getitem cfg "SSID" = Ok (PStr s)).
Proof.
  unfold queue_skips.
  destruct (py_in "ConfigInput" rec) as [[|]|e]; simpl; [|done..].
  destruct (py_getitem rec "ConfigInput") as [cfg|e]; simpl; [|done].
  destruct (is_completed rec) as [[|]|e]; simpl; [done| |done].
  intros H. exists cfg. split; [done|].
  assert (Hg : forall o : option string, forall x, o = Some x -> x <> EmptyString ->
                 given o = true /\ default EmptyString o = x).
  { intros o x -> Hx. simpl. by destruct (String.eqb_spec x EmptyString). }
  assert (Hstr : forall v x, py_eq_str v x = true -> v = PStr x).
  { intros [] x; simpl; try done. by intros ->%String.eqb_eq. }
  split.
  - intros g Hgr Hne. destruct (Hg _ _ Hgr Hne) as [Hgiven Hd].
    rewrite Hgiven, Hd in H. simpl in H.
    destruct (py_in "Group" cfg) as [[|]|e]; simpl in H; [|done..].
    destruct (py_getitem cfg "Group") as [v|e]; simpl in H; [|done].
    destruct (py_eq_str v g) eqn:E; simpl in H; [|done].
    by rewrite (Hstr _ _ E).
  - intros s Hs Hne. destruct (Hg _ _ Hs Hne) as [Hgiven Hd].
    rewrite Hgiven, Hd in H.
    destruct (given group); simpl in H.
    + destruct (py_in "Group" cfg) as [[|]|e]; simpl in H; [|done..].
      destruct (py_getitem cfg "Group") as [v|e]; simpl in H; [|done].
      destruct (py_eq_str v _); simpl in H; [|done].
      destruct (py_getitem cfg "SSID") as [v'|e]; simpl in H; [|done].
      destruct (py_eq_str v' s) eqn:E; simpl in H; [|done].
      by rewrite (Hstr _ _ E).
    + destruct (py_getitem cfg "SSID") as [v'|e]; simpl in H; [|done].
      destruct (py_eq_str v' s) eqn:E; simpl in H; [|done].
      by rewrite (Hstr _ _ E).
Qed.

Lemma provision_list_from_filtered (todo : nat) :
  forall (i : nat) (queue : list pyval) (log : list (nat * pyval)),
    (forall n y, log !! n = Some y -> handed_out_well group ssid (clock n) y) ->
    forall n y,
      yielded (provision_list_from clock body group ssid todo i queue log) !! n = Some y ->
      handed_out_well group ssid (clock n) y.
Proof.
  induction todo as [|todo IH]; intros i queue log Hlog; simpl; [done|].
  destruct (queue !! i) as [rec|]; [|done].
  destruct (queue_skips group ssid rec) as [[|]|e] eqn:Eskip; [by apply IH| |done].
  destruct (mark_in_progress (clock (length log)) rec) as [rec1|e] eqn:Emark; [|done].
  assert (Hlog' : forall n y, (log ++ [(i, rec1)]) !! n = Some y ->
                    handed_out_well group ssid (clock n) y).
  { intros n y [Hn|[Hlen Hn]]%lookup_app_Some; [by apply Hlog|].
    apply list_lookup_singleton_Some in Hn as [Hn <-].
    replace n with (length log) by lia.
    destruct (queue_skips_passed rec Eskip) as (cfg & Hcfg & Hg & Hs).
    destruct (mark_in_progress_stamps _ _ _ Emark) as (Hin & status & Hst & Ht).
    exists cfg, status. simpl. rewrite Hin. done. }
  destruct (body i rec1) as [rec' [|]]; [by apply IH|done].
Qed.
End one_more_pass.

(** X4. When [check_for_device_queue] finds an entry ready for a group and
    an SSID (completed entries not counting), the provision-list pass over
    the same queue with the same filters is not silently empty: it hands out
    at least one record, or it raises. *)
Theorem checked_queue_is_served (clock : nat -> Z) (body : consumer)
    (group ssid : option string) (fail : bool) (device_queue : list pyval) :
  check_for_device_queue device_queue group false ssid fail = Ok SomethingReady ->
  let st := read_device_queue clock body group ssid device_queue in
  yielded st <> [] \/ exists e, ended st = Raised e.
Proof.
  intros Hcheck st.
  assert (Hc : check_entries group false ssid fail device_queue = Ok SomethingReady).
  { by destruct device_queue. }
  apply check_entries_ready in Hc as (N & rec & HN & Hready).
  apply entry_ready_not_skipped in Hready.
  destruct (provision_list_from_reaches clock body group ssid N rec (length device_queue)
              Hready 0 device_queue [] HN) as [Hlen|He].
  - apply lookup_lt_Some in HN. lia.
  - left. intros Hnil. unfold st, read_device_queue in Hnil.
    rewrite Hnil in Hlen. simpl in Hlen. lia.
  - by right.
Qed.

Lemma checked_queue_is_served_witness :
  yielded (read_device_queue (run_clock full_run) (run_body full_run) None (Some "home")
             sample_queue) <> [] \/
  exists e,
    ended (read_device_queue (run_clock full_run) (run_body full_run) None (Some "home")
             sample_queue) = Raised e.
Proof.
  apply (checked_queue_is_served _ _ None (Some "home") true sample_queue).
  reflexivity.
Defined.

(** X5. The record that the provision-list pass hands out as its [n]-th
    has a [ConfigInput] whose [Group] and [SSID] are the ones asked for, when
    they are asked for, and a [ConfigStatus] whose [InProgressTime] is the
    [n]-th reading of the clock. *)
Theorem handed_out_records_are_filtered_and_stamped (clock : nat -> Z) (body : consumer)
    (group ssid : option string) (device_queue : list pyval) (n : nat)
    (y : nat * pyval) :
  yielded (read_device_queue clock body group ssid device_queue) !! n = Some y ->
  handed_out_well group ssid (clock n) y.
Proof. by apply provision_list_from_filtered. Qed.

Lemma handed_out_records_are_filtered_and_stamped_witness :
  exists y,
    yielded (read_device_queue (run_clock full_run) (run_body full_run) None (Some "home")
               sample_queue) !! 0 = Some y /\
    handed_out_well None (Some "home") (run_clock full_run 0) y.
Proof.
  eexists. split; [reflexivity|].
  apply (handed_out_records_are_filtered_and_stamped (run_clock full_run)
           (run_body full_run) None (Some "home") sample_queue 0).
  reflexivity.
Defined.

(** X6. One provision-list pass keeps the length of the queue, leaves every
    entry it does not hand out as it was, and hands out no position twice. *)
Theorem pass_leaves_other_entries (clock : nat -> Z) (body : consumer)
    (group ssid : option string) (device_queue : list pyval) :
  let st := read_device_queue clock body group ssid device_queue in
  length (queue_after st) = length device_queue /\
  (forall N, N ∉ (yielded st).*1 -> queue_after st !! N = device_queue !! N) /\
  NoDup (yielded st).*1.
Proof.
  intros st.
  destruct (provision_list_from_untouched clock body group ssid (length device_queue)
              0 device_queue []) as [Hl Hu].
  destruct (provision_list_from_new clock body group ssid (length device_queue)
              0 device_queue []) as (new & Hy & _ & Hnd).
  split; [done|]. split; [done|]. unfold st, read_device_queue. by rewrite Hy.
Qed.

(** ** The retry loop of [get_url] *)



(** ** The details of a schema column *)

Lemma schema_paths_from (coverage : coverage) (p : string) :
  forall paths : list (string * list pyval),
    sget p (fold_left
              (fun paths dp =>
                 sset (snd dp) (default [] (sget (snd dp) paths) ++ [fst dp]) paths)
              coverage paths)
    = match devtypes_at coverage p with
      | [] => sget p paths
      | l => Some (default [] (sget p paths) ++ l)
      end.
Proof.
  unfold devtypes_at.
  induction coverage as [|[d q] coverage IH]; intros paths; simpl; [done|].
  rewrite IH. destruct (String.eqb_spec q p) as [->|Hne]; simpl.
  - rewrite sget_sset_eq.
    destruct (map fst (List.filter _ coverage)); simpl; [done|].
    by rewrite <- app_assoc.
  - by rewrite sget_sset_ne.
Qed.

(** X8. [schema_details] turns the coverage of a column (device type ->
    canonical path) round: under each canonical path it lists the device
    types that have it, in the order of the coverage, and no path is listed
    without a device type.  Without verbosity only the column is returned;
    at verbosity 1 an empty coverage raises [IndexError]. *)
Theorem schema_details_inverts_coverage (col : string) (coverage : coverage) :
  (forall p,
     sget p (schema_paths coverage)
     = match devtypes_at coverage p with
       | [] => None
       | l => Some l
       end) /\
  (forall verbosity, 2 <= verbosity ->
     schema_details col coverage verbosity = Ok (WithPaths col (schema_paths coverage))) /\
  schema_details col coverage 0 = Ok (ColumnOnly col) /\
  schema_details col [] 1 = Raise IndexError.
Proof.
  split; [|split; [|done]].
  - intros p. unfold schema_paths. rewrite schema_paths_from. simpl.
    by destruct (devtypes_at coverage p).
  - intros verbosity Hv. unfold schema_details.
    destruct (Nat.ltb_spec 1 verbosity); [done|lia].
Qed.

(** ** The roles of the DD-WRT nodes *)

Lemma choose_positions_distinct (n : nat) (r : role_lists) (a s : nat) :
  1 < n -> choose_positions n r = Ok (a, s) -> a <> s.
Proof.
  intros Hn. unfold choose_positions.
  destruct (Nat.ltb_spec 1 n); [|lia].
  assert (Hmod : forall x, x <> (x + 1) mod 2).
  { intros x. pose proof (Nat.mod_upper_bound (x + 1) 2).
    destruct x as [|[|x]]; [done|done|]. lia. }
  assert (Hfirst : forall (l : list nat) (f : nat -> nat * nat),
            (forall x, (f x).1 <> (f x).2) ->
            (let? x := first_index l in Ok (f x)) = Ok (a, s) -> a <> s).
  { intros [|x l] f Hf; [done|]. cbn. intros [= E]. specialize (Hf x).
    by rewrite E in Hf. }
  destruct (length (ap_capable r) <? 2)%nat.
  { apply (Hfirst _ (fun x => (x, (x + 1) mod 2))). intros x. apply Hmod. }
  destruct (length (sta_capable r) <? 2)%nat.
  { apply (Hfirst _ (fun x => ((x + 1) mod 2, x))). intros x E. by apply (Hmod x). }
  destruct (length (current_ap r) <? 2)%nat.
  { apply (Hfirst _ (fun x => (x, (x + 1) mod 2))). intros x. apply Hmod. }
  destruct (length (current_sta r) <? 2)%nat.
  { apply (Hfirst _ (fun x => ((x + 1) mod 2, x))). intros x E. by apply (Hmod x). }
  intros [= <- <-]. lia.
Qed.

(** X9. When [ddwrt_choose_roles] returns for two or more nodes, the
    access-point node and the station node are nodes at different positions
    of the list; for a single node it returns that node in both roles. *)
Theorem ddwrt_choose_roles_positions (connect : nat -> string -> res conn)
    (ddwrt_name : list string) (nodes : list conn) (ap sta : conn) :
  connect_all connect 0 ddwrt_name = Ok nodes ->
  ddwrt_choose_roles connect ddwrt_name = Ok (ap, sta) ->
  (2 <= length nodes ->
     exists i j, i <> j /\ nodes !! i = Some ap /\ nodes !! j = Some sta) /\
  (forall node, nodes = [node] -> ap = node /\ sta = node).
Proof.
  intros Hnodes. unfold ddwrt_choose_roles. rewrite Hnodes. simpl.
  destruct (survey_roles nodes 0 _) as [r|e]; simpl; [|done].
  destruct (ap_capable r) eqn:Hap; [done|].
  destruct (sta_capable r) eqn:Hsta; [done|].
  destruct (choose_positions (length nodes) r) as [[a s]|e] eqn:Hc; simpl; [|done].
  destruct (nodes !! a) as [na|] eqn:Ha; [|done].
  destruct (nodes !! s) as [ns|] eqn:Hs; [|done].
  intros [= <- <-]. split.
  - intros Hlen. exists a, s. split; [|done].
    eapply choose_positions_distinct; [|exact Hc]. lia.
  - intros node ->. simpl in Hc. injection Hc as <- <-.
    simpl in Ha, Hs. by injection Ha as <-; injection Hs as <-.
Qed.

(** X10. With two nodes, the node [ddwrt_choose_roles] returns as access
    point knows the access-point role, and the other node is returned as
    station; the station node knows the station role unless the access-point
    node is the only node that knows either role.  When both nodes know both
    roles and none is in access-point mode, the choice raises [IndexError]. *)
Theorem ddwrt_choose_roles_two_nodes (connect : nat -> string -> res conn)
    (ddwrt_name : list string) (n0 n1 : conn) :
  connect_all connect 0 ddwrt_name = Ok [n0; n1] ->
  (forall ap sta,
     ddwrt_choose_roles connect ddwrt_name = Ok (ap, sta) ->
     (ap = n0 /\ sta = n1 \/ ap = n1 /\ sta = n0) /\
     py_in "ap" (router ap) = Ok true /\
     (py_in "sta" (router sta) = Ok true \/
      py_in "sta" (router ap) = Ok true /\ py_in "ap" (router sta) = Ok false)) /\
  (py_in "ap" (router n0) = Ok true -> py_in "sta" (router n0) = Ok true ->
   py_in "ap" (router n1) = Ok true -> py_in "sta" (router n1) = Ok true ->
   current_mode n0 <> "ap" -> current_mode n1 <> "ap" ->
   ddwrt_choose_roles connect ddwrt_name = Raise IndexError).
Proof.
  intros Hnodes. unfold ddwrt_choose_roles. rewrite Hnodes. cbn.
  split.
  - intros ap sta.
    destruct (py_in "ap" (router n0)) as [[|]|e0] eqn:E0; cbn; try done;
      destruct (py_in "sta" (router n0)) as [[|]|e1] eqn:E1; cbn; try done;
      destruct (py_in "ap" (router n1)) as [[|]|e2] eqn:E2; cbn; try done;
      destruct (py_in "sta" (router n1)) as [[|]|e3] eqn:E3; cbn; try done;
      destruct (String.eqb "ap" (current_mode n0)); cbn; try done;
      destruct (String.eqb "sta" (current_mode n0)); cbn; try done;
      destruct (String.eqb "ap" (current_mode n1)); cbn; try done;
      destruct (String.eqb "sta" (current_mode n1)); cbn; try done;
      intros [= <- <-]; (split; [auto|]); (split; [done|]);
      first [by left | by right].
  - intros -> -> -> -> H0 H1. cbn.
    destruct (String.eqb_spec "ap" (current_mode n0)); [congruence|].
    destruct (String.eqb_spec "ap" (current_mode n1)); [congruence|].
    cbn. by repeat destruct (String.eqb _ _).
Qed.

Lemma ddwrt_choose_roles_positions_witness :
  (exists i j, i <> j /\
       [ {| router := sample_router; current_mode := "ap" |};
         {| router := sample_router; current_mode := "sta" |} ] !! i
       = Some {| router := sample_router; current_mode := "ap" |} /\
       [ {| router := sample_router; current_mode := "ap" |};
         {| router := sample_router; current_mode := "sta" |} ] !! j
       = Some {| router := sample_router; current_mode := "sta" |}).
Proof.
  apply (proj1 (ddwrt_choose_roles_positions sample_connect ["r1"; "r2"] _ _ _
                  eq_refl eq_refl)).
  simpl. lia.
Defined.

Lemma ddwrt_choose_roles_two_nodes_witness :
  ddwrt_choose_roles (fun _ _ => Ok {| router := sample_router; current_mode := "sta" |})
    ["r1"; "r2"] = Raise IndexError.
Proof.
  apply (proj2 (ddwrt_choose_roles_two_nodes
                  (fun _ _ => Ok {| router := sample_router; current_mode := "sta" |})
                  ["r1"; "r2"]
                  {| router := sample_router; current_mode := "sta" |}
                  {| router := sample_router; current_mode := "sta" |} eq_refl));
    (reflexivity || discriminate).
Defined.

(** ** The options an operation takes *)

Lemma incompatible_options_grows (allow : list (string * list string)) (op : string)
    (zs : list string) :
  forall incompatible result,
    incompatible_options allow op zs incompatible = Ok result ->
    length incompatible <= length result.
Proof.
  induction zs as [|z zs IH]; intros incompatible result; simpl.
  - by intros [= <-].
  - destruct (sget op allow) as [allowed|]; [|done].
    intros H%IH. destruct (in_list z allowed); [done|].
    rewrite length_app in H. simpl in H. lia.
Qed.

Lemma incompatible_options_none (allow : list (string * list string)) (op : string)
    (zs : list string) :
  incompatible_options allow op zs [] = Ok [] <->
  Forall (fun z => exists allowed, sget op allow = Some allowed /\ z ∈ allowed) zs.
Proof.
  induction zs as [|z zs IH]; simpl.
  - split; [by constructor|done].
  - rewrite Forall_cons. destruct (sget op allow) as [allowed|] eqn:E.
    + destruct (in_list z allowed) eqn:Ez.
      * rewrite IH. apply in_list_elem_of in Ez. split; [|by intros [_ ?]].
        intros H. split; [by exists allowed|done].
      * split.
        -- intros H%incompatible_options_grows. simpl in H. lia.
        -- intros [(allowed' & [= <-] & Hin%in_list_elem_of) _]. congruence.
    + split; [done|]. by intros [(? & ? & _) _].
Qed.

Lemma specific_options_listed (vars : list (string * pyval)) (z : string) :
  z ∈ List.filter (fun v => option_set vars v && negb (in_list v always_options))
        (map fst vars)
  <-> specific_option vars z.
Proof.
  unfold specific_option. rewrite list_elem_of_In, filter_In, <- list_elem_of_In.
  rewrite andb_true_iff, negb_true_iff. split.
  - intros (_ & Hs & Ha). split; [done|]. rewrite <- in_list_elem_of. congruence.
  - intros [Hs Ha]. split; [|split; [done|]].
    + unfold option_set in Hs. destruct (sget z vars) as [x|] eqn:E; [|done].
      apply sget_elem_of in E. apply list_elem_of_fmap. by exists (z, x).
    + destruct (in_list z always_options) eqn:E; [|done]. by apply in_list_elem_of in E.
Qed.

(** When [validate_operation] accepts. *)
Lemma validate_operation_accepts (vars : list (string * pyval)) (op : string) :
  validate_operation op vars = Ok OptionsAccepted <->
  (op = "help" \/ nothing_left_over vars) /\
  (forall z, specific_option vars z ->
     exists allowed,
       sget op (merge_required allow_options require_options) = Some allowed /\
       z ∈ allowed) /\
  (forall names r, sget op require_options = Some names -> r ∈ names ->
                   option_set vars r = true).
Proof.
  unfold validate_operation.
  set (allow := merge_required allow_options require_options).
  set (zs := List.filter _ (map fst vars)).
  assert (Hzs : (forall z, specific_option vars z ->
                   exists allowed, sget op allow = Some allowed /\ z ∈ allowed) <->
                incompatible_options allow op zs [] = Ok []).
  { rewrite incompatible_options_none, Forall_forall.
    split; intros H z Hz; apply H; by apply specific_options_listed. }
  assert (Hreq : (forall names r, sget op require_options = Some names -> r ∈ names ->
                    option_set vars r = true) <->
                 match sget op require_options with
                 | Some names =>
                     map dashed (List.filter (fun r => negb (option_set vars r)) names)
                 | None => []
                 end = []).
  { destruct (sget op require_options) as [names|].
    - split.
      + intros H. destruct (List.filter _ names) as [|r l] eqn:E; [done|].
        assert (r ∈ List.filter (fun r => negb (option_set vars r)) names) as Hin
          by (rewrite E; by left).
        apply list_elem_of_In, filter_In in Hin as [Hin Hr].
        apply list_elem_of_In in Hin. rewrite (H names r eq_refl Hin) in Hr. done.
      + intros H names' r [= <-] Hin.
        destruct (option_set vars r) eqn:Er; [done|].
        assert (r ∈ List.filter (fun r => negb (option_set vars r)) names) as Hin'.
        { apply list_elem_of_In, filter_In. split; [by apply list_elem_of_In|].
          by rewrite Er. }
        destruct (List.filter _ names); [by apply elem_of_nil in Hin'|done].
    - split; [done|]. by intros _ names r. }
  rewrite Hzs, Hreq. clear Hzs Hreq.
  generalize (match sget op require_options with
              | Some names =>
                  map dashed (List.filter (fun r => negb (option_set vars r)) names)
              | None => []
              end).
  intros required.
  assert (Hwhat : leftover_arguments (String.eqb op "help") vars = Ok false <->
                  op = "help" \/ nothing_left_over vars).
  { unfold leftover_arguments, nothing_left_over.
    destruct (String.eqb_spec op "help") as [->|Hne]; [by split; [left|]|].
    destruct (sget "what" vars) as [what|].
    - destruct (truthy what) eqn:Et.
      + split; [by destruct (joinable what)|].
        intros [?|(what' & [= <-] & ?)]; [done|congruence].
      + split; [|done]. intros _. right. by exists what.
    - split; [done|]. by intros [?|(what' & ? & _)]. }
  destruct (leftover_arguments (String.eqb op "help") vars) as [[|]|e]; cbn [res_bind].
  { split; [done|]. intros [H%Hwhat _]. done. }
  2:{ split; [done|]. intros [H%Hwhat _]. done. }
  destruct (incompatible_options allow op zs []) as [[|z l]|e]; simpl;
    [|split; [done|by intros (_ & ? & _)]..].
  destruct required; [|split; [done|by intros (_ & _ & ?)]].
  split; [|done]. intros _. split; [by apply Hwhat|done].
Qed.


(** X11. For an operation given as a string, [validate_options] accepts
    the options exactly when no argument is left unrecognised (or the
    operation is [help]), every option that is set and not allowed with all
    operations is listed for the operation, and every option the operation
    requires is set. *)
Theorem validate_options_accepts (vars : list (string * pyval)) (op : string) :
  sget "operation" vars = Some (PStr op) ->
  (validate_options vars = Ok OptionsAccepted <->
   (op = "help" \/ nothing_left_over vars) /\
   (forall z, specific_option vars z ->
      exists allowed,
        sget op (merge_required allow_options require_options) = Some allowed /\
        z ∈ allowed) /\
   (forall names r, sget op require_options = Some names -> r ∈ names ->
                    option_set vars r = true)).
Proof.
  intros Hop. unfold validate_options. rewrite Hop. apply validate_operation_accepts.
Qed.

Lemma validate_options_accepts_witness :
  validate_options sample_apply_options = Ok OptionsAccepted.
Proof.
  apply (validate_options_accepts sample_apply_options "apply" eq_refl).
  split; [right; by exists (PList [])|]. split.
  - intros z Hz%specific_options_listed. eexists. split; [reflexivity|].
    vm_compute in Hz. apply in_list_elem_of.
    apply elem_of_cons in Hz as [->|Hz]; [reflexivity|].
    apply elem_of_cons in Hz as [->|Hz]; [reflexivity|].
    by apply elem_of_nil in Hz.
  - intros names r H. discriminate H.
Defined.

(** The options listed for [apply] alone. *)
Lemma apply_only_listed (op z : string) (allowed : list string) :
  sget op (merge_required allow_options require_options) = Some allowed ->
  z ∈ allowed ->
  z ∈ ["restore_device"; "delete_device"; "dry_run"; "apply_urls"] ->
  op = "apply".
Proof.
  intros Hop Hin Hz.
  assert (Hz' : in_list z ["restore_device"; "delete_device"; "dry_run"; "apply_urls"]
                = true) by (by apply in_list_elem_of).
  apply in_list_elem_of in Hin.
  vm_compute merge_required in Hop. simpl in Hop.
  repeat match type of Hop with
         | (if String.eqb ?k op then _ else _) = _ =>
             destruct (String.eqb_spec k op) as [<-|?]
         end;
    try done; injection Hop as <-;
    simpl in Hz'; rewrite !orb_false_r in Hz';
    repeat match type of Hz' with
           | (String.eqb z ?k || _) = true =>
               apply orb_true_iff in Hz' as [->%String.eqb_eq|Hz']; [by vm_compute in Hin|]
           | String.eqb z ?k = true =>
               apply String.eqb_eq in Hz' as ->; by vm_compute in Hin
           end.
Qed.

(** X12. The options [--restore-device], [--delete-device], [--dry-run]
    and [--apply-urls] are accepted with the operation [apply] only: with
    any other operation, [validate_options] does not accept a command line
    on which one of them is set. *)
Theorem apply_only_options (vars : list (string * pyval)) (op z : string) :
  sget "operation" vars = Some (PStr op) ->
  op <> "apply" ->
  z ∈ ["restore_device"; "delete_device"; "dry_run"; "apply_urls"] ->
  option_set vars z = true ->
  validate_options vars <> Ok OptionsAccepted.
Proof.
  intros Hop Hne Hz Hset. unfold validate_options. rewrite Hop.
  intros (_ & Hallowed & _)%validate_operation_accepts.
  destruct (Hallowed z) as (allowed & Ha & Hin).
  { split; [done|]. intros Hal%in_list_elem_of.
    repeat (apply elem_of_cons in Hz as [->|Hz]; [by vm_compute in Hal|]).
    by apply elem_of_nil in Hz. }
  apply Hne. by eapply apply_only_listed.
Qed.

Lemma apply_only_options_witness :
  validate_options sample_query_options <> Ok OptionsAccepted.
Proof.
  apply (apply_only_options sample_query_options "query" "restore_device" eq_refl).
  - discriminate.
  - apply in_list_elem_of. reflexivity.
  - reflexivity.
Defined.

(** X13. [features] is an operation the tables of [validate_options] do not
    know: it is accepted when no option specific to an operation is set, and
    [validate_options] raises [KeyError] as soon as one is. *)
Theorem validate_options_features (vars : list (string * pyval)) :
  sget "operation" vars = Some (PStr "features") ->
  nothing_left_over vars ->
  ((forall z, ~ specific_option vars z) -> validate_options vars = Ok OptionsAccepted) /\
  (forall z, specific_option vars z -> validate_options vars = Raise KeyError).
Proof.
  intros Hop (what & Hwhat & Hempty). unfold validate_options. rewrite Hop.
  unfold validate_operation, leftover_arguments.
  change (String.eqb "features" "help") with false. rewrite Hwhat, Hempty.
  cbn [res_bind].
  set (zs := List.filter _ (map fst vars)).
  assert (Hzs : forall z, z ∈ zs <-> specific_option vars z)
    by (intros z; apply specific_options_listed).
  clearbody zs. split.
  - intros Hnone. destruct zs as [|z zs]; [done|].
    destruct (Hnone z). apply Hzs. by left.
  - intros z Hz%Hzs. destruct zs as [|z' zs]; [by apply elem_of_nil in Hz|]. done.
Qed.

Lemma validate_options_features_witness :
  validate_options sample_features_options = Raise KeyError.
Proof.
  apply (proj2 (validate_options_features sample_features_options eq_refl
                  (ex_intro _ (PList []) (conj eq_refl eq_refl)))
           "group").
  split; [reflexivity|]. intros H%in_list_elem_of. discriminate H.
Defined.

(** ** The pushes of [provision_device] *)

Lemma push_tries_exists (dev_gen verbose : nat) (replies : nat -> nat -> option pyval)
    (i : nat) (js : list nat) :
  forall got_one,
    push_tries dev_gen verbose replies i js got_one
    = got_one || existsb (fun j => push_acknowledged dev_gen verbose (replies i j)) js.
Proof.
  induction js as [|j js IH]; intros got_one; simpl; [by rewrite orb_false_r|].
  rewrite IH. destruct (push_acknowledged _ _ _), got_one; simpl; try done.
Qed.

Lemma push_passes_exists (dev_gen verbose : nat) (replies : nat -> nat -> option pyval)
    (tries : nat) (passes : list nat) :
  push_passes dev_gen verbose replies tries passes
  = existsb (fun i =>
      existsb (fun j => push_acknowledged dev_gen verbose (replies i j)) (seq 0 tries))
      passes.
Proof.
  induction passes as [|i passes IH]; simpl; [done|].
  rewrite push_tries_exists. simpl. by destruct (existsb _ (seq 0 tries)).
Qed.

(** X14. [provision_device] returns [True] exactly when, in one of its five
    passes, one of the tries is acknowledged: answered by a value that holds
    no [error] (and, for a device that is not of generation 2, at a verbosity
    of at most 2). *)
Theorem provision_device_acknowledged (dev_gen verbose : nat)
    (replies : nat -> nat -> option pyval) (tries : nat) :
  provision_device dev_gen verbose replies tries = true <->
  exists i j, i < 5 /\ j < tries /\
              push_acknowledged dev_gen verbose (replies i j) = true.
Proof.
  unfold provision_device. rewrite push_passes_exists, existsb_exists. split.
  - intros (i & Hi%in_seq & (j & Hj%in_seq & Hack)%existsb_exists).
    exists i, j. split; [lia|]. split; [lia|done].
  - intros (i & j & Hi & Hj & Hack). exists i. split; [apply in_seq; lia|].
    apply existsb_exists. exists j. split; [apply in_seq; lia|done].
Qed.

Lemma push_acknowledged_verbose (dev_gen verbose : nat) (reply : option pyval) :
  dev_gen <> 2 -> 2 < verbose -> push_acknowledged dev_gen verbose reply = false.
Proof.
  intros Hgen Hv. unfold push_acknowledged.
  destruct reply as [content|]; [|done].
  destruct (py_in "error" content) as [has_error|]; [|done].
  destruct (Nat.ltb_spec 2 verbose); [|lia].
  destruct (Nat.eqb_spec dev_gen 2); [done|].
  by rewrite orb_true_r.
Qed.

(** X15. At a verbosity above 2 (three or more [-v]), a device that is not
    of generation 2 is never provisioned: whatever it answers to the pushes
    of the credentials, [provision_device] does not return [True], and the
    loop of [provision_native] does not go on to the next queue entry. *)
Theorem verbose_provisioning_of_generation_1_fails (cfg : pyval) (provision_list : bool)
    (dev_gen verbose : nat) (replies : nat -> nat -> option pyval) (tries : nat)
    (env : native_env) (found : string) (wait_time : Z) :
  2 < verbose ->
  (dev_gen <> 2 ->
     provision_device_call cfg provision_list dev_gen verbose replies tries <> Ok true) /\
  (nat_found env = Some found -> is_substring "Plus" found = false ->
     run_goes_on (provision_native_entry env verbose wait_time) = false).
Proof.
  intros Hv.
  assert (Hsilent : forall g r, g <> 2 -> never_acknowledged g verbose r).
  { intros g r Hg i j. by apply push_acknowledged_verbose. }
  split.
  - intros Hgen. unfold provision_device_call.
    destruct (static_field cfg provision_list "StaticIP"); simpl; [|done].
    destruct (static_field cfg provision_list "NetMask"); simpl; [|done].
    destruct (static_field cfg provision_list "Gateway"); simpl; [|done].
    rewrite (provision_device_silent dev_gen verbose replies); [done|by apply Hsilent].
  - intros Hfound Hplus. unfold provision_native_entry. rewrite Hfound.
    destruct (nat_status_ok env); simpl; [|done].
    assert (dev_gen_of found = 1) as -> by (unfold dev_gen_of; by rewrite Hplus).
    destruct (provision_device_call_silent (nat_cfg env) (nat_provision_list env) 1
                verbose (nat_replies env) 3) as [-> | [e ->]];
      [by apply Hsilent| |done].
    by destruct (nat_reconnect_ok env).
Qed.

Lemma verbose_provisioning_of_generation_1_fails_witness :
  provision_device_call (PDict [("SSID", PStr "home"); ("Password", PStr "pw")]) true
    1 3 (fun _ _ => Some (PDict [("wifi_sta", PDict [("enabled", PBool true)])])) 3
  <> Ok true.
Proof.
  apply (proj1 (verbose_provisioning_of_generation_1_fails
                  (PDict [("SSID", PStr "home"); ("Password", PStr "pw")]) true 1 3
                  (fun _ _ => Some (PDict [("wifi_sta", PDict [("enabled", PBool true)])]))
                  3 sample_native_env "shelly1-A1B2C3" 0 ltac:(lia))).
  discriminate.
Defined.


(** ** The validation of the queue file *)

Lemma any_key_in_dict (keys : list string) (first_fields cfg : list (string * pyval)) :
  sget "ConfigInput" first_fields = Some (PDict cfg) ->
  forall valid,
    any_key_in keys (PDict first_fields) valid
    = Ok (valid || existsb (fun k => sin k cfg) keys).
Proof.
  intros Hcfg. induction keys as [|k keys IH]; intros valid; simpl.
  - by rewrite orb_false_r.
  - rewrite Hcfg. simpl. rewrite IH. by destruct (sin k cfg), valid.
Qed.

(** X16. The device queue is read with [read_json_file( f, [], ['SSID',
    'ProbeIP'] )].  With a non-empty list of keys: an empty list in the file
    is returned as it is; a list whose first entry has a [ConfigInput] object
    is returned unchanged when that object holds one of the keys and is
    otherwise refused as corrupt, whatever the later entries are; a first
    entry without [ConfigInput] and a file that holds an object are refused
    as corrupt; a file that cannot be opened gives the empty list. *)
Theorem read_json_file_queue (keys : list string) :
  keys <> [] ->
  read_json_file (Json (PList [])) EmptyList (ValidateKeys keys) = Returned (PList []) /\
  (forall first_fields cfg rest,
     sget "ConfigInput" first_fields = Some (PDict cfg) ->
     read_json_file (Json (PList (PDict first_fields :: rest))) EmptyList (ValidateKeys keys)
     = if existsb (fun k => sin k cfg) keys
       then Returned (PList (PDict first_fields :: rest))
       else ExitCorrupt) /\
  (forall first_fields rest,
     sget "ConfigInput" first_fields = None ->
     read_json_file (Json (PList (PDict first_fields :: rest))) EmptyList (ValidateKeys keys)
     = ExitCorrupt) /\
  (forall fields,
     read_json_file (Json (PDict fields)) EmptyList (ValidateKeys keys) = ExitCorrupt) /\
  read_json_file Unreadable EmptyList (ValidateKeys keys) = Returned (PList []).
Proof.
  intros Hkeys.
  assert (Ht : validate_truthy (ValidateKeys keys) = true) by (by destruct keys).
  unfold read_json_file. rewrite Ht. split; [done|]. split; [|split; [|done]].
  - intros first_fields cfg rest Hcfg. unfold validate_result. simpl.
    unfold dict_in. rewrite Hcfg. rewrite (any_key_in_dict keys first_fields cfg Hcfg).
    simpl. by destruct (existsb _ keys).
  - intros first_fields rest Hcfg. unfold validate_result. simpl.
    unfold dict_in. by rewrite Hcfg.
Qed.

Lemma read_json_file_queue_witness :
  read_json_file
    (Json (PList [PDict [("ConfigInput", PDict [("ProbeIP", PStr "192.168.1.40")])];
                  PInt 7]))
    EmptyList (ValidateKeys ["SSID"; "ProbeIP"])
  = Returned (PList [PDict [("ConfigInput", PDict [("ProbeIP", PStr "192.168.1.40")])];
                     PInt 7]).
Proof.
  apply (proj1 (proj2 (read_json_file_queue ["SSID"; "ProbeIP"] ltac:(discriminate)))
           [("ConfigInput", PDict [("ProbeIP", PStr "192.168.1.40")])]
           [("ProbeIP", PStr "192.168.1.40")] [PInt 7] eq_refl).
Defined.

(** ** More about [flatten] *)

(** X17. [flatten] returns, without raising, for every record that states
    its device type, a non-empty string at [settings.device.type]: whatever
    else the record holds and whatever the prefix. *)
Theorem flatten_returns_for_typed_record (fields settings device : list (string * pyval))
    (t prefix : string) :
  sget "settings" fields = Some (PDict settings) ->
  sget "device" settings = Some (PDict device) ->
  sget "type" device = Some (PStr t) ->
  t <> EmptyString ->
  flatten (PDict fields) prefix PNone
  = Ok (flatten_data (PDict fields) prefix, flatten_guide (PDict fields) prefix PNone).
Proof.
  intros Hs Hd Ht Hne. apply (flatten_record_returns fields prefix (PStr t)).
  - unfold get_devtype. rewrite Hs. simpl. unfold dict_in. rewrite Hd. simpl.
    unfold dict_in. by rewrite Ht.
  - simpl. by destruct (String.eqb_spec t EmptyString).
  - done.
Qed.

Lemma flatten_returns_for_typed_record_witness :
  flatten retagged_record "" PNone
  = Ok (flatten_data retagged_record "", flatten_guide retagged_record "" PNone).
Proof.
  apply (flatten_returns_for_typed_record _
           [("device", PDict [("type", PStr "SHSW-1")]);
            ("relays", PList [PDict [("name", PStr "pump")]; PDict [("name", PNone)]])]
           [("type", PStr "SHSW-1")] "SHSW-1" "");
    (reflexivity || discriminate).
Defined.

(** X18. Whenever [flatten] returns, the coverage guide and the flat map
    have the same keys. *)
Theorem flatten_guide_covers_data (d : pyval) (prefix : string) (devtype : pyval)
    (data : flat) (guide : guide_t) (key : string) :
  flatten d prefix devtype = Ok (data, guide) ->
  sin key guide = sin key data.
Proof.
  intros [-> ->]%flatten_returns. apply sin_flatten_guide.
Qed.

Lemma flatten_guide_covers_data_witness :
  sin "settings.relays.1.name" (flatten_guide retagged_record "" PNone)
  = sin "settings.relays.1.name" (flatten_data retagged_record "").
Proof.
  apply (flatten_guide_covers_data retagged_record "" PNone).
  vm_compute. reflexivity.
Defined.

(** *** Short keys *)

Lemma sin_data_fields_acc (self : pyval -> string -> flat) (p K : string)
    (fields : list (string * pyval)) (acc : flat) :
  sin K acc = true -> sin K (data_fields self p fields acc) = true.
Proof.
  revert acc. induction fields as [|[k v] fields IH]; intros acc Hacc; simpl; [done|].
  apply IH. by rewrite sin_supdate, Hacc, orb_true_r.
Qed.

Lemma sin_data_fields_field (self : pyval -> string -> flat) (p K k : string) (v : pyval)
    (fields : list (string * pyval)) (acc : flat) :
  (k, v) ∈ fields -> sin K (data_field self p k v) = true ->
  sin K (data_fields self p fields acc) = true.
Proof.
  revert acc. induction fields as [|[k' v'] fields IH]; intros acc Hin Hk; simpl.
  { by apply elem_of_nil in Hin. }
  apply elem_of_cons in Hin as [[= <- <-]|Hin].
  - apply sin_data_fields_acc. by rewrite sin_supdate, Hk.
  - by apply IH.
Qed.

Lemma sin_data_items_acc (self : pyval -> string -> flat) (pk K : string)
    (items : list pyval) (i0 : nat) (acc : flat) :
  sin K acc = true -> sin K (data_items self pk items i0 acc) = true.
Proof.
  revert i0 acc. induction items as [|x items IH]; intros i0 acc Hacc; simpl; [done|].
  apply IH. by rewrite sin_supdate, Hacc.
Qed.

Lemma sin_data_items_item (self : pyval -> string -> flat) (pk K : string)
    (items : list pyval) (j : nat) (x : pyval) :
  forall i0 acc,
    items !! j = Some x ->
    sin K (self x (pk +:+ str_nat (i0 + j) +:+ ".")) = true ->
    sin K (data_items self pk items i0 acc) = true.
Proof.
  revert j. induction items as [|x0 items IH]; intros j i0 acc Hj Hx; [done|].
  destruct j as [|j]; simpl in *.
  - injection Hj as ->. rewrite Nat.add_0_r in Hx.
    apply sin_data_items_acc. by rewrite sin_supdate, Hx, orb_true_r.
  - apply (IH j); [done|]. by replace (S i0 + j) with (i0 + S j) by lia.
Qed.

Lemma short_key_present (d : pyval) (path : list seg) (x : pyval) :
  leaf_at d path x ->
  forall k, last path = Some (Key k) ->
  forall p, sin k (flatten_data d p) = true.
Proof.
  induction 1 as [fields k0 v Hk Hv | fields k0 child path x Hk Hleaf IH
                 | fields k0 items i x Hk Hi Hx
                 | fields k0 items i child path x Hk Hi Hleaf IH];
    intros k Hlast p; simpl.
  - injection Hlast as ->.
    apply (sin_data_fields_field _ _ _ k v); [by apply sget_elem_of|].
    assert (data_field flatten_data p k v
            = sset (p +:+ k) (py_str v) (sset k (py_str v) [])) as ->
      by (by destruct v).
    rewrite !sin_sset, String.eqb_refl. simpl. by rewrite orb_true_r.
  - apply (sin_data_fields_field _ _ _ k0 (PDict child)); [by apply sget_elem_of|].
    simpl. apply IH. pose proof (leaf_at_nonempty _ _ _ Hleaf).
    destruct path; [done|]. done.
  - done.
  - apply (sin_data_fields_field _ _ _ k0 (PList items)); [by apply sget_elem_of|].
    simpl. apply (sin_data_items_item _ _ _ _ i (PDict child)); [done|].
    apply IH. pose proof (leaf_at_nonempty _ _ _ Hleaf).
    destruct path; [done|]. done.
Qed.

(** X19. Whenever [flatten] returns, the flat map has an entry under the
    bare name of every field that holds a leaf: for each leaf whose path ends
    in the key [k], [k] itself is a key of the flat map, however deep the
    leaf lies. *)
Theorem flatten_short_keys (d : pyval) (prefix : string) (devtype : pyval)
    (data : flat) (guide : guide_t) (path : list seg) (x : pyval) (k : string) :
  flatten d prefix devtype = Ok (data, guide) ->
  leaf_at d path x ->
  last path = Some (Key k) ->
  sin k data = true.
Proof.
  intros [-> _]%flatten_returns Hleaf Hlast. by eapply short_key_present.
Qed.

Lemma flatten_short_keys_witness :
  sin "name" (flatten_data retagged_record "") = true.
Proof.
  apply (flatten_short_keys retagged_record "" PNone _
           (flatten_guide retagged_record "" PNone)
           [Key "settings"; Key "relays"; Idx 1; Key "name"] PNone "name").
  - vm_compute. reflexivity.
  - unfold retagged_record.
    eapply (leaf_below _ "settings"); [reflexivity|].
    eapply (leaf_below_item _ "relays" _ 1); [reflexivity|reflexivity|].
    by apply leaf_field.
  - reflexivity.
Defined.

(** *** A tag edit on a record imported with tags *)

(** X20. A tag edit does not last on a record that was imported with tags.
    When the registry record has no top-level [Tags] and its flat map takes
    [Tags] from a nested leaf (the imported [ConfigInput.Tags]), [query]
    stores the edited tags as a new top-level [Tags], and the next [flatten]
    of the stored record gives [Tags] its old value again. *)
Theorem stored_tag_edit_is_shadowed (set_iter : gset string -> list string)
    (set_tag delete_tag : option string) (data data' : flat) (guide : guide_t)
    (device_db device_db' : list (string * pyval)) (id old : string)
    (fields : list (string * pyval)) :
  given set_tag || given delete_tag = true ->
  sget id device_db = Some (PDict fields) ->
  flatten (PDict fields) "" PNone = Ok (data, guide) ->
  sget "ID" data = Some id ->
  sget "Tags" fields = None ->
  sget "Tags" data = Some old ->
  query_retag set_iter set_tag delete_tag data device_db = Ok (data', device_db') ->
  exists tags,
    sget "Tags" data' = Some tags /\
    sget id device_db' = Some (PDict (fields ++ [("Tags", PStr tags)])) /\
    forall d g,
      flatten (PDict (fields ++ [("Tags", PStr tags)])) "" PNone = Ok (d, g) ->
      sget "Tags" d = Some old.
Proof.
  intros Hg Hrec Hflat Hid Hnone Hold. unfold query_retag. rewrite Hg.
  rewrite edit_tags_other, Hid, Hrec by done.
  destruct (sget "Tags" (edit_tags set_iter set_tag delete_tag data)) as [tags|] eqn:Et;
    [|done].
  cbn [py_setitem res_bind]. intros [= <- <-]. exists tags. split; [done|].
  rewrite sget_sset_eq, (sset_absent "Tags") by done. split; [done|].
  intros d g [-> _]%flatten_returns.
  apply flatten_returns in Hflat as [-> _].
  rewrite top_level_scalar by done. by rewrite Hold.
Qed.

Lemma stored_tag_edit_is_shadowed_witness :
  exists tags,
    sget "Tags" (edit_tags elements (Some "b") None (flatten_data (PDict tagged_fields) ""))
    = Some tags /\
    sget "98CDAC1E3126"
      (sset "98CDAC1E3126" (PDict (sset "Tags" (PStr tags) tagged_fields)) tagged_db)
    = Some (PDict (tagged_fields ++ [("Tags", PStr tags)])) /\
    forall d g,
      flatten (PDict (tagged_fields ++ [("Tags", PStr tags)])) "" PNone = Ok (d, g) ->
      sget "Tags" d = Some "a".
Proof.
  destruct (stored_tag_edit_is_shadowed elements (Some "b") None
              (flatten_data (PDict tagged_fields) "")
              (edit_tags elements (Some "b") None (flatten_data (PDict tagged_fields) ""))
              (flatten_guide (PDict tagged_fields) "" PNone)
              tagged_db
              (sset "98CDAC1E3126"
                 (PDict (sset "Tags"
                    (PStr (default EmptyString
                       (sget "Tags"
                          (edit_tags elements (Some "b") None
                             (flatten_data (PDict tagged_fields) "")))))
                    tagged_fields)) tagged_db)
              "98CDAC1E3126" "a" tagged_fields
              eq_refl eq_refl eq_refl eq_refl eq_refl eq_refl eq_refl)
    as (tags & Ht & Hdb & Hnext).
  exists tags. split; [exact Ht|]. split; [|exact Hnext].
  rewrite sget_sset_eq. reflexivity.
Defined.

(** ** A role that was never learned *)

Section unlearned_role.
Variable env : telnet.

Lemma snapshot_loop_raises (mode k : string) (rest : list string) (s : session) (e : exn) :
  py_getitem (router (cn s)) mode = Raise e ->
  for_each (k :: rest)
    (fun k s =>
       match snapshot_field (router (cn s)) mode k with
       | Ok v => do_event env (Cmd ("nvram set " +:+ k +:+ "=" +:+ v)) s
       | Raise e => (Raise e, s)
       end) s
  = (Raise e, s).
Proof.
  intros Hr. simpl. unfold seq_step, snapshot_field. by rewrite Hr.
Qed.

Lemma ddwrt_program_mode_unlearned (pgm : list (string * string)) (k : string)
    (rest : list string) (deletes : option (list string)) (s : session)
    (mode : string) (e : exn) :
  sget "wl_mode" pgm = Some mode ->
  py_getitem (router (cn s)) mode = Raise e ->
  let out := ddwrt_program_mode env pgm (k :: rest) deletes s in
  (exists e', out.1 = Raise e') /\
  cn out.2 = cn s /\
  Forall (fun ev => param_command ev = true) (new_events s out.2).
Proof.
  intros Hmode Hr. unfold ddwrt_program_mode. rewrite Hmode.
  set (writes := for_each pgm _).
  assert (Hw : param_step writes).
  { apply param_step_for_each. intros kv. by apply (param_step_do_event env (Cmd _)). }
  destruct (Hw s) as (params & Fp & Cp & Tp).
  rewrite seq_step_run. destruct (writes s) as [[[]|e1] s1]; simpl in Cp, Tp;
    lazy beta iota.
  - rewrite seq_step_run, snapshot_loop_raises with (e := e) by (by rewrite Cp).
    cbn [fst snd]. split; [by eexists|]. split; [done|].
    by rewrite (new_events_app s s1 params).
  - cbn [fst snd]. split; [by eexists|]. split; [done|].
    by rewrite (new_events_app s s1 params).
Qed.

(** X21. Asking a node for a role it was never learned in commits nothing.
    When the router's entry has no snapshot for the station role,
    [ddwrt_set_sta_mode] raises after issuing parameter commands only: no
    commit, no restart of the services and no apply over HTTP is ever issued,
    and the connection record is unchanged; the same holds for
    [ddwrt_set_ap_mode] and the access-point role. *)
Theorem unlearned_role_is_not_committed (s : session) (ssid password : string) :
  ((exists e, py_getitem (router (cn s)) "sta" = Raise e) ->
   let out := ddwrt_set_sta_mode env ssid s in
   (exists e, out.1 = Raise e) /\ cn out.2 = cn s /\
   Forall (fun ev => param_command ev = true) (new_events s out.2)) /\
  ((exists e, py_getitem (router (cn s)) "ap" = Raise e) ->
   let out := ddwrt_set_ap_mode env ssid password s in
   (exists e, out.1 = Raise e) /\ cn out.2 = cn s /\
   Forall (fun ev => param_command ev = true) (new_events s out.2)).
Proof.
  split; intros [e He].
  - by apply (ddwrt_program_mode_unlearned _ _ _ _ s "sta" e).
  - by apply (ddwrt_program_mode_unlearned _ _ _ _ s "ap" e).
Qed.
End unlearned_role.

(** ** The schema of a flattened record *)

(** The index substitution on the path of a field: every array index on the
    way becomes the marker. *)
Lemma re_sub_index_field_path (d : pyval) (path : list seg) (x : pyval) :
  leaf_at d path x -> plain_keys d = true ->
  forall k, last path = Some (Key k) ->
  forall p np st,
    reads p np st -> st = None \/ st = Some EmptyString ->
    re_sub_index (p +:+ path_string path) = np +:+ pending st +:+ wildcard path.
Proof.
  induction 1 as [fields k0 v Hk Hv | fields k0 child path x Hk Hleaf IH
                 | fields k0 items i x Hk Hi Hx
                 | fields k0 items i child path x Hk Hi Hleaf IH];
    intros Hplain k Hlast p np st Hr Hst;
    destruct (leaf_at_plain_field _ _ _ Hplain Hk) as [Hkp Hsub];
    pose proof (reads_key p np k0 st Hr Hst Hkp) as Hrk.
  - by apply reads_end_key.
  - pose proof (leaf_at_nonempty _ _ _ Hleaf) as Hne.
    rewrite path_string_cons, wildcard_cons by done. cbn [seg_string].
    replace (p +:+ k0 +:+ String dot (path_string path))
      with ((p +:+ k0 +:+ ".") +:+ path_string path) by (by rewrite !append_assoc).
    rewrite (IH Hsub k) with (np := np +:+ pending st +:+ k0) (st := Some EmptyString);
      [|by destruct path|done|by right].
    simpl pending. by rewrite !append_assoc.
  - done.
  - pose proof (leaf_at_nonempty _ _ _ Hleaf) as Hne.
    assert (Hchild : plain_keys (PDict child) = true).
    { eapply plain_keys_item; [exact Hsub|]. by eapply list_elem_of_lookup_2. }
    rewrite !path_string_cons, !wildcard_cons by done. cbn [seg_string].
    replace (p +:+ k0 +:+ String dot (str_nat i +:+ String dot (path_string path)))
      with (((p +:+ k0 +:+ ".") +:+ str_nat i +:+ ".") +:+ path_string path)
      by (by rewrite !append_assoc).
    rewrite (IH Hchild k) with (np := (np +:+ pending st +:+ k0) +:+ ".[n].") (st := None);
      [|by destruct path|by apply reads_index|by left].
    simpl pending. by rewrite !append_assoc.
Qed.

(** X22. For a record with plain keys, the schema at verbosity 1 shows the
    full path of a nested field without further detail: the coverage that
    [flatten] records for the path makes [schema_details] return the column
    alone, because the canonical path in the guide is the path itself with
    its array indices replaced by the marker. *)
Theorem schema_details_of_field_path (d : pyval) (devtype : pyval) (data : flat)
    (guide : guide_t) (path : list seg) (x : pyval) (k : string) :
  flatten d "" devtype = Ok (data, guide) ->
  plain_keys d = true ->
  leaf_at d path x ->
  2 <= length path ->
  last path = Some (Key k) ->
  exists coverage,
    sget (path_string path) guide = Some coverage /\
    schema_details (path_string path) coverage 1 = Ok (ColumnOnly (path_string path)).
Proof.
  intros [-> ->]%flatten_returns Hplain Hleaf Hlen Hlast.
  destruct (guide_leaf d path x Hleaf Hplain "" "" None devtype reads_nil)
    as [dt Hdt]; auto.
  rewrite !append_nil_l in Hdt. simpl pending in Hdt. rewrite ?append_nil_l in Hdt.
  exists [(dt, wildcard path)]. split; [done|].
  pose proof (re_sub_index_field_path d path x Hleaf Hplain k Hlast "" "" None reads_nil)
    as Hre.
  rewrite !append_nil_l in Hre. simpl pending in Hre. rewrite ?append_nil_l in Hre.
  unfold schema_details, schema_paths. simpl. rewrite Hre by (by left).
  by rewrite String.eqb_refl.
Qed.

Lemma schema_details_of_field_path_witness :
  exists coverage,
    sget "settings.relays.1.name" (flatten_guide retagged_record "" PNone) = Some coverage /\
    schema_details "settings.relays.1.name" coverage 1
    = Ok (ColumnOnly "settings.relays.1.name").
Proof.
  apply (schema_details_of_field_path retagged_record PNone
           (flatten_data retagged_record "") (flatten_guide retagged_record "" PNone)
           [Key "settings"; Key "relays"; Idx 1; Key "name"] PNone "name").
  - vm_compute. reflexivity.
  - reflexivity.
  - unfold retagged_record.
    eapply (leaf_below _ "settings"); [reflexivity|].
    eapply (leaf_below_item _ "relays" _ 1); [reflexivity|reflexivity|].
    by apply leaf_field.
  - simpl. lia.
  - reflexivity.
Defined.

(** ** Learning a DD-WRT node *)

Lemma sset_sset {V : Type} (k : string) (v w : V) (d : list (string * V)) :
  sset k w (sset k v d) = sset k w d.
Proof.
  induction d as [|[k0 v0] d IH]; simpl.
  - by rewrite String.eqb_refl.
  - destruct (String.eqb_spec k0 k) as [->|Hne]; simpl.
    + by rewrite String.eqb_refl.
    + destruct (String.eqb_spec k0 k) as [->|_]; [done|]. by rewrite IH.
Qed.

Lemma read_terms_answered (answers : string -> res string) (reply : string -> string) :
  (forall command, answers command = Ok (reply command)) ->
  read_terms answers learned_terms [] = Ok (learned_info reply).
Proof. intros H. unfold learned_terms. simpl. by rewrite !H. Qed.

(** What [ddwrt_learn] makes of the router db when the node answers. *)
Lemma ddwrt_learn_answered (answers : string -> res string) (reply : string -> string)
    (now : Z) (name address password : string) (router_db : list (string * pyval)) :
  (forall command, answers command = Ok (reply command)) ->
  ddwrt_learn (Ok tt) answers now name address password router_db
  = match sget name router_db with
    | Some old_info =>
        let? old_mac := py_getitem old_info "et0macaddr" in
        if negb (py_eq_str old_mac (reply "nvram get et0macaddr")) then
          match old_mac with
          | PStr _ => Raise SystemExit
          | _ => Raise TypeError
          end
        else
          let? learned := py_setitem old_info (reply "nvram get wl0_mode")
                            (PDict (learned_info reply)) in
          let? entry := py_setitem learned "InsertTime" (PInt now) in
          Ok (sset name entry router_db)
    | None =>
        Ok (sset name
              (PDict (sset "InsertTime" (PInt now)
                        (sset (reply "nvram get wl0_mode") (PDict (learned_info reply))
                           [("name", PStr name); ("address", PStr address);
                            ("password", PStr password);
                            ("et0macaddr", PStr (reply "nvram get et0macaddr"))])))
              router_db)
    end.
Proof.
  intros H. unfold ddwrt_learn. cbn [res_bind].
  rewrite H, (read_terms_answered answers reply H). cbn [res_bind].
  destruct (sget name router_db) as [old_info|] eqn:En.
  - destruct (py_getitem old_info "et0macaddr") as [old_mac|]; cbn [res_bind]; [|done].
    destruct (negb (py_eq_str old_mac _)); cbn [res_bind]; [by destruct old_mac|].
    change (py_getitem (PDict (learned_info reply)) "wl0_mode")
      with (@Ok pyval (PStr (reply "nvram get wl0_mode"))).
    cbn [res_bind py_str].
    destruct (py_setitem old_info _ _) as [learned|]; cbn [res_bind]; [|done].
    cbn [py_getitem]. rewrite sget_sset_eq. cbn [res_bind].
    destruct (py_setitem learned "InsertTime" (PInt now)) as [entry|]; cbn [res_bind];
      [|done].
    by rewrite sset_sset.
  - change (py_getitem (PDict (learned_info reply)) "wl0_mode")
      with (@Ok pyval (PStr (reply "nvram get wl0_mode"))).
    cbn [res_bind py_str py_getitem]. rewrite sget_sset_eq. cbn [res_bind py_setitem].
    by rewrite sset_sset.
Qed.

(** X23. Learning a node whose name the router db already holds with the
    same MAC address stores what was read under the node's current mode and
    stamps the entry, and changes nothing else: every other key of the
    entry and every other node of the db is as it was. *)
Theorem ddwrt_learn_known_node (answers : string -> res string) (reply : string -> string)
    (now : Z) (name address password : string) (router_db old : list (string * pyval)) :
  (forall command, answers command = Ok (reply command)) ->
  sget name router_db = Some (PDict old) ->
  sget "et0macaddr" old = Some (PStr (reply "nvram get et0macaddr")) ->
  reply "nvram get wl0_mode" <> "InsertTime" ->
  exists router_db' entry,
    ddwrt_learn (Ok tt) answers now name address password router_db = Ok router_db'
    /\ sget name router_db' = Some (PDict entry)
    /\ sget (reply "nvram get wl0_mode") entry = Some (PDict (learned_info reply))
    /\ sget "InsertTime" entry = Some (PInt now)
    /\ (forall key, key <> reply "nvram get wl0_mode" -> key <> "InsertTime" ->
          sget key entry = sget key old)
    /\ (forall other, other <> name -> sget other router_db' = sget other router_db).
Proof.
  intros Hanswers Hname Hmac Hmode.
  rewrite (ddwrt_learn_answered answers reply) by done.
  rewrite Hname. cbn [py_getitem]. rewrite Hmac. cbn [res_bind py_eq_str].
  rewrite String.eqb_refl. cbn [negb py_setitem res_bind].
  eexists _, _. split; [done|]. split; [by rewrite sget_sset_eq|].
  split; [by rewrite sget_sset_ne, sget_sset_eq by done|].
  split; [by rewrite sget_sset_eq|]. split.
  - intros key Hk1 Hk2. by rewrite !sget_sset_ne by done.
  - intros other Ho. by rewrite sget_sset_ne by done.
Qed.

(** X24. A name of the router db belongs to one device: once a node was
    learned under a new name, learning a node with another MAC address
    under that name ends the run with the message that the name is used. *)
Theorem ddwrt_learn_name_taken (answers1 answers2 : string -> res string)
    (reply1 reply2 : string -> string) (now1 now2 : Z)
    (name address1 password1 address2 password2 : string)
    (router_db : list (string * pyval)) :
  (forall command, answers1 command = Ok (reply1 command)) ->
  (forall command, answers2 command = Ok (reply2 command)) ->
  sget name router_db = None ->
  reply1 "nvram get et0macaddr" <> reply2 "nvram get et0macaddr" ->
  reply1 "nvram get wl0_mode" <> "et0macaddr" ->
  exists router_db1,
    ddwrt_learn (Ok tt) answers1 now1 name address1 password1 router_db = Ok router_db1
    /\ ddwrt_learn (Ok tt) answers2 now2 name address2 password2 router_db1
       = Raise SystemExit.
Proof.
  intros H1 H2 Hname Hmac Hmode.
  rewrite (ddwrt_learn_answered answers1 reply1) by done. rewrite Hname.
  eexists. split; [done|].
  rewrite (ddwrt_learn_answered answers2 reply2) by done.
  rewrite sget_sset_eq. cbn [py_getitem].
  rewrite (sget_sset "et0macaddr" "InsertTime").
  destruct (String.eqb_spec "InsertTime" "et0macaddr") as [[=]|_].
  rewrite sget_sset.
  destruct (String.eqb_spec (reply1 "nvram get wl0_mode") "et0macaddr") as [?|_].
  - done.
  - cbn [dict_get]. 
    destruct (String.eqb_spec "name" "et0macaddr") as [[=]|_].
    destruct (String.eqb_spec "address" "et0macaddr") as [[=]|_].
    destruct (String.eqb_spec "password" "et0macaddr") as [[=]|_].
    rewrite String.eqb_refl. cbn [res_bind py_eq_str].
    by destruct (String.eqb_spec (reply1 "nvram get et0macaddr")
                   (reply2 "nvram get et0macaddr")).
Qed.

(** X25. Learning a new node in one mode and then, with the same MAC
    address, in another leaves both readings in its entry, each under its
    mode, with the time of the second: this is how a node becomes capable
    of both roles. *)
Theorem ddwrt_learn_both_modes (answers1 answers2 : string -> res string)
    (reply1 reply2 : string -> string) (now1 now2 : Z)
    (name address password : string) (router_db : list (string * pyval)) :
  (forall command, answers1 command = Ok (reply1 command)) ->
  (forall command, answers2 command = Ok (reply2 command)) ->
  sget name router_db = None ->
  reply1 "nvram get et0macaddr" = reply2 "nvram get et0macaddr" ->
  reply1 "nvram get wl0_mode" = "ap" ->
  reply2 "nvram get wl0_mode" = "sta" ->
  exists router_db1 router_db2 entry,
    ddwrt_learn (Ok tt) answers1 now1 name address password router_db = Ok router_db1
    /\ ddwrt_learn (Ok tt) answers2 now2 name address password router_db1 = Ok router_db2
    /\ sget name router_db2 = Some (PDict entry)
    /\ sget "ap" entry = Some (PDict (learned_info reply1))
    /\ sget "sta" entry = Some (PDict (learned_info reply2))
    /\ sget "InsertTime" entry = Some (PInt now2)
    /\ (forall other, other <> name -> sget other router_db2 = sget other router_db).
Proof.
  intros H1 H2 Hname Hmac Hap Hsta.
  rewrite (ddwrt_learn_answered answers1 reply1) by done. rewrite Hname, Hap.
  eexists. eexists. eexists. split; [done|].
  rewrite (ddwrt_learn_answered answers2 reply2) by done.
  rewrite sget_sset_eq, Hsta, <- Hmac. cbn [py_getitem].
  change (sget "et0macaddr" _) with (Some (PStr (reply1 "nvram get et0macaddr"))).
  cbn [res_bind py_eq_str]. rewrite String.eqb_refl. cbn [negb py_setitem res_bind].
  split; [done|]. split; [by rewrite sget_sset_eq|].
  split; [done|]. split; [done|]. split; [done|].
  intros other Ho. by rewrite !sget_sset_ne by done.
Qed.

Lemma ddwrt_learn_known_node_witness :
  exists router_db' entry,
    ddwrt_learn (Ok tt) (fun command => Ok (sta_reply command)) 7 "node" "192.168.1.1" "pw"
      [("node", PDict [("et0macaddr", PStr "00:11:22:33:44:55"); ("ap", PDict [])])]
    = Ok router_db'
    /\ sget "node" router_db' = Some (PDict entry)
    /\ sget "sta" entry = Some (PDict (learned_info sta_reply))
    /\ sget "InsertTime" entry = Some (PInt 7)
    /\ (forall key, key <> "sta" -> key <> "InsertTime" ->
          sget key entry
          = sget key [("et0macaddr", PStr "00:11:22:33:44:55"); ("ap", PDict [])])
    /\ (forall other, other <> "node" ->
          sget other router_db'
          = sget other
              [("node", PDict [("et0macaddr", PStr "00:11:22:33:44:55"); ("ap", PDict [])])]).
Proof.
  apply (ddwrt_learn_known_node (fun command => Ok (sta_reply command)) sta_reply 7
           "node" "192.168.1.1" "pw"
           [("node", PDict [("et0macaddr", PStr "00:11:22:33:44:55"); ("ap", PDict [])])]
           [("et0macaddr", PStr "00:11:22:33:44:55"); ("ap", PDict [])]).
  - reflexivity.
  - reflexivity.
  - reflexivity.
  - discriminate.
Defined.

Lemma ddwrt_learn_name_taken_witness :
  exists router_db1,
    ddwrt_learn (Ok tt) (fun command => Ok (ap_reply command)) 7 "node" "192.168.1.1" "pw" []
    = Ok router_db1
    /\ ddwrt_learn (Ok tt) (fun command => Ok (String.append "x" (ap_reply command))) 8
         "node" "192.168.1.2" "pw" router_db1
       = Raise SystemExit.
Proof.
  apply (ddwrt_learn_name_taken (fun command => Ok (ap_reply command))
           (fun command => Ok (String.append "x" (ap_reply command)))
           ap_reply (fun command => String.append "x" (ap_reply command))
           7 8 "node" "192.168.1.1" "pw" "192.168.1.2" "pw" []).
  - reflexivity.
  - reflexivity.
  - reflexivity.
  - discriminate.
  - discriminate.
Defined.

Lemma ddwrt_learn_both_modes_witness :
  exists router_db1 router_db2 entry,
    ddwrt_learn (Ok tt) (fun command => Ok (ap_reply command)) 7 "node" "192.168.1.1" "pw" []
    = Ok router_db1
    /\ ddwrt_learn (Ok tt) (fun command => Ok (sta_reply command)) 8 "node" "192.168.1.1"
         "pw" router_db1 = Ok router_db2
    /\ sget "node" router_db2 = Some (PDict entry)
    /\ sget "ap" entry = Some (PDict (learned_info ap_reply))
    /\ sget "sta" entry = Some (PDict (learned_info sta_reply))
    /\ sget "InsertTime" entry = Some (PInt 8)
    /\ (forall other, other <> "node" -> sget other router_db2 = sget other []).
Proof.
  apply (ddwrt_learn_both_modes (fun command => Ok (ap_reply command))
           (fun command => Ok (sta_reply command)) ap_reply sta_reply 7 8
           "node" "192.168.1.1" "pw" []).
  - reflexivity.
  - reflexivity.
  - reflexivity.
  - reflexivity.
  - reflexivity.
  - reflexivity.
Defined.

(** ** Importing rows: [append_list] *)

Section import_properties.
Variables (latlng_ok tz_ok : string -> bool) (strip : string -> string).

Lemma copy_required_dict (n : nat) (f : list (string * pyval)) (keys : list string)
    (r r' : list (string * pyval)) :
  copy_required n (PDict f) keys r = Imported r' ->
  (forall k, k ∈ keys -> sin k f = true \/ sin "ProbeIP" f = true)
  /\ (forall K, sget K r'
               = if existsb (String.eqb K) keys && sin K f then sget K f else sget K r).
Proof.
  revert r. induction keys as [|k keys IH]; intros r.
  - simpl. intros [= <-]. split; [by intros k ?%elem_of_nil|done].
  - cbn [copy_required py_in import_of import_bind].
    destruct (sin k f) eqn:Ek; cbn [negb import_bind].
    + unfold dict_in in Ek. cbn [py_getitem].
      destruct (sget k f) as [v|] eqn:Ev; [|done]. cbn [import_of import_bind].
      intros [Hk HK]%IH. split.
      * intros k0 [->|?]%elem_of_cons; [left; unfold dict_in; by rewrite Ev|by apply Hk].
      * intros K. rewrite HK. cbn [existsb]. rewrite sget_sset.
        rewrite (String.eqb_sym K k).
        destruct (String.eqb_spec k K) as [<-|Hne]; cbn [orb].
        -- unfold dict_in. rewrite Ev.
           by destruct (existsb (String.eqb k) keys).
        -- done.
    + destruct (sin "ProbeIP" f) eqn:Ep; cbn [negb import_bind]; [|done].
      intros [Hk HK]%IH. split.
      * intros k0 [->|?]%elem_of_cons; [by right|by apply Hk].
      * intros K. rewrite HK. cbn [existsb].
        destruct (String.eqb_spec K k) as [->|Hne]; cbn [orb]; [|done].
        rewrite Ek. by rewrite andb_false_r.
Qed.

Lemma copy_required_accepts (n : nat) (f : list (string * pyval)) (keys : list string)
    (r : list (string * pyval)) :
  (forall k, k ∈ keys -> sin k f = true \/ sin "ProbeIP" f = true) ->
  exists r', copy_required n (PDict f) keys r = Imported r'.
Proof.
  revert r. induction keys as [|k keys IH]; intros r Hk.
  - by eexists.
  - cbn [copy_required py_in import_of import_bind].
    destruct (sin k f) eqn:Ek; cbn [negb import_bind].
    + unfold dict_in in Ek. cbn [py_getitem].
      destruct (sget k f) as [v|] eqn:Ev; [|done]. cbn [import_of import_bind].
      apply IH. intros k0 ?. apply Hk. by right.
    + destruct (Hk k) as [?|Hp]; [by left|congruence|].
      rewrite Hp. cbn [negb import_bind]. apply IH. intros k0 ?. apply Hk. by right.
Qed.

Lemma copy_optional_key_ok (n : nat) (f : list (string * pyval)) (k : string) (v : pyval)
    (r : list (string * pyval)) :
  sget k f = Some v ->
  optional_key_ok latlng_ok tz_ok f k v = true ->
  copy_optional_key latlng_ok tz_ok n (PDict f) k r
  = Imported (sset k v (if String.eqb k "StaticIP" && truthy v then sset "IP" v r else r)).
Proof.
  intros Ev. unfold optional_key_ok, copy_optional_key. cbn [py_getitem py_in].
  rewrite Ev. cbn [import_of import_bind]. unfold dict_in.
  destruct (String.eqb k "StaticIP" && truthy v);
    destruct (String.eqb k "LatLng" && truthy v);
    destruct (String.eqb k "TZ" && truthy v);
    destruct (String.eqb k "Access" && truthy v);
    destruct (sget "NetMask" f) as [m|]; cbn [negb orb andb import_of import_bind];
    try done;
    try destruct (truthy m); cbn [negb orb andb import_of import_bind]; try done;
    destruct v; cbn [match_string import_of import_bind]; try done;
    repeat match goal with
           | |- context [latlng_ok ?s] => destruct (latlng_ok s)
           | |- context [tz_ok ?s] => destruct (tz_ok s)
           | |- context [py_eq_str ?a ?b] => destruct (py_eq_str a b)
           end; cbn [negb orb andb import_of import_bind]; done.
Qed.

Lemma copy_optional_key_imported (n : nat) (f : list (string * pyval)) (k : string)
    (r r' : list (string * pyval)) :
  copy_optional_key latlng_ok tz_ok n (PDict f) k r = Imported r' ->
  exists v, sget k f = Some v /\ optional_key_ok latlng_ok tz_ok f k v = true.
Proof.
  unfold optional_key_ok, copy_optional_key. cbn [py_getitem py_in].
  destruct (sget k f) as [v|]; [|done]. cbn [import_of import_bind]. unfold dict_in.
  intros H. exists v. split; [done|]. revert H.
  destruct (String.eqb k "StaticIP" && truthy v);
    destruct (String.eqb k "LatLng" && truthy v);
    destruct (String.eqb k "TZ" && truthy v);
    destruct (String.eqb k "Access" && truthy v);
    destruct (sget "NetMask" f) as [m|]; cbn [negb orb andb import_of import_bind];
    try done;
    try destruct (truthy m); cbn [negb orb andb import_of import_bind]; try done;
    destruct v; cbn [match_string import_of import_bind]; try done;
    repeat match goal with
           | |- context [latlng_ok ?s] => destruct (latlng_ok s)
           | |- context [tz_ok ?s] => destruct (tz_ok s)
           | |- context [py_eq_str ?a ?b] => destruct (py_eq_str a b)
           end; cbn [negb orb andb import_of import_bind]; done.
Qed.

Lemma copy_optional_dict (n : nat) (f : list (string * pyval)) (keys : list string)
    (r r' : list (string * pyval)) :
  "IP" ∉ keys ->
  copy_optional latlng_ok tz_ok n (PDict f) keys r = Imported r' ->
  (forall k v, k ∈ keys -> sget k f = Some v ->
               optional_key_ok latlng_ok tz_ok f k v = true)
  /\ (forall K, K <> "IP" ->
        sget K r' = if existsb (String.eqb K) keys && sin K f then sget K f else sget K r)
  /\ sget "IP" r'
     = match sget "StaticIP" f with
       | Some v => if existsb (String.eqb "StaticIP") keys && truthy v then Some v
                   else sget "IP" r
       | None => sget "IP" r
       end.
Proof.
  revert r. induction keys as [|k keys IH]; intros r Hip.
  - simpl. intros [= <-]. split; [by intros k v ?%elem_of_nil|]. split; [done|].
    by destruct (sget "StaticIP" f).
  - apply not_elem_of_cons in Hip as [Hk Hip].
    cbn [copy_optional py_in import_of import_bind].
    destruct (sin k f) eqn:Ek.
    + destruct (copy_optional_key latlng_ok tz_ok n (PDict f) k r) as [r1| | |] eqn:E1;
        cbn [import_bind]; [|done..].
      destruct (copy_optional_key_imported _ _ _ _ _ E1) as (v & Ev & Hok).
      rewrite (copy_optional_key_ok n f k v r Ev Hok) in E1. injection E1 as <-.
      intros (Hoks & HK & HIP)%IH; [|done]. split; [|split].
      * intros k0 v0 [->|?]%elem_of_cons; [|by apply Hoks]. congruence.
      * intros K HKne. rewrite HK by done. cbn [existsb]. rewrite sget_sset.
        rewrite (String.eqb_sym K k).
        destruct (String.eqb_spec k K) as [<-|Hne]; cbn [orb].
        -- rewrite Ek, Ev. by destruct (existsb (String.eqb k) keys).
        -- destruct (String.eqb k "StaticIP" && truthy v); [|done].
           by rewrite sget_sset_ne.
      * rewrite HIP. rewrite sget_sset_ne by done. cbn [existsb].
        rewrite (String.eqb_sym "StaticIP" k).
        destruct (String.eqb_spec k "StaticIP") as [->|Hne]; cbn [orb andb].
        -- rewrite Ev. destruct (truthy v).
           ++ rewrite sget_sset_eq. by rewrite andb_true_r, Tauto.if_same.
           ++ by rewrite andb_false_r.
        -- done.
    + intros (Hoks & HK & HIP)%IH; [|done]. split; [|split].
      * intros k0 v0 [->|?]%elem_of_cons; [|by apply Hoks].
        unfold dict_in in Ek. intros Ev. by rewrite Ev in Ek.
      * intros K HKne. rewrite HK by done. cbn [existsb].
        destruct (String.eqb_spec K k) as [->|Hne]; cbn [orb]; [|done].
        rewrite Ek. by rewrite andb_false_r.
      * rewrite HIP. cbn [existsb].
        destruct (String.eqb_spec "StaticIP" k) as [<-|Hne]; cbn [orb]; [|done].
        unfold dict_in in Ek. by destruct (sget "StaticIP" f).
Qed.

Lemma copy_optional_accepts (n : nat) (f : list (string * pyval)) (keys : list string)
    (r : list (string * pyval)) :
  (forall k v, k ∈ keys -> sget k f = Some v ->
               optional_key_ok latlng_ok tz_ok f k v = true) ->
  exists r', copy_optional latlng_ok tz_ok n (PDict f) keys r = Imported r'.
Proof.
  revert r. induction keys as [|k keys IH]; intros r Hok.
  - by eexists.
  - cbn [copy_optional py_in import_of import_bind]. unfold dict_in.
    destruct (sget k f) as [v|] eqn:Ev.
    + rewrite (copy_optional_key_ok n f k v r Ev) by (apply Hok; [by left|done]).
      cbn [import_bind]. apply IH. intros k0 v0 ?. apply Hok. by right.
    + apply IH. intros k0 v0 ?. apply Hok. by right.
Qed.

Ltac key_listed :=
  unfold required_keys, optional_keys;
  repeat first [apply list_elem_of_here | apply list_elem_of_further].

Lemma known_key_split (K : string) :
  known_key K
  = existsb (String.eqb K) required_keys || existsb (String.eqb K) optional_keys.
Proof. unfold known_key. by rewrite existsb_app. Qed.

Lemma optional_key_ok_static (f : list (string * pyval)) (v : pyval) :
  optional_key_ok latlng_ok tz_ok f "StaticIP" v = true <->
  (truthy v = true -> exists m, sget "NetMask" f = Some m /\ truthy m = true).
Proof.
  unfold optional_key_ok.
  change (String.eqb "StaticIP" "StaticIP") with true.
  change (String.eqb "StaticIP" "LatLng") with false.
  change (String.eqb "StaticIP" "TZ") with false.
  change (String.eqb "StaticIP" "Access") with false.
  cbn [andb negb orb]. rewrite !andb_true_r.
  destruct (truthy v); cbn [negb orb].
  - split.
    + intros H _. destruct (sget "NetMask" f) as [m|]; [by exists m|done].
    + intros [m [-> Hm]]; done.
  - by split.
Qed.

Lemma optional_key_ok_latlng (f : list (string * pyval)) (v : pyval) :
  optional_key_ok latlng_ok tz_ok f "LatLng" v = true <->
  (truthy v = true -> exists s, v = PStr s /\ latlng_ok s = true).
Proof.
  unfold optional_key_ok.
  change (String.eqb "LatLng" "StaticIP") with false.
  change (String.eqb "LatLng" "LatLng") with true.
  change (String.eqb "LatLng" "TZ") with false.
  change (String.eqb "LatLng" "Access") with false.
  cbn [andb negb orb]. rewrite !andb_true_r.
  destruct (truthy v); cbn [negb orb].
  - split.
    + intros H _. destruct v; try done. by eexists.
    + intros [s [-> Hs]]; done.
  - by split.
Qed.

Lemma optional_key_ok_tz (f : list (string * pyval)) (v : pyval) :
  optional_key_ok latlng_ok tz_ok f "TZ" v = true <->
  (truthy v = true -> exists s, v = PStr s /\ tz_ok s = true).
Proof.
  unfold optional_key_ok.
  change (String.eqb "TZ" "StaticIP") with false.
  change (String.eqb "TZ" "LatLng") with false.
  change (String.eqb "TZ" "TZ") with true.
  change (String.eqb "TZ" "Access") with false.
  cbn [andb negb orb]. rewrite !andb_true_r.
  destruct (truthy v); cbn [negb orb].
  - split.
    + intros H _. destruct v; try done. by eexists.
    + intros [s [-> Hs]]; done.
  - by split.
Qed.

Lemma optional_key_ok_access (f : list (string * pyval)) (v : pyval) :
  optional_key_ok latlng_ok tz_ok f "Access" v = true <->
  (truthy v = true -> v = PStr "Continuous" \/ v = PStr "Periodic").
Proof.
  unfold optional_key_ok.
  change (String.eqb "Access" "StaticIP") with false.
  change (String.eqb "Access" "LatLng") with false.
  change (String.eqb "Access" "TZ") with false.
  change (String.eqb "Access" "Access") with true.
  cbn [andb negb orb].
  destruct (truthy v); cbn [negb orb].
  - split.
    + intros H _. destruct v; try done. cbn [py_eq_str] in H.
      apply orb_true_iff in H as [H|H]; apply String.eqb_eq in H; subst; auto.
    + intros [->| ->]; done.
  - by split.
Qed.

Lemma optional_key_ok_plain (f : list (string * pyval)) (k : string) (v : pyval) :
  k <> "StaticIP" -> k <> "LatLng" -> k <> "TZ" -> k <> "Access" ->
  optional_key_ok latlng_ok tz_ok f k v = true.
Proof.
  intros H1 H2 H3 H4. unfold optional_key_ok.
  destruct (String.eqb_spec k "StaticIP"); [done|].
  destruct (String.eqb_spec k "LatLng"); [done|].
  destruct (String.eqb_spec k "TZ"); [done|].
  by destruct (String.eqb_spec k "Access").
Qed.

(** The entry made of a dictionary row, and why the row was taken. *)
Lemma import_row_dict (now : Z) (n : nat) (f : list (string * pyval)) (t : pyval) :
  import_row latlng_ok tz_ok strip now n (PDict f) = Imported t ->
  exists r,
    t = queue_entry r now
    /\ row_accepted latlng_ok tz_ok f
    /\ (forall K, K <> "IP" -> K <> "ProbeIP" ->
          sget K r = if known_key K then sget K f else None)
    /\ sget "IP" r = match sget "StaticIP" f with
                     | Some v => if truthy v then Some v else None
                     | None => None
                     end
    /\ sget "ProbeIP" r = match sget "ProbeIP" f with
                          | Some (PStr s) => Some (PStr (strip s))
                          | _ => None
                          end.
Proof.
  unfold import_row.
  destruct (copy_required n (PDict f) required_keys []) as [r1| | |] eqn:E1;
    cbn [import_bind]; [|done..].
  destruct (copy_optional latlng_ok tz_ok n (PDict f) optional_keys r1) as [r2| | |] eqn:E2;
    cbn [import_bind]; [|done..].
  apply copy_required_dict in E1 as [Hreq H1].
  apply copy_optional_dict in E2 as (Hok & H2 & Hip).
  2:{ unfold optional_keys. rewrite !not_elem_of_cons.
      repeat split; try discriminate. apply not_elem_of_nil. }
  assert (Hknown : forall K, K <> "IP" ->
            sget K r2 = if known_key K then sget K f else None).
  { intros K HK. rewrite H2, H1, known_key_split by done. cbn [dict_get].
    unfold dict_in. destruct (sget K f) as [v|].
    - rewrite !andb_true_r.
      by destruct (existsb (String.eqb K) optional_keys),
                  (existsb (String.eqb K) required_keys).
    - rewrite !andb_false_r.
      by destruct (existsb (String.eqb K) required_keys || _). }
  assert (Hprobe : sget "ProbeIP" r2 = sget "ProbeIP" f) by (by rewrite Hknown).
  assert (Hstatic : sget "IP" r2 = match sget "StaticIP" f with
                                   | Some v => if truthy v then Some v else None
                                   | None => None
                                   end).
  { rewrite Hip, H1. by destruct (sget "StaticIP" f). }
  assert (Haccepted : (forall v, sget "ProbeIP" f = Some v -> exists s, v = PStr s) ->
                      row_accepted latlng_ok tz_ok f).
  { intros Hp. unfold row_accepted.
    split.
    { destruct (Hreq "SSID") as [Hs|?]; [key_listed|..|by left].
      destruct (Hreq "Password") as [Hw|?]; [key_listed|..|by left]. by right. }
    split.
    { intros v Ev. apply optional_key_ok_static. apply Hok; [key_listed|done]. }
    split.
    { intros v Ev. apply (optional_key_ok_latlng f). apply Hok; [key_listed|done]. }
    split.
    { intros v Ev. apply (optional_key_ok_tz f). apply Hok; [key_listed|done]. }
    split.
    { intros v Ev. apply (optional_key_ok_access f). apply Hok; [key_listed|done]. }
    done. }
  rewrite Hprobe. destruct (sget "ProbeIP" f) as [[| | |s| |]|] eqn:Ep;
    cbn [import_bind]; try done.
  - intros [= <-]. eexists. split; [done|]. split.
    { apply Haccepted. intros v [= <-]. by eexists. }
    split.
    { intros K HK1 HK2. rewrite sget_sset_ne by done. by apply Hknown. }
    split; [by rewrite sget_sset_ne|by rewrite sget_sset_eq].
  - intros [= <-]. eexists. split; [done|]. split.
    { by apply Haccepted. }
    split.
    { intros K HK1 HK2. by apply Hknown. }
    split; done.
Qed.

Lemma import_row_accepts (now : Z) (n : nat) (f : list (string * pyval)) :
  row_accepted latlng_ok tz_ok f ->
  exists t, import_row latlng_ok tz_ok strip now n (PDict f) = Imported t.
Proof.
  intros (Hreq & Hstatic & Hlatlng & Htz & Haccess & Hprobe). unfold import_row.
  destruct (copy_required_accepts n f required_keys []) as [r1 E1].
  { intros k. unfold required_keys. rewrite !elem_of_cons, elem_of_nil.
    intros [->|[->|[]]]; destruct Hreq as [?|[? ?]]; auto. }
  rewrite E1. cbn [import_bind].
  destruct (copy_optional_accepts n f optional_keys r1) as [r2 E2].
  { intros k v. unfold optional_keys. rewrite !elem_of_cons, elem_of_nil.
    intros Hk Ev.
    destruct Hk as [->|[->|[->|[->|[->|[->|[->|[->|[->|[->|[->|[]]]]]]]]]]]];
      first [ apply optional_key_ok_static; by apply Hstatic
            | apply optional_key_ok_latlng; by apply Hlatlng
            | apply optional_key_ok_tz; by apply Htz
            | apply optional_key_ok_access; by apply Haccess
            | by apply optional_key_ok_plain ]. }
  rewrite E2. cbn [import_bind].
  apply copy_optional_dict in E2 as (_ & H2 & _).
  2:{ unfold optional_keys. rewrite !not_elem_of_cons.
      repeat split; try discriminate. apply not_elem_of_nil. }
  rewrite (H2 "ProbeIP") by done.
  change (existsb (String.eqb "ProbeIP") optional_keys) with true. cbn [andb].
  unfold dict_in. destruct (sget "ProbeIP" f) as [v|] eqn:Ep.
  - destruct (Hprobe v eq_refl) as [s ->]. by eexists.
  - apply copy_required_dict in E1 as [_ H1]. rewrite H1.
    change (existsb (String.eqb "ProbeIP") required_keys) with false.
    cbn [andb dict_get]. by eexists.
Qed.

(** Whatever the row, an entry made of it has the shape of a queue entry. *)
Lemma import_row_shape (now : Z) (n : nat) (row t : pyval) :
  import_row latlng_ok tz_ok strip now n row = Imported t ->
  exists r, t = queue_entry r now.
Proof.
  unfold import_row.
  destruct (copy_required n row required_keys []) as [r1| | |];
    cbn [import_bind]; [|done..].
  destruct (copy_optional latlng_ok tz_ok n row optional_keys r1) as [r2| | |];
    cbn [import_bind]; [|done..].
  destruct (sget "ProbeIP" r2) as [[| | |s| |]|]; cbn [import_bind]; try done;
    intros [= <-]; by eexists.
Qed.

Lemma append_rows_imported (clock : nat -> Z) (n : nat) (l device_queue q' : list pyval) :
  append_rows latlng_ok tz_ok strip clock n l device_queue = Imported q' ->
  length q' = (length device_queue + length l)%nat
  /\ (forall i t, device_queue !! i = Some t -> q' !! i = Some t)
  /\ (forall i row, l !! i = Some row ->
        exists t,
          import_row latlng_ok tz_ok strip (clock (S (n + i))) (S (n + i)) row = Imported t
          /\ q' !! (length device_queue + i)%nat = Some t).
Proof.
  revert n device_queue. induction l as [|row l IH]; intros n device_queue.
  - simpl. intros [= <-]. split; [lia|]. split; [done|]. by intros i row ?.
  - cbn [append_rows].
    destruct (import_row latlng_ok tz_ok strip (clock (S n)) (S n) row) as [t| | |] eqn:Et;
      cbn [import_bind]; [|done..].
    intros (Hlen & Hpre & Hrows)%IH. rewrite length_app in Hlen. simpl in Hlen.
    split; [simpl; lia|]. split.
    + intros i x Hi. apply Hpre. by apply lookup_app_l_Some.
    + intros [|i] row0 Hrow0.
      * injection Hrow0 as <-. exists t. rewrite !Nat.add_0_r. split; [done|].
        apply Hpre. rewrite lookup_app_r by lia. by rewrite Nat.sub_diag.
      * simpl in Hrow0. destruct (Hrows i row0 Hrow0) as (t0 & Ht0 & Hq).
        exists t0. rewrite <- Nat.add_succ_comm. split; [done|].
        rewrite <- Hq. f_equal. rewrite length_app. simpl. lia.
Qed.

Lemma append_rows_accepts (clock : nat -> Z) (l : list pyval) :
  (forall row, row ∈ l -> forall now n,
      exists t, import_row latlng_ok tz_ok strip now n row = Imported t) ->
  forall n device_queue,
    exists q', append_rows latlng_ok tz_ok strip clock n l device_queue = Imported q'.
Proof.
  induction l as [|row l IH]; intros Hrows n device_queue.
  - by eexists.
  - cbn [append_rows].
    destruct (Hrows row (list_elem_of_here _ _) (clock (S n)) (S n)) as [t ->].
    cbn [import_bind]. apply IH. intros row0 ?. apply Hrows. by right.
Qed.
End import_properties.

(** X26. An import that goes through adds one entry per row at the end of
    the queue and leaves the entries before as they were; each new entry
    holds a [ConfigInput] and the time of its import, and is ready to be
    provisioned. *)
Theorem append_list_queues_one_entry_per_row (latlng_ok tz_ok : string -> bool)
    (strip : string -> string) (clock : nat -> Z) (l device_queue q' : list pyval) :
  append_list latlng_ok tz_ok strip clock l device_queue = Imported q' ->
  length q' = (length device_queue + length l)%nat
  /\ (forall i t, device_queue !! i = Some t -> q' !! i = Some t)
  /\ (forall i, (i < length l)%nat ->
        exists r,
          q' !! (length device_queue + i)%nat = Some (queue_entry r (clock (S i)))
          /\ entry_ready None false None (queue_entry r (clock (S i))) = Ok true).
Proof.
  unfold append_list. intros (Hlen & Hpre & Hrows)%append_rows_imported.
  split; [done|]. split; [done|].
  intros i Hi. destruct (lookup_lt_is_Some_2 l i Hi) as [row Hrow].
  destruct (Hrows i row Hrow) as (t & Ht & Hq).
  apply import_row_shape in Ht as [r ->]. by exists r.
Qed.

(** X27. The entry made of a row that is a dictionary carries the known
    keys of the row with their values and no other key of it; [IP] is the
    static address when one is given, and the address to probe is
    stripped. *)
Theorem imported_entry_copies_known_keys (latlng_ok tz_ok : string -> bool)
    (strip : string -> string) (clock : nat -> Z) (l device_queue q' : list pyval)
    (i : nat) (f : list (string * pyval)) :
  append_list latlng_ok tz_ok strip clock l device_queue = Imported q' ->
  l !! i = Some (PDict f) ->
  exists r,
    q' !! (length device_queue + i)%nat = Some (queue_entry r (clock (S i)))
    /\ (forall K, K <> "IP" -> K <> "ProbeIP" ->
          sget K r = if known_key K then sget K f else None)
    /\ sget "IP" r = match sget "StaticIP" f with
                     | Some v => if truthy v then Some v else None
                     | None => None
                     end
    /\ sget "ProbeIP" r = match sget "ProbeIP" f with
                          | Some (PStr s) => Some (PStr (strip s))
                          | _ => None
                          end.
Proof.
  unfold append_list. intros (_ & _ & Hrows)%append_rows_imported Hrow.
  destruct (Hrows i _ Hrow) as (t & Ht & Hq).
  apply import_row_dict in Ht as (r & -> & _ & Hknown & Hip & Hprobe).
  by exists r.
Qed.

(** X28. A list of dictionary rows is imported exactly when every row
    passes the tests: the wireless network is given unless the row has an
    address to probe, a static address comes with its mask, [LatLng], [TZ]
    and [Access] are empty or well formed, and the address to probe is a
    string. *)
Theorem append_list_takes_accepted_rows (latlng_ok tz_ok : string -> bool)
    (strip : string -> string) (clock : nat -> Z) (l device_queue : list pyval) :
  (forall row, row ∈ l -> exists f, row = PDict f) ->
  (exists q', append_list latlng_ok tz_ok strip clock l device_queue = Imported q')
  <-> (forall f, PDict f ∈ l -> row_accepted latlng_ok tz_ok f).
Proof.
  intros Hdict. unfold append_list. split.
  - intros [q' (_ & _ & Hrows)%append_rows_imported] f [i Hi]%list_elem_of_lookup_1.
    destruct (Hrows i _ Hi) as (t & Ht & _).
    by apply import_row_dict in Ht as (r & _ & Haccepted & _).
  - intros Haccepted. apply append_rows_accepts.
    intros row Hrow now n. destruct (Hdict row Hrow) as [f ->].
    apply import_row_accepts. by apply Haccepted.
Qed.

(** X29. Import asks less of a static address than provisioning does: when
    an imported row has the key [StaticIP] and lacks [NetMask] or [Gateway],
    the entry made of it makes [provision_device] raise [KeyError] in a
    provision-list run; a row with the three keys, or without [StaticIP],
    gets to the pushes. *)
Theorem imported_static_address_needs_gateway (latlng_ok tz_ok : string -> bool)
    (strip : string -> string) (clock : nat -> Z) (l device_queue q' : list pyval)
    (i : nat) (f : list (string * pyval))
    (dev_gen verbose : nat) (replies : nat -> nat -> option pyval) (tries : nat) :
  append_list latlng_ok tz_ok strip clock l device_queue = Imported q' ->
  l !! i = Some (PDict f) ->
  exists t cfg,
    q' !! (length device_queue + i)%nat = Some t
    /\ py_getitem t "ConfigInput" = Ok cfg
    /\ provision_device_call cfg true dev_gen verbose replies tries
       = if sin "StaticIP" f && negb (sin "NetMask" f && sin "Gateway" f)
         then Raise KeyError
         else Ok (provision_device dev_gen verbose replies tries).
Proof.
  unfold append_list. intros (_ & _ & Hrows)%append_rows_imported Hrow.
  destruct (Hrows i _ Hrow) as (t & Ht & Hq).
  apply import_row_dict in Ht as (r & -> & _ & Hknown & _).
  exists (queue_entry r (clock (S (0 + i)))), (PDict r).
  split; [done|]. split; [done|].
  unfold provision_device_call, static_field. cbn [py_in py_getitem]. unfold dict_in.
  rewrite (Hknown "StaticIP"), (Hknown "NetMask"), (Hknown "Gateway") by done.
  change (known_key "StaticIP") with true. change (known_key "NetMask") with true.
  change (known_key "Gateway") with true. cbn iota.
  destruct (sget "StaticIP" f), (sget "NetMask" f), (sget "Gateway" f); done.
Qed.

Lemma append_list_queues_one_entry_per_row_witness :
  exists q',
    append_list (fun _ => true) (fun _ => true) (fun s => s) sample_clock sample_rows
      [PDict []] = Imported q'
    /\ length q' = 3%nat
    /\ (forall i t, [PDict []] !! i = Some t -> q' !! i = Some t)
    /\ (forall i, (i < 2)%nat ->
          exists r,
            q' !! (1 + i)%nat = Some (queue_entry r (sample_clock (S i)))
            /\ entry_ready None false None (queue_entry r (sample_clock (S i))) = Ok true).
Proof.
  eexists. split; [reflexivity|].
  apply (append_list_queues_one_entry_per_row (fun _ => true) (fun _ => true)
           (fun s => s) sample_clock sample_rows [PDict []]).
  reflexivity.
Defined.

Lemma imported_entry_copies_known_keys_witness :
  exists q' r,
    append_list (fun _ => true) (fun _ => true) (fun s => s) sample_clock sample_rows []
    = Imported q'
    /\ q' !! 0%nat = Some (queue_entry r (sample_clock 1))
    /\ sget "Group" r = Some (PStr "g")
    /\ sget "Comment" r = None.
Proof.
  eexists.
  destruct (imported_entry_copies_known_keys (fun _ => true) (fun _ => true)
              (fun s => s) sample_clock sample_rows [] _ 0
              [("SSID", PStr "home"); ("Password", PStr "pw"); ("Group", PStr "g");
               ("Comment", PStr "kitchen")] eq_refl eq_refl)
    as (r & Hq & Hknown & _).
  exists r. split; [reflexivity|]. split; [exact Hq|].
  split; [apply (Hknown "Group"); discriminate|apply (Hknown "Comment"); discriminate].
Defined.

Lemma append_list_takes_accepted_rows_witness :
  (exists q',
      append_list (fun _ => true) (fun _ => true) (fun s => s) sample_clock
        [PDict [("SSID", PStr "home"); ("StaticIP", PStr "192.168.1.40")]] []
      = Imported q')
  <-> (forall f, PDict f ∈ [PDict [("SSID", PStr "home"); ("StaticIP", PStr "192.168.1.40")]]
                 -> row_accepted (fun _ => true) (fun _ => true) f).
Proof.
  apply (append_list_takes_accepted_rows (fun _ => true) (fun _ => true) (fun s => s)
           sample_clock
           [PDict [("SSID", PStr "home"); ("StaticIP", PStr "192.168.1.40")]] []).
  intros row Hrow. apply list_elem_of_singleton in Hrow. by eexists.
Defined.

Lemma imported_static_address_needs_gateway_witness :
  exists q' t cfg,
    append_list (fun _ => true) (fun _ => true) (fun s => s) sample_clock sample_rows []
    = Imported q'
    /\ q' !! 1%nat = Some t
    /\ py_getitem t "ConfigInput" = Ok cfg
    /\ provision_device_call cfg true 2 0 (fun _ _ => None) 3 = Raise KeyError.
Proof.
  eexists.
  destruct (imported_static_address_needs_gateway (fun _ => true) (fun _ => true)
              (fun s => s) sample_clock sample_rows [] _ 1
              [("SSID", PStr "home"); ("Password", PStr "pw");
               ("StaticIP", PStr "192.168.1.40"); ("NetMask", PStr "255.255.255.0")]
              2 0 (fun _ _ => None) 3 eq_refl eq_refl)
    as (t & cfg & Hq & Hcfg & Hcall).
  exists t, cfg. split; [reflexivity|]. split; [exact Hq|]. split; [exact Hcfg|].
  exact Hcall.
Defined.

(** ** Listing the queue: [print_list] *)

Lemma entry_ready_plain (group : option string) (d : pyval) :
  plain_entry d -> exists b, entry_ready group false None d = Ok b.
Proof.
  intros (fields & cfg & status & -> & Hcfg & Hstatus & _).
  unfold entry_ready. cbn [py_in py_getitem]. unfold dict_in.
  rewrite Hcfg, Hstatus. cbn [negb res_bind py_in].
  destruct (negb (negb (sin "CompletedTime" status))); [by eexists|].
  destruct (negb (given group)); cbn [res_bind negb given]; [by eexists|].
  cbn [py_getitem]. unfold dict_in.
  destruct (sget "Group" cfg); cbn [res_bind]; [|by eexists].
  destruct (negb (py_eq_str _ _)); by eexists.
Qed.

Lemma check_entries_plain (group : option string) (dq : list pyval) :
  Forall plain_entry dq -> exists c, check_entries group false None false dq = Ok c.
Proof.
  induction 1 as [|d dq Hd _ IH]; cbn [check_entries]; [by eexists|].
  destruct (entry_ready_plain group d Hd) as [[] ->]; cbn [res_bind]; [by eexists|done].
Qed.

Lemma list_cells_plain (d : pyval) (header : list string) :
  plain_entry d -> exists cells, list_cells d header = Ok cells.
Proof.
  intros (fields & cfg & status & -> & Hcfg & Hstatus & _).
  induction header as [|h header [cells IH]]; cbn [list_cells]; [by eexists|].
  rewrite IH. unfold list_cell. cbn [py_getitem]. rewrite Hcfg, Hstatus.
  cbn [res_bind py_in py_getitem]. unfold dict_in.
  destruct (sget h cfg); cbn [res_bind]; [by eexists|].
  destruct (sget h status); cbn [res_bind]; by eexists.
Qed.

Lemma list_rows_plain (group : option string) (dq : list pyval) :
  Forall plain_entry dq ->
  if existsb grouped dq then list_rows group dq = Raise KeyError
  else exists rows,
      list_rows group dq = Ok rows
      /\ length rows = if given group then 0%nat else length dq.
Proof.
  induction 1 as [|d dq Hd _ IH]; cbn [list_rows existsb].
  - exists []. by destruct (given group).
  - destruct (list_cells_plain d list_header Hd) as [cells Hcells]. rewrite Hcells.
    destruct Hd as (fields & cfg & status & -> & Hcfg & Hstatus & Hgroup).
    cbn [py_getitem grouped]. rewrite Hcfg, Hgroup. cbn [res_bind py_in].
    destruct (sin "Group" cfg); cbn [res_bind orb]; [done|].
    destruct (existsb grouped dq).
    + rewrite IH. by destruct (negb (given group)).
    + destruct IH as (rows & -> & Hlen). destruct (given group); cbn [negb res_bind].
      * by exists rows.
      * exists (cells :: rows). simpl. by rewrite Hlen.
Qed.

(** X30. Listing a queue of entries that keep their group in [ConfigInput],
    as import makes them: the listing raises [KeyError] as soon as one entry
    names a group, whatever group is asked for; when no entry names one,
    every entry is listed if no group is asked for and none otherwise. *)
Theorem print_list_with_groups (device_queue : list pyval) (group : option string) :
  device_queue <> [] ->
  Forall plain_entry device_queue ->
  if existsb grouped device_queue then print_list device_queue group = Raise KeyError
  else exists rows,
      print_list device_queue group = Ok rows
      /\ length rows = if given group then 0%nat else length device_queue.
Proof.
  intros Hne Hplain. unfold print_list, check_for_device_queue.
  destruct (check_entries_plain group device_queue Hplain) as [c Hc].
  destruct device_queue as [|d dq]; [done|]. rewrite Hc. cbn [res_bind].
  by apply list_rows_plain.
Qed.

Lemma print_list_with_groups_witness :
  print_list [queue_entry [("SSID", PStr "home"); ("Group", PStr "g")] 1001] (Some "g")
  = Raise KeyError.
Proof.
  apply (print_list_with_groups
           [queue_entry [("SSID", PStr "home"); ("Group", PStr "g")] 1001] (Some "g")).
  - discriminate.
  - constructor; [|constructor]. eexists _, _, _. repeat split; reflexivity.
Defined.
